(** * The Wedjat scanner: a model of [scanner.js] and its collaborators

    The scanner presents the buttons of a menu one at a time, listens for
    the beginning and the end of a gesture and for the stop button, presses
    the button that was under point, descends into target menus and hands
    control back through callbacks.  Everything happens on one JavaScript
    event loop: a handler runs to completion, then the next event is taken.

    The model follows that shape.  A [World] holds what the closures of the
    program share (listener tables, pending timers, the variables captured
    by each [scanMenu] and [listen] invocation) and every procedure of the
    source is a computation in a state-and-exception monad over it.  The
    environment is a list of [Event]s. *)

From stdpp Require Import gmap strings list.
From Stdlib Require Import ZArith Lia Ascii.

(** ** Data *)

(** A button object.  [bid] stands for the identity of the JavaScript
    object ([===] on buttons compares [bid]s); [buttonType] is the type tag
    put on the object by [registerConstructor]; [waitMultiplier] is
    [my.waitMultiplier]; [target] is [buttonElem.dataset.target]. *)
Record Button := mkButton {
  bid : nat;
  buttonType : string;
  waitMultiplier : Z;
  target : string
}.

(** A menu object: its name, its buttons in DOM order, and the two
    behaviours given to [registerConstructor]. *)
Record Menu := mkMenu {
  menuName : string;
  getButtons : list Button;
  hide : string;
  scanType : string
}.

Definition getNButtons (m : Menu) : nat := length (getButtons m).

(** Callbacks.  The source builds them as closures; here each closure is a
    constructor holding what the closure captured, and [invoke] below is
    what calling it does.
    - [KDone c]: a callback supplied from outside the scanner, known only
      by its name [c];
    - [KListen]: the procedure [listen];
    - [KRescan menu cb]: [() => scanMenu(menu, cb)];
    - [KAfterTarget button bcb]: the function [afterTarget] of
      [makeButtonCallback];
    - [KScanTarget button k]:
      [() => scanMenu(button.getTargetMenu(), k)]. *)
Inductive Cont :=
| KDone (c : nat)
| KListen
| KRescan (menu : option Menu) (cb : Cont)
| KAfterTarget (button : Button) (bcb : Cont)
| KScanTarget (button : Button) (k : Cont).

(** One invocation of [scanMenu]: [sid] names the invocation (hence the
    identity of its closures [gazeBegin], [gazeEnd], [pressStop]), [menu]
    and [cb] are its two arguments.  A menu may be [undefined] ([None]):
    [menus[targetName]] of an unknown name, or [null] from the generic
    [getTargetMenu]. *)
Record Scan := mkScan {
  sid : nat;
  menu : option Menu;
  cb : Cont
}.

(** The [let] variables of a [scanMenu] invocation; [None] is
    [undefined]. *)
Record Vars := mkVars {
  currentButton : option Button;
  gazeButton : option Button;
  startTime : option Z;
  timeout : option nat;
  longGazeTimeout : option nat
}.

Definition blank : Vars := mkVars None None None None None.

(** The [let] variables of a [listen] invocation. *)
Record ListenVars := mkListenVars {
  l_startTime : option Z;
  l_longGazeTimeout : option nat
}.

Definition l_blank : ListenVars := mkListenVars None None.

(** A set of three listeners is the triple of closures of one invocation,
    so one value stands for the begin, the end and the stop listener of
    that invocation. *)
Inductive Handler :=
| HScan (s : Scan)
| HListen (lid : nat).

(** Function identity: two closures are the same function exactly when they
    come from the same invocation. *)
Definition same_fn (h1 h2 : Handler) : bool :=
  match h1, h2 with
  | HScan s1, HScan s2 => Nat.eqb (sid s1) (sid s2)
  | HListen l1, HListen l2 => Nat.eqb l1 l2
  | _, _ => false
  end.

(** What a pending [setTimeout] will call: [signalLongGaze], or the closure
    [next] of [step] with the three variables it captured.  An index is
    [None] when the source computes [NaN] for it. *)
Inductive TimerAction :=
| TSignalLongGaze
| TNext (s : Scan) (button : Button) (buttonIx : option nat) (loopIx : nat).

(** Calls made on the collaborators, in the order they happen. *)
Inductive Effect :=
| EToggle (b : nat)
| EAnnounce (b : nat)
| EPressed (b : nat)
| EBeep (freq duration : Z)
| ESpeak (en : string)
| EMode (status : string)
| ESlideUp (name : string)
| EDone (c : nat)
| EUncaught.

Record World := mkWorld {
  now : Z;                               (* the clock, in ms *)
  timers : gmap nat (Z * TimerAction);   (* pending timeouts: due time, action *)
  nextTimer : nat;
  vars : gmap nat Vars;                  (* variables of each scanMenu invocation *)
  nextScan : nat;
  lvars : gmap nat ListenVars;           (* variables of each listen invocation *)
  nextListen : nat;
  beginL : list Handler;                 (* detector emitter, "gestureBegin" *)
  endL : list Handler;                   (* detector emitter, "gestureEnd" *)
  stopL : list Handler;                  (* stop button, "click" *)
  finishedL : list (nat * Cont);         (* once-listeners for "buttonFinished", by button *)
  value : nat -> string;                 (* buttonElem.value of each button *)
  scanSpeed : Z;                         (* settings.getScanSpeed(), in ms *)
  log : list Effect;
  peak : nat                             (* most listeners ever held by one table *)
}.

(** ** The monad: state that survives an exception *)

(** A computation returns the new world and either a result or [None] when
    it threw.  What was written before the throw stays written. *)
Definition M (A : Type) : Type := World -> World * option A.

Definition ret {A} (a : A) : M A := fun w => (w, Some a).

Definition bind {A B} (c : M A) (k : A -> M B) : M B :=
  fun w =>
    match c w with
    | (w', Some a) => k a w'
    | (w', None) => (w', None)
    end.

Definition throw {A} : M A := fun w => (w, None).

Definition gets {A} (f : World -> A) : M A := fun w => (w, Some (f w)).

Definition modify (f : World -> World) : M unit := fun w => (f w, Some tt).

Notation "'do' x <- c ; k" := (bind c (fun x => k))
  (at level 10, x name, c at level 100, k at level 200, only parsing).
Notation "c ;;; k" := (bind c (fun _ => k))
  (at level 100, k at level 200, right associativity, only parsing).

(** The world after running a computation, whether it threw or not. *)
Definition exec {A} (c : M A) (w : World) : World := fst (c w).

(** Whether the computation returned normally. *)
Definition returns {A} (c : M A) (w : World) : bool :=
  match snd (c w) with Some _ => true | None => false end.

(** ** Field updates *)

Definition set_now t w := mkWorld t (timers w) (nextTimer w) (vars w) (nextScan w) (lvars w) (nextListen w) (beginL w) (endL w) (stopL w) (finishedL w) (value w) (scanSpeed w) (log w) (peak w).
Definition set_timers x w := mkWorld (now w) x (nextTimer w) (vars w) (nextScan w) (lvars w) (nextListen w) (beginL w) (endL w) (stopL w) (finishedL w) (value w) (scanSpeed w) (log w) (peak w).
Definition set_nextTimer x w := mkWorld (now w) (timers w) x (vars w) (nextScan w) (lvars w) (nextListen w) (beginL w) (endL w) (stopL w) (finishedL w) (value w) (scanSpeed w) (log w) (peak w).
Definition set_vars x w := mkWorld (now w) (timers w) (nextTimer w) x (nextScan w) (lvars w) (nextListen w) (beginL w) (endL w) (stopL w) (finishedL w) (value w) (scanSpeed w) (log w) (peak w).
Definition set_nextScan x w := mkWorld (now w) (timers w) (nextTimer w) (vars w) x (lvars w) (nextListen w) (beginL w) (endL w) (stopL w) (finishedL w) (value w) (scanSpeed w) (log w) (peak w).
Definition set_lvars x w := mkWorld (now w) (timers w) (nextTimer w) (vars w) (nextScan w) x (nextListen w) (beginL w) (endL w) (stopL w) (finishedL w) (value w) (scanSpeed w) (log w) (peak w).
Definition set_nextListen x w := mkWorld (now w) (timers w) (nextTimer w) (vars w) (nextScan w) (lvars w) x (beginL w) (endL w) (stopL w) (finishedL w) (value w) (scanSpeed w) (log w) (peak w).
Definition set_beginL x w := mkWorld (now w) (timers w) (nextTimer w) (vars w) (nextScan w) (lvars w) (nextListen w) x (endL w) (stopL w) (finishedL w) (value w) (scanSpeed w) (log w) (peak w).
Definition set_endL x w := mkWorld (now w) (timers w) (nextTimer w) (vars w) (nextScan w) (lvars w) (nextListen w) (beginL w) x (stopL w) (finishedL w) (value w) (scanSpeed w) (log w) (peak w).
Definition set_stopL x w := mkWorld (now w) (timers w) (nextTimer w) (vars w) (nextScan w) (lvars w) (nextListen w) (beginL w) (endL w) x (finishedL w) (value w) (scanSpeed w) (log w) (peak w).
Definition set_finishedL x w := mkWorld (now w) (timers w) (nextTimer w) (vars w) (nextScan w) (lvars w) (nextListen w) (beginL w) (endL w) (stopL w) x (value w) (scanSpeed w) (log w) (peak w).
Definition set_value x w := mkWorld (now w) (timers w) (nextTimer w) (vars w) (nextScan w) (lvars w) (nextListen w) (beginL w) (endL w) (stopL w) (finishedL w) x (scanSpeed w) (log w) (peak w).
Definition set_log x w := mkWorld (now w) (timers w) (nextTimer w) (vars w) (nextScan w) (lvars w) (nextListen w) (beginL w) (endL w) (stopL w) (finishedL w) (value w) (scanSpeed w) x (peak w).
Definition set_peak x w := mkWorld (now w) (timers w) (nextTimer w) (vars w) (nextScan w) (lvars w) (nextListen w) (beginL w) (endL w) (stopL w) (finishedL w) (value w) (scanSpeed w) (log w) x.

(** A world in which nothing has happened yet. *)
Definition initial (speed : Z) (val : nat -> string) : World :=
  mkWorld 0 ∅ 0 ∅ 0 ∅ 0 [] [] [] [] val speed [] 0.

(** ** Primitives of the runtime and of the collaborators *)

Definition emitLog (e : Effect) : M unit :=
  modify (fun w => set_log (log w ++ [e]) w).

(** [new Date()]. *)
Definition newDate : M Z := gets now.

(** [setTimeout(f, delay)]: the handle is a fresh number; the timer is due
    [delay] ms from now (a negative delay counts as 0). *)
Definition setTimeout (a : TimerAction) (delay : Z) : M nat :=
  fun w =>
    let tid := nextTimer w in
    (set_nextTimer (S tid)
       (set_timers (<[tid := ((now w + Z.max 0 delay)%Z, a)]> (timers w)) w),
     Some tid).

(** [clearTimeout(h)]; clearing [undefined] or a timer that is gone does
    nothing. *)
Definition cleared (h : option nat) (ts : gmap nat (Z * TimerAction)) :=
  match h with
  | Some tid => delete tid ts
  | None => ts
  end.

Definition clearTimeout (h : option nat) : M unit :=
  modify (fun w => set_timers (cleared h (timers w)) w).

(** Reading and writing the variables of a [scanMenu] invocation.  An
    invocation that has written nothing yet has them all [undefined]. *)
Definition varsOf (w : World) (i : nat) : Vars := default blank (vars w !! i).

Definition getVars (s : Scan) : M Vars := gets (fun w => varsOf w (sid s)).

Definition setVars (s : Scan) (f : Vars -> Vars) : M unit :=
  modify (fun w => set_vars (<[sid s := f (varsOf w (sid s))]> (vars w)) w).

Definition lvarsOf (w : World) (i : nat) : ListenVars :=
  default l_blank (lvars w !! i).

Definition set_currentButton x v := mkVars x (gazeButton v) (startTime v) (timeout v) (longGazeTimeout v).
Definition set_gazeButton x v := mkVars (currentButton v) x (startTime v) (timeout v) (longGazeTimeout v).
Definition set_startTime x v := mkVars (currentButton v) (gazeButton v) x (timeout v) (longGazeTimeout v).
Definition set_timeout x v := mkVars (currentButton v) (gazeButton v) (startTime v) x (longGazeTimeout v).
Definition set_longGazeTimeout x v := mkVars (currentButton v) (gazeButton v) (startTime v) (timeout v) x.

(** [EventEmitter.addListener]: append. *)
Definition addListener (h : Handler) (l : list Handler) : list Handler := l ++ [h].

(** [EventEmitter.removeListener]: remove the most recently added instance
    of the function, if there is one. *)
Fixpoint removeFirst (h : Handler) (l : list Handler) : list Handler :=
  match l with
  | [] => []
  | x :: r => if same_fn x h then r else x :: removeFirst h r
  end.

Definition removeListener (h : Handler) (l : list Handler) : list Handler :=
  rev (removeFirst h (rev l)).

(** [EventTarget.addEventListener]: a function already registered for the
    event is not added again. *)
Definition addEventListener (h : Handler) (l : list Handler) : list Handler :=
  if existsb (same_fn h) l then l else l ++ [h].

Definition removeEventListener (h : Handler) (l : list Handler) : list Handler :=
  removeListener h l.

(** Bookkeeping that is not in the source: [peak] remembers the largest
    number of listeners any of the three tables has held. *)
Definition notePeak : M unit :=
  modify (fun w =>
    set_peak (Nat.max (Nat.max (Nat.max (peak w) (length (beginL w)))
                                (length (endL w)))
                       (length (stopL w))) w).

(** [registerListeners(cbBegin, cbEnd, cbClick)]. *)
Definition registerListeners (h : Handler) : M unit :=
  modify (fun w => set_beginL (addListener h (beginL w)) w) ;;;
  modify (fun w => set_endL (addListener h (endL w)) w) ;;;
  modify (fun w => set_stopL (addEventListener h (stopL w)) w) ;;;
  notePeak.

(** [unregisterListeners(cbBegin, cbEnd, cbClick)]. *)
Definition unregisterListeners (h : Handler) : M unit :=
  modify (fun w => set_stopL (removeEventListener h (stopL w)) w) ;;;
  modify (fun w => set_beginL (removeListener h (beginL w)) w) ;;;
  modify (fun w => set_endL (removeListener h (endL w)) w).

(** Methods of a button.  Calling a method on [undefined] throws. *)
Definition isEmpty (b : Button) : M bool :=
  gets (fun w => bool_decide (value w (bid b) = "")).

Definition toggle (ob : option Button) : M unit :=
  match ob with
  | Some b => emitLog (EToggle (bid b))
  | None => throw
  end.

Definition announce (b : Button) : M unit := emitLog (EAnnounce (bid b)).

Definition pressed (b : Button) : M unit := emitLog (EPressed (bid b)).

(** [button.addFinishedListener(listener)], that is
    [my.emitter.once("buttonFinished", listener)]. *)
Definition addFinishedListener (b : Button) (k : Cont) : M unit :=
  modify (fun w => set_finishedL (finishedL w ++ [(bid b, k)]) w).

(** Methods of a menu. *)
Definition slideUp (m : Menu) : M unit := emitLog (ESlideUp (menuName m)).

(** [speaker.beep], [speaker.speakSync], and the three modes of the
    detector. *)
Definition beep (freq duration : Z) : M unit := emitLog (EBeep freq duration).
Definition speakSync (en : string) : M unit := emitLog (ESpeak en).
Definition idleMode : M unit := emitLog (EMode "idle").
Definition listenMode : M unit := emitLog (EMode "listening").
Definition scanMode : M unit := emitLog (EMode "scanning").

(** ** The scanner *)

Definition N_LOOPS : nat := 2.
Definition SHORT_GAZE_TIME : Z := 200.
Definition LONG_GAZE_TIME : Z := 2000.
Definition BEEP_DURATION : Z := 250.
Definition BEEP_FREQ : Z := 300.

(** [elapsed >= k] and [elapsed < k] on a number that may be [NaN]
    ([None]): every comparison with [NaN] is false. *)
Definition geN (e : option Z) (k : Z) : bool :=
  match e with Some x => (k <=? x)%Z | None => false end.
Definition ltN (e : option Z) (k : Z) : bool :=
  match e with Some x => (x <? k)%Z | None => false end.

(** [new Date() - startTime]; [NaN] when [startTime] is [undefined]. *)
Definition elapsedSince (t : Z) (start : option Z) : option Z :=
  match start with Some t0 => Some (t - t0)%Z | None => None end.

(** [b1 === b2] on variables holding a button or [undefined]. *)
Definition same_button (b1 b2 : option Button) : bool :=
  match b1, b2 with
  | Some x, Some y => Nat.eqb (bid x) (bid y)
  | None, None => true
  | _, _ => false
  end.

Definition signalLongGaze : M unit := beep BEEP_FREQ BEEP_DURATION.

Definition nextButton (m : Menu) (ix : option nat) : option nat :=
  match ix with
  | Some i => if Nat.eqb (getNButtons m) 0 then None
              else Some ((i + 1) mod getNButtons m)
  | None => None
  end.

Definition isLastButton (m : Menu) (buttonIx : option nat) : bool :=
  match buttonIx with
  | Some i => bool_decide (Z.of_nat i = (Z.of_nat (getNButtons m) - 1)%Z)
  | None => false
  end.

Definition nextLoop (m : Menu) (buttonIx : option nat) (loopIx : nat) : nat :=
  if isLastButton m buttonIx then loopIx + 1 else loopIx.

Definition isLoopOver (loopIx : nat) : bool := Nat.eqb loopIx N_LOOPS.

Definition getWaitTime (button : Button) : M Z :=
  gets (fun w => (scanSpeed w * waitMultiplier button)%Z).

Definition register (s : Scan) : M unit := registerListeners (HScan s).
Definition unregister (s : Scan) : M unit := unregisterListeners (HScan s).

(** The result of [makeButtonCallback] once [button] and [menu] are known
    to be objects. *)
Definition buttonCallback (m : Menu) (cb : Cont) (button : Button) : Cont :=
  let bcb := if bool_decide (scanType m = "repeat")
             then KRescan (Some m) cb else cb in
  if bool_decide (buttonType button = "menuSelector")
  then KScanTarget button (KAfterTarget button bcb)
  else bcb.

Definition makeButtonCallback (s : Scan) (button : option Button) : M Cont :=
  match button with
  | None => throw                       (* undefined.buttonType *)
  | Some b =>
      match menu s with
      | None => throw                   (* undefined.getInfo() *)
      | Some m => ret (buttonCallback m (cb s) b)
      end
  end.

Definition gazeBegin (s : Scan) : M unit :=
  do v <- getVars s;
  setVars s (set_gazeButton (currentButton v)) ;;;
  do t <- newDate;
  setVars s (set_startTime (Some t)) ;;;
  do h <- setTimeout TSignalLongGaze LONG_GAZE_TIME;
  setVars s (set_longGazeTimeout (Some h)).

Definition pressButton (s : Scan) (button : option Button) : M unit :=
  unregister s ;;;
  do v <- getVars s;
  (if same_button (currentButton v) (gazeButton v)
   then toggle button else ret tt) ;;;
  do bcb <- makeButtonCallback s button;
  match button with
  | None => throw
  | Some b => addFinishedListener b bcb ;;; pressed b
  end.

(** [callCb] is what calling [cb] does; it is tied to [cb s] by [invoke]
    below. *)
Definition gazeEnd (callCb : M unit) (s : Scan) : M unit :=
  do v <- getVars s;
  clearTimeout (longGazeTimeout v) ;;;
  do t <- newDate;
  let elapsed := elapsedSince t (startTime v) in
  if geN elapsed SHORT_GAZE_TIME then
    clearTimeout (timeout v) ;;;
    (if negb (same_button (currentButton v) (gazeButton v))
     then toggle (currentButton v) else ret tt) ;;;
    if ltN elapsed LONG_GAZE_TIME then pressButton s (gazeButton v)
    else (unregister s ;;; callCb)
  else ret tt.

Definition pressStop (s : Scan) : M unit :=
  unregister s ;;;
  do v <- getVars s;
  toggle (currentButton v) ;;;
  clearTimeout (timeout v) ;;;
  idleMode ;;;
  speakSync "stopping.".

Definition step (s : Scan) (button : Button) (buttonIx : option nat)
    (loopIx : nat) : M unit :=
  setVars s (set_currentButton (Some button)) ;;;
  toggle (Some button) ;;;
  announce button ;;;
  do waitTime <- getWaitTime button;
  do h <- setTimeout (TNext s button buttonIx loopIx) waitTime;
  setVars s (set_timeout (Some h)).

(** [loop] calls itself on an empty button, with the loop index one
    higher.  [depth] bounds that recursion; when it runs out the model
    throws, as the source does when the call stack is exhausted.  From a
    loop index of at most [N_LOOPS] a depth of [N_LOOPS] is never used
    up (lemma [loop_depth_enough]). *)
Fixpoint loopFrom (depth : nat) (callCb : M unit) (s : Scan)
    (buttonIx : option nat) (loopIx : nat) : M unit :=
  match menu s with
  | None => throw                                (* undefined.getButtons() *)
  | Some m =>
      let button := buttonIx ≫= (fun i => getButtons m !! i) in
      if isLoopOver loopIx then (unregister s ;;; callCb)
      else match button with
           | None => throw                       (* undefined.isEmpty() *)
           | Some b =>
               do e <- isEmpty b;
               if e then
                 match depth with
                 | O => throw
                 | S d => loopFrom d callCb s (Some 0) (loopIx + 1)
                 end
               else step s b buttonIx loopIx
           end
  end.

Definition loop := loopFrom N_LOOPS.

(** The closure [next] made by [step]. *)
Definition next (callCb : M unit) (s : Scan) (button : Button)
    (buttonIx : option nat) (loopIx : nat) : M unit :=
  toggle (Some button) ;;;
  match menu s with
  | None => throw                                (* undefined.getNButtons() *)
  | Some m => loop callCb s (nextButton m buttonIx) (nextLoop m buttonIx loopIx)
  end.

(** Entering [scanMenu(menu, cb)]: a new invocation, with its own
    variables, all [undefined]. *)
Definition enter (m : option Menu) (k : Cont) : M Scan :=
  do i <- gets nextScan;
  modify (fun w => set_vars (<[i := blank]> (vars w)) (set_nextScan (S i) w)) ;;;
  ret (mkScan i m k).

(** [scanMenu(menu, cb)], with what calling [cb] does as a parameter. *)
Definition scanMenuWith (callCb : M unit) (m : option Menu) (k : Cont) : M unit :=
  do s <- enter m k;
  register s ;;;
  loop callCb s (Some 0) 0.

(** The start of [listen]: everything it does before it returns. *)
Definition listen : M unit :=
  do i <- gets nextListen;
  modify (fun w => set_lvars (<[i := l_blank]> (lvars w)) (set_nextListen (S i) w)) ;;;
  speakSync "listening." ;;;
  listenMode ;;;
  registerListeners (HListen i).

Section Scanner.

(** The registry [my.menu.getMenus()] and the scanner's [mainMenu]. *)
Variable getMenus : string -> option Menu.
Variable mainMenu : option Menu.

(** [getTargetMenu]: the generic button returns [null]; a menu selector
    looks its target up in the registry. *)
Definition getTargetMenu (b : Button) : option Menu :=
  if bool_decide (buttonType b = "menuSelector") then getMenus (target b)
  else None.

Definition selectsDropdownMenu (b : Button) : M bool :=
  if bool_decide (buttonType b = "menuSelector") then
    match getTargetMenu b with
    | Some t => ret (bool_decide (hide t = "dropdown"))
    | None => throw                              (* undefined.getInfo() *)
    end
  else ret false.

(** Calling a callback. *)
Fixpoint invoke (k : Cont) : M unit :=
  match k with
  | KDone c => emitLog (EDone c)
  | KListen => listen
  | KRescan m cb => scanMenuWith (invoke cb) m cb
  | KAfterTarget button bcb =>
      do d <- selectsDropdownMenu button;
      (if d then
         match getTargetMenu button with
         | Some t => slideUp t
         | None => throw
         end
       else ret tt) ;;;
      invoke bcb
  | KScanTarget button k' => scanMenuWith (invoke k') (getTargetMenu button) k'
  end.

Definition scanMenu (m : option Menu) (k : Cont) : M unit :=
  scanMenuWith (invoke k) m k.

Definition scan : M unit := scanMode ;;; scanMenu mainMenu KListen.

(** The three closures of [listen]. *)
Definition l_gazeBegin (i : nat) : M unit :=
  do t <- newDate;
  do h <- setTimeout TSignalLongGaze LONG_GAZE_TIME;
  modify (fun w => set_lvars (<[i := mkListenVars (Some t) (Some h)]> (lvars w)) w).

Definition l_gazeEnd (i : nat) : M unit :=
  do v <- gets (fun w => lvarsOf w i);
  clearTimeout (l_longGazeTimeout v) ;;;
  do t <- newDate;
  if geN (elapsedSince t (l_startTime v)) LONG_GAZE_TIME
  then (unregisterListeners (HListen i) ;;; scan)
  else ret tt.

Definition l_pressStop (i : nat) : M unit :=
  speakSync "stopping." ;;;
  unregisterListeners (HListen i) ;;;
  idleMode.

(** ** Events *)

Definition onBegin (h : Handler) : M unit :=
  match h with HScan s => gazeBegin s | HListen i => l_gazeBegin i end.

Definition onEnd (h : Handler) : M unit :=
  match h with
  | HScan s => gazeEnd (invoke (cb s)) s
  | HListen i => l_gazeEnd i
  end.

Definition onStop (h : Handler) : M unit :=
  match h with HScan s => pressStop s | HListen i => l_pressStop i end.

Definition runTimer (a : TimerAction) : M unit :=
  match a with
  | TSignalLongGaze => signalLongGaze
  | TNext s button buttonIx loopIx => next (invoke (cb s)) s button buttonIx loopIx
  end.

(** [EventEmitter.emit]: the listeners registered when the emit starts are
    called in order; an exception ends the emit. *)
Fixpoint callAll (cs : list (M unit)) : M unit :=
  match cs with
  | [] => ret tt
  | c :: r => c ;;; callAll r
  end.

Definition emitBegin : M unit := do hs <- gets beginL; callAll (map onBegin hs).
Definition emitEnd : M unit := do hs <- gets endL; callAll (map onEnd hs).

(** What the event loop does with a task: run it, report an uncaught
    exception, go on. *)
Definition task (c : M unit) (w : World) : World :=
  match c w with
  | (w', Some _) => w'
  | (w', None) => set_log (log w' ++ [EUncaught]) w'
  end.

(** A click on the stop button: each listener present when the dispatch
    starts is called unless it was removed meanwhile; an exception in one
    is reported and does not stop the others. *)
Fixpoint dispatchStop (hs : list Handler) (w : World) : World :=
  match hs with
  | [] => w
  | h :: r =>
      if existsb (same_fn h) (stopL w) then dispatchStop r (task (onStop h) w)
      else dispatchStop r w
  end.

(** The button's emitter emits "buttonFinished": each once-listener of the
    button removes itself, then runs. *)
Fixpoint removeFinished (b : nat) (l : list (nat * Cont)) : list (nat * Cont) :=
  match l with
  | [] => []
  | x :: r => if Nat.eqb (fst x) b then r else x :: removeFinished b r
  end.

Definition onceFinished (b : nat) (k : Cont) : M unit :=
  modify (fun w => set_finishedL (removeFinished b (finishedL w)) w) ;;;
  invoke k.

Definition emitFinished (b : nat) : M unit :=
  do l <- gets finishedL;
  callAll (map (fun x => onceFinished b (snd x))
               (filter (fun x => fst x = b) l)).

Inductive Event :=
| GestureBegin                          (* the detector emits "gestureBegin" *)
| GestureEnd                            (* the detector emits "gestureEnd" *)
| StopClick                             (* the stop button is clicked *)
| Fire (tid : nat)                      (* the runtime runs a timer that is due *)
| Wait (dt : Z)                         (* dt ms pass *)
| ButtonFinished (b : nat)              (* button b emits "buttonFinished" *)
| SetButtonValue (b : nat) (v : string). (* the text of button b is rewritten *)

Definition handle (e : Event) (w : World) : World :=
  match e with
  | GestureBegin => task emitBegin w
  | GestureEnd => task emitEnd w
  | StopClick => dispatchStop (stopL w) w
  | Fire tid =>
      match timers w !! tid with
      | Some (due, a) =>
          if (due <=? now w)%Z
          then task (runTimer a) (set_timers (cleared (Some tid) (timers w)) w)
          else w
      | None => w
      end
  | Wait dt => set_now (now w + Z.max 0 dt)%Z w
  | ButtonFinished b => task (emitFinished b) w
  | SetButtonValue b v =>
      set_value (fun i => if Nat.eqb i b then v else value w i) w
  end.

Definition run (es : list Event) (w : World) : World :=
  foldl (fun w e => handle e w) w es.

End Scanner.

(** ** Vocabulary of the statements *)

(** The three listeners of invocation [s] are the only ones registered. *)
Definition live (s : Scan) (w : World) : Prop :=
  beginL w = [HScan s] ∧ endL w = [HScan s] ∧ stopL w = [HScan s].

(** No listener is registered with the detector or the stop button. *)
Definition unregistered (w : World) : Prop :=
  beginL w = [] ∧ endL w = [] ∧ stopL w = [].

(** The three listeners of invocation [i] of [listen] are the only ones
    registered. *)
Definition listening (i : nat) (w : World) : Prop :=
  beginL w = [HListen i] ∧ endL w = [HListen i] ∧ stopL w = [HListen i].

(** No [gazeBegin] has run in the invocation: the three variables it
    assigns are still [undefined]. *)
Definition noGazeYet (v : Vars) : Prop :=
  gazeButton v = None ∧ startTime v = None ∧ longGazeTimeout v = None.

(** The buttons that [pressed] was called on, in order. *)
Definition pressedIn (l : list Effect) : list nat :=
  omap (fun e => match e with EPressed b => Some b | _ => None end) l.

(** The callbacks supplied from outside that were called, in order. *)
Definition doneIn (l : list Effect) : list nat :=
  omap (fun e => match e with EDone c => Some c | _ => None end) l.

(** The buttons that were announced, in order. *)
Definition announcedIn (l : list Effect) : list nat :=
  omap (fun e => match e with EAnnounce b => Some b | _ => None end) l.

(** A computation keeps a property of the world, whether it returns or
    throws. *)
Definition stable (P : World -> Prop) {A} (c : M A) : Prop :=
  forall w, P w -> P (exec c w).

(** Properties that every procedure of the scanner keeps, provided a few
    elementary state changes keep them. *)
Class Frame (P : World -> Prop) : Prop := {
  fr_log : forall x w, P w -> P (set_log x w);
  fr_now : forall x w, P w -> P (set_now x w);
  fr_value : forall x w, P w -> P (set_value x w);
  fr_finishedL : forall x w, P w -> P (set_finishedL x w);
  fr_unregister : forall h, stable P (unregisterListeners h);
  fr_open : forall m k, stable P (do s <- enter m k; register s);
  fr_listen : stable P listen;
  fr_current : forall s b, stable P (setVars s (set_currentButton (Some b)));
  fr_arm : forall s b ix l d,
    stable P (do h <- setTimeout (TNext s b ix l) d;
              setVars s (set_timeout (Some h)));
  fr_disarm : forall w0 i, P w0 ->
    stable P (clearTimeout (timeout (varsOf w0 i)))
}.

(** Properties that the gesture-begin handlers keep as well. *)
Class BeginOK (P : World -> Prop) : Prop := {
  bg_gaze : forall s x, stable P (setVars s (set_gazeButton x));
  bg_start : forall s x, stable P (setVars s (set_startTime x));
  bg_arm : forall s,
    stable P (do h <- setTimeout TSignalLongGaze LONG_GAZE_TIME;
              setVars s (set_longGazeTimeout (Some h)));
  bg_larm : forall i t,
    stable P (do h <- setTimeout TSignalLongGaze LONG_GAZE_TIME;
              modify (fun w => set_lvars (<[i := mkListenVars (Some t) (Some h)]> (lvars w)) w))
}.

(** Properties that the gesture-end handlers keep as well. *)
Class EndOK (P : World -> Prop) : Prop := {
  en_disarm : forall w0 i, P w0 ->
    stable P (clearTimeout (longGazeTimeout (varsOf w0 i)));
  en_ldisarm : forall w0 i, P w0 ->
    stable P (clearTimeout (l_longGazeTimeout (lvarsOf w0 i)))
}.

(** Well-formed worlds: timer handles are numbers already handed out, the
    handle in [timeout] never names a long-gaze warning, the handle in
    [longGazeTimeout] never names a step timer, and registered listeners
    belong to invocations already entered. *)
Record WF (w : World) : Prop := {
  wf_timers : forall tid x, timers w !! tid = Some x -> tid < nextTimer w;
  wf_timeout : forall i h, timeout (varsOf w i) = Some h ->
    h < nextTimer w /\
    forall due a, timers w !! h = Some (due, a) -> a <> TSignalLongGaze;
  wf_long : forall i h, longGazeTimeout (varsOf w i) = Some h ->
    h < nextTimer w /\
    forall due a, timers w !! h = Some (due, a) -> a = TSignalLongGaze;
  wf_llong : forall i h, l_longGazeTimeout (lvarsOf w i) = Some h ->
    h < nextTimer w /\
    forall due a, timers w !! h = Some (due, a) -> a = TSignalLongGaze;
  wf_scans : forall s, HScan s ∈ beginL w ++ endL w ++ stopL w ->
    sid s < nextScan w
}.

(** Timer [id] is pending with content [x] and no variable that
    [clearTimeout] is ever applied to holds [id], except possibly
    [longGazeTimeout] of invocation [ex]. *)
Record Keep (id : nat) (x : Z * TimerAction) (ex : option nat) (w : World) : Prop := {
  kp_timer : timers w !! id = Some x;
  kp_old : id < nextTimer w;
  kp_timeout : forall i, timeout (varsOf w i) <> Some id;
  kp_long : forall i, longGazeTimeout (varsOf w i) = Some id -> ex = Some i;
  kp_llong : forall i, l_longGazeTimeout (lvarsOf w i) <> Some id
}.

(** Invocation [i] was entered, the button and the time its [gazeBegin]
    recorded are [g] and [t], and it has a current button if [g] is
    one. *)
Record GazeKept (i : nat) (g : option Button) (t : option Z) (w : World) : Prop := {
  gk_old : i < nextScan w;
  gk_current : is_Some g -> is_Some (currentButton (varsOf w i));
  gk_button : gazeButton (varsOf w i) = g;
  gk_start : startTime (varsOf w i) = t
}.

(** Hoare triples for the monad: from a world satisfying [P], the
    computation either returns [a] in a world satisfying [R a] or throws
    in a world satisfying [E]. *)
Definition triple {A} (P : World -> Prop) (c : M A)
    (R : A -> World -> Prop) (E : World -> Prop) : Prop :=
  forall w, P w ->
    match c w with
    | (w', Some a) => R a w'
    | (w', None) => E w'
    end.

(** Every pending step timer (a timer holding a [next] closure) belongs to
    invocation [tm], is the one named by its [timeout], and the invocation
    has a current button; with [tm = None], no step timer is pending. *)
Definition timersOK (tm : option Scan) (w : World) : Prop :=
  forall tid due a, timers w !! tid = Some (due, a) -> a <> TSignalLongGaze ->
    match tm with
    | None => False
    | Some s =>
        (exists b ix l, a = TNext s b ix l) /\
        timeout (varsOf w (sid s)) = Some tid /\
        is_Some (currentButton (varsOf w (sid s)))
    end.

(** The shape of a world between two steps of a handler: the three
    listener tables hold exactly [reg], [fin] finished-listeners are
    waiting, no table ever held more than one listener, the step timers
    are those of [tm], and the outside callbacks called so far are [d]. *)
Record St (reg : option Handler) (fin : nat) (tm : option Scan)
    (d : list nat) (w : World) : Prop := {
  st_begin : beginL w = option_list reg;
  st_end : endL w = option_list reg;
  st_stop : stopL w = option_list reg;
  st_finished : length (finishedL w) = fin;
  st_peak : peak w <= 1;
  st_timers : timersOK tm w;
  st_done : doneIn (log w) = d
}.

(** The worlds the scanner is in between two events: an invocation of
    [scanMenu] is scanning, or [listen] is listening, or nothing is
    going on, or a pressed button has yet to finish. *)
Definition Inv (w : World) : Prop :=
  exists d,
    (exists s, St (Some (HScan s)) 0 (Some s) d w) \/
    (exists i, St (Some (HListen i)) 0 None d w) \/
    St None 0 None d w \/
    St None 1 None d w.

(** What a handler leaves behind when started with [d] as the outside
    callbacks called so far: a world of [Inv] in which either no further
    outside callback was called or no listener is registered. *)
Definition Post (d : list nat) (w : World) : Prop :=
  Inv w /\ (doneIn (log w) = d \/ unregistered w).


(** ** A scan that nobody interrupts *)

(** The buttons of a menu before its first empty one. *)
Fixpoint leading (val : nat -> string) (bs : list Button) : list Button :=
  match bs with
  | [] => []
  | b :: r => if bool_decide (val (bid b) = "") then [] else b :: leading val r
  end.

(** What a visit of a button without any input logs: highlight, announce,
    and un-highlight when the wait is over. *)
Definition visitLog (b : Button) : list Effect :=
  [EToggle (bid b); EAnnounce (bid b); EToggle (bid b)].

(** The pending timer the runtime runs next: the one due first, the
    older one if two are due together. *)
Definition sooner (x y : nat * (Z * TimerAction)) : bool :=
  (fst (snd x) <? fst (snd y))%Z ||
  ((fst (snd x) =? fst (snd y))%Z && Nat.ltb (fst x) (fst y)).

Definition nextTimerToRun (w : World) : option (nat * (Z * TimerAction)) :=
  foldr (fun x acc =>
           match acc with
           | None => Some x
           | Some y => if sooner x y then Some x else Some y
           end)
        None (map_to_list (timers w)).

(** ** A small commboard to try things on *)

Definition demoA : Button := mkButton 1 "letter" 1 "".
Definition demoGap : Button := mkButton 2 "letter" 1 "".
Definition demoB : Button := mkButton 3 "letter" 1 "".
Definition demoSelector : Button := mkButton 4 "menuSelector" 1 "sub".

(** Buttons 1, 3 and 4 show a text; button 2 is empty. *)
Definition demoValue (i : nat) : string := if Nat.eqb i 2 then "" else "X".

Definition demoMenu : Menu := mkMenu "main" [demoA; demoB] "commboard" "finish".
Definition gapMenu : Menu := mkMenu "gap" [demoA; demoGap; demoB] "commboard" "finish".
Definition noButtons : Menu := mkMenu "none" [] "commboard" "finish".
Definition tailMenu : Menu :=
  mkMenu "tail" [demoA; demoB; demoGap; demoSelector] "commboard" "finish".
Definition subMenu : Menu := mkMenu "sub" [demoB] "dropdown" "finish".

Definition demoMenus (name : string) : option Menu :=
  if String.eqb name "sub" then Some subMenu else None.

(** Nothing has happened yet; the scan speed is one second. *)
Definition demoWorld : World := initial 1000 demoValue.

(** [scanMenu(demoMenu, cb)] was called, with a callback from outside. *)
Definition demoScan : Scan := mkScan 0 (Some demoMenu) (KDone 7).
Definition demoScanning : World :=
  exec (scanMenu demoMenus (Some demoMenu) (KDone 7)) demoWorld.

(** The start button was clicked. *)
Definition demoListening : World := exec listen demoWorld.

(** Which events a statement lets happen: gesture begins when [begins],
    gesture ends when [ends], and the run of every timer but the
    [spared] ones. *)
Definition allowed (begins ends : bool) (spared : nat -> Prop) (e : Event) : Prop :=
  match e with
  | GestureBegin => begins = true
  | GestureEnd => ends = true
  | Fire tid => ~ spared tid
  | _ => True
  end.

(** With no input from anybody, the next thing that happens is that time
    passes until the next pending timer is due, and that timer runs. *)
Definition idleStep (getMenus : string -> option Menu) (mainMenu : option Menu)
    (w : World) : World :=
  match nextTimerToRun w with
  | Some (tid, (due, _)) =>
      handle getMenus mainMenu (Fire tid)
        (handle getMenus mainMenu (Wait (due - now w)) w)
  | None => w
  end.

Fixpoint idle (getMenus : string -> option Menu) (mainMenu : option Menu)
    (n : nat) (w : World) : World :=
  match n with
  | O => w
  | S n' => idle getMenus mainMenu n' (idleStep getMenus mainMenu w)
  end.

(** ** [util.js] *)

Module Util.

(** [repeat(x, n)]: an array of [n] copies of [x]. *)
Definition repeat {A} (x : A) (n : nat) : list A := replicate n x.

(** [pad(xs, fillVal, len)]. *)
Definition pad {A} (xs : list A) (fillVal : A) (len : nat) : list A :=
  if bool_decide (len <= length xs) then take len xs
  else
    let nMissing := len - length xs in
    let padding := repeat fillVal nMissing in
    xs ++ padding.

(** [all(xs)], on an array of booleans. *)
Definition all (xs : list bool) : bool := forallb (fun x => x) xs.

(** [capitalize(text)], on a string given as the list of its characters;
    [toUpperCase] is the method of that name, applied to [text[0]].  For
    the empty string [text[0]] is [undefined] and the call of its method
    throws ([None]). *)
Definition capitalize (toUpperCase : list ascii -> list ascii)
    (text : list ascii) : option (list ascii) :=
  match text with
  | [] => None
  | c :: rest => Some (toUpperCase [c] ++ rest)
  end.

(** [renameKeys(obj, keys)]; reading a key that is not there gives
    [undefined]. *)
Definition renameKeys {V} (undefined : V) (obj : gmap string V)
    (keys : list (string * string)) : gmap string V :=
  foldl (fun o pair =>
           let oldKey := fst pair in
           let newKey := snd pair in
           delete oldKey (<[newKey := default undefined (o !! oldKey)]> o))
        obj keys.

End Util.

(** ** The menus that fill their buttons: [menus.js] *)

Module Menus.

Definition N_GUESSES : nat := 8.
Definition N_RECIPIENTS : nat := 8.

(** [button.setButtonValue(value)]. *)
Definition setButtonValue (b : Button) (v : string) : M unit :=
  modify (fun w => set_value (fun i => if Nat.eqb i (bid b) then v else value w i) w).

(** [_.zip(xs, ys)]: the shorter array is filled up with [undefined]. *)
Fixpoint zip {A B} (xs : list A) (ys : list B) : list (option A * option B) :=
  match xs with
  | [] => map (fun y => (None, Some y)) ys
  | x :: xr =>
      match ys with
      | [] => (Some x, None) :: map (fun x' => (Some x', None)) xr
      | y :: yr => (Some x, Some y) :: zip xr yr
      end
  end.

(** [xs.forEach(f)]. *)
Fixpoint forEach {A} (f : A -> M unit) (xs : list A) : M unit :=
  match xs with
  | [] => ret tt
  | x :: r => f x ;;; forEach f r
  end.

(** The [callback] of the guess menu's [update]: every button is given
    its guess.  A guess without a button throws; a button without a guess
    is given [undefined], which the DOM stores as a string. *)
Definition callback (buttons : list Button) (guesses : list string) : M unit :=
  forEach (fun pair =>
             match fst pair with
             | None => throw
             | Some button =>
                 setButtonValue button
                   (match snd pair with Some guess => guess | None => "undefined" end)
             end)
          (zip buttons guesses).

(** The [success] callback of [guessWord], on the words of
    [data.searchResults]. *)
Definition success (buttons : list Button) (searchResults : list string) : M unit :=
  let guesses := drop 1 searchResults in
  let padded := Util.pad guesses "" N_GUESSES in
  callback buttons padded.

(** [guessWord] when there is no text or the language is not English. *)
Definition noGuesses (buttons : list Button) : M unit :=
  callback buttons (Util.repeat "" N_GUESSES).

(** [clear] of the guess menu. *)
Definition clear (buttons : list Button) : M unit :=
  forEach (fun button => setButtonValue button "") buttons.

(** [addRecipient] of the email menu, with the recipient's name read from
    the settings; [buttonIx] is [my.buttonIx], and the result is its new
    value.  (The address is kept by the button and plays no part in the
    scan.) *)
Definition addRecipient (buttons : list Button) (name : string)
    (buttonIx : nat) : M nat :=
  match buttons !! buttonIx with
  | None => throw                                   (* undefined.setRecipient *)
  | Some button =>
      setButtonValue button name ;;;
      ret ((buttonIx + 1) mod N_RECIPIENTS)
  end.

(** One [addRecipient] for each name, in order. *)
Fixpoint addRecipients (buttons : list Button) (names : list string)
    (buttonIx : nat) : M nat :=
  match names with
  | [] => ret buttonIx
  | name :: r =>
      do ix <- addRecipient buttons name buttonIx;
      addRecipients buttons r ix
  end.

End Menus.

(** ** The text buffer: [buffer.js] *)

Module Buffer.

(** A JavaScript string, as the list of its characters. *)
Definition Text := list ascii.

Definition CURSOR : Text := ["_"%char].

(** The variables of the closure that change: [bufferText], the text
    shown by the DOM element ([textElem.textContent]), and the number of
    "bufferChange" events emitted so far. *)
Record State := mkState {
  bufferText : Text;
  textContent : Text;
  changes : nat
}.

(** The buffer when the constructor returns: the cursor alone, shown. *)
Definition initial : State := mkState CURSOR CURSOR 0.

(** [s.slice(0, -1)]: all but the last character. *)
Definition slice_0_m1 (s : Text) : Text := take (length s - 1) s.

(** [s.slice(-n)]: the last [n] characters, or all of [s] if it has
    fewer. *)
Definition slice_m (n : nat) (s : Text) : Text := drop (length s - n) s.

(** *** Elementary buffer operations *)

Definition getText (s : State) : Text := slice_0_m1 (bufferText s).

Definition emitChange (s : State) : State :=
  mkState (bufferText s) (textContent s) (S (changes s)).

Definition update (s : State) : State :=
  mkState (bufferText s) (bufferText s) (changes s).

Definition push (str : Text) (s : State) : State :=
  update (mkState (bufferText s ++ str) (textContent s) (changes s)).

Definition pop (s : State) : State :=
  update (mkState (slice_0_m1 (bufferText s)) (textContent s) (changes s)).

(** [char.match(/[.!?]/) !== null]: some character of the string is a
    full stop, an exclamation mark or a question mark. *)
Definition isTerminalPunctuation (char : Text) : bool :=
  existsb (fun c => bool_decide (c = "."%char \/ c = "!"%char \/ c = "?"%char)) char.

Definition isBufferWordStart (s : State) : bool :=
  bool_decide (getText s = []) ||
  bool_decide (slice_m 1 (getText s) = [" "%char]).

Definition isBufferSentenceStart (s : State) : bool :=
  let text := getText s in
  bool_decide (text = []) ||
  (bool_decide (slice_m 1 text = [" "%char]) &&
   isTerminalPunctuation (slice_m 2 text)).

(** *** Buffer writers

    A writer returns the new state and whether it returned normally;
    what it did before it threw stays done. *)

Definition writeText (text : Text) (s : State) : State :=
  push CURSOR (push text (pop s)).

Definition writeSpace (s : State) : State := writeText [" "%char] s.

Section Writers.

(** [String.prototype.toUpperCase]. *)
Variable toUpperCase : Text -> Text.

Definition writeLetter (text : Text) (s : State) : State * option unit :=
  match (if isBufferSentenceStart s then Util.capitalize toUpperCase text
         else Some text) with
  | Some toWrite => (writeText toWrite s, Some tt)
  | None => (s, None)
  end.

(** [while (!isBufferWordStart()) pop();] with a bound on the number of
    rounds; the length of [bufferText] is bound enough (lemma
    [clearPartialWord_stops]). *)
Fixpoint clearPartialWord (rounds : nat) (s : State) : State :=
  if isBufferWordStart s then s
  else match rounds with
       | O => s
       | S n => clearPartialWord n (pop s)
       end.

Definition writeWord (text : Text) (s : State) : State * option unit :=
  let s1 := clearPartialWord (length (bufferText s)) s in
  match (if isBufferSentenceStart s1 then Util.capitalize toUpperCase text
         else Some text) with
  | Some toWrite => (writeSpace (writeText toWrite s1), Some tt)
  | None => (s1, None)
  end.

Definition writeTerminalPunctuation (text : Text) (s : State) : State :=
  let s1 := if isBufferWordStart s && negb (isBufferSentenceStart s)
            then pop s else s in
  writeSpace (writeText text s1).

(** The table [writers]. *)
Definition writers (type : string) : option (Text -> State -> State * option unit) :=
  if String.eqb type "letter" then Some writeLetter
  else if String.eqb type "space" then Some (fun _ s => (writeSpace s, Some tt))
  else if String.eqb type "word" then Some writeWord
  else if String.eqb type "nonTerminalPunctuation"
       then Some (fun text s => (writeText text s, Some tt))
  else if String.eqb type "terminalPunctuation"
       then Some (fun text s => (writeTerminalPunctuation text s, Some tt))
  else None.

(** [that.write(text, type)]; calling a writer that is not in the table
    throws. *)
Definition write (text : Text) (type : string) (s : State) : State * option unit :=
  match writers type with
  | None => (s, None)
  | Some writer =>
      match writer text s with
      | (s', Some _) => (emitChange s', Some tt)
      | (s', None) => (s', None)
      end
  end.

End Writers.

(** *** Buffer actions, as far as they change the buffer *)

Definition deleteText (s : State) : State :=
  emitChange (push CURSOR (pop (pop s))).

Definition clearBuffer (s : State) : State :=
  emitChange (update (mkState CURSOR (textContent s) (changes s))).

(** [readBuffer] beeps and sets a timer; the buffer stays as it is. *)
Definition readBuffer (s : State) : State := s.

(** [that.executeAction(actionName, cb)]. *)
Definition executeAction (actionName : string) (s : State) : State * option unit :=
  if String.eqb actionName "delete" then (deleteText s, Some tt)
  else if String.eqb actionName "read" then (readBuffer s, Some tt)
  else if String.eqb actionName "clear" then (clearBuffer s, Some tt)
  else (s, None).

(** What the user sees is the buffer, and the buffer ends with the
    cursor. *)
Definition shown (s : State) : Prop :=
  textContent s = bufferText s /\ bufferText s = getText s ++ CURSOR.

End Buffer.

(** ** The detector: [detector.js] *)

Module Detector.

(** An [ImageData] object: [data] holds four numbers for each pixel, red,
    green, blue and alpha. *)
Record ImageData := mkImageData {
  width : nat;
  height : nat;
  data : list Z
}.

(** A JavaScript number that may be [NaN] ([None]). *)
Definition Num := option Z.

(** [Math.abs(x1[i] - x2[i])]; an index outside the array reads
    [undefined] and the result is [NaN]. *)
Definition absDiff (a b : option Z) : Num :=
  match a, b with
  | Some x, Some y => Some (Z.abs (x - y))
  | _, _ => None
  end.

(** [distance += d]. *)
Definition plus (distance d : Num) : Num :=
  match distance, d with
  | Some x, Some y => Some (x + y)%Z
  | _, _ => None
  end.

(** [checkDimensions(img1, img2)]; [None] when it throws. *)
Definition checkDimensions (img1 img2 : ImageData) : option (nat * nat) :=
  let matchWidth := Nat.eqb (width img1) (width img2) in
  let matchHeight := Nat.eqb (height img1) (height img2) in
  if matchWidth && matchHeight then Some (width img1, height img1)
  else None.

(** The body of the [for] loop of [l1Distance] at index [i]. *)
Definition l1Step (x1 x2 : list Z) (distance : Num) (i : nat) : Num :=
  if Nat.eqb (i mod 4) 3 then distance
  else plus distance (absDiff (x1 !! i) (x2 !! i)).

(** [l1Distance(img1, img2)]; [None] when [checkDimensions] throws. *)
Definition l1Distance (img1 img2 : ImageData) : option Num :=
  match checkDimensions img1 img2 with
  | None => None
  | Some (width, height) =>
      let x1 := data img1 in
      let x2 := data img2 in
      let ixMax := width * height * 4 in
      Some (foldl (l1Step x1 x2) (Some 0%Z) (seq 0 ixMax))
  end.






(** *** Status and modes *)

Inductive Status := idle | listening | scanning.

Definition className (s : Status) : string :=
  match s with
  | idle => "idle"
  | listening => "listening"
  | scanning => "scanning"
  end.

(** [my.statusMap[status][language]]: there is an entry for English and
    one for French. *)
Definition statusMap (s : Status) (language : string) : option string :=
  if String.eqb language "en" then Some (className s)
  else if String.eqb language "fr"
       then Some (match s with
                  | idle => "repos"
                  | listening => "écoute"
                  | scanning => "balayage"
                  end)
  else None.

(** The variables of a gaze detector that the modes change: [my.status]
    ([None] is [null]), the class list of the status element,
    [my.interval] ([None] is [null]), the interval timers that are
    running, each with its period in ms, and the next timer handle. *)
Record State := mkState {
  status : option Status;
  classList : gset string;
  interval : option nat;
  running : gmap nat Z;
  nextInterval : nat
}.

(** [classList.toggle(name)]. *)
Definition toggleClass (name : string) (classes : gset string) : gset string :=
  if decide (name ∈ classes) then classes ∖ {[name]} else classes ∪ {[name]}.

(** [my.setStatus(newStatus)].  [setStatusText] throws when the status
    map has no text for the language ([capitalize] of [undefined]); the
    status is assigned by then, the classes are not yet toggled.  The old
    status is never [undefined], so its class is toggled even when it is
    [null], which as a class name reads "null". *)
Definition setStatus (language : string) (newStatus : Status) (s : State)
    : State * option unit :=
  let oldStatus := status s in
  let s1 := mkState (Some newStatus) (classList s) (interval s) (running s)
                    (nextInterval s) in
  match statusMap newStatus language with
  | None => (s1, None)
  | Some _ =>
      let oldName := match oldStatus with
                     | Some o => className o
                     | None => "null"
                     end in
      (mkState (Some newStatus)
               (toggleClass (className newStatus) (toggleClass oldName (classList s)))
               (interval s) (running s) (nextInterval s),
       Some tt)
  end.

Definition REFRESH_RATE_LISTEN : Z := 5.
Definition REFRESH_RATE_SCAN : Z := 20.

(** [window.clearInterval(my.interval)]. *)
Definition clearInterval (s : State) : State :=
  mkState (status s) (classList s) (interval s)
          (match interval s with
           | Some h => delete h (running s)
           | None => running s
           end)
          (nextInterval s).

(** [my.interval = window.setInterval(my.detect, period)]. *)
Definition setInterval (period : Z) (s : State) : State :=
  mkState (status s) (classList s) (Some (nextInterval s))
          (<[nextInterval s := period]> (running s)) (S (nextInterval s)).

(** The three modes of the gaze detector: the mode of the generic
    detector first, then the interval timer. *)
Definition idleMode (language : string) (s : State) : State * option unit :=
  match setStatus language idle s with
  | (s', Some _) => (clearInterval s', Some tt)
  | (s', None) => (s', None)
  end.

Definition listenMode (language : string) (s : State) : State * option unit :=
  match setStatus language listening s with
  | (s', Some _) =>
      (setInterval (1000 / REFRESH_RATE_LISTEN) (clearInterval s'), Some tt)
  | (s', None) => (s', None)
  end.

Definition scanMode (language : string) (s : State) : State * option unit :=
  match setStatus language scanning s with
  | (s', Some _) =>
      (setInterval (1000 / REFRESH_RATE_SCAN) (clearInterval s'), Some tt)
  | (s', None) => (s', None)
  end.

(** A gaze detector when its constructor returns: [makeGenericDetector]
    has called [idleMode] of the generic detector on a status of [null];
    [classes] is the class list that the page gives the status
    element. *)
Definition constructed (language : string) (classes : gset string)
    : State * option unit :=
  setStatus language idle (mkState None classes None ∅ 0).

(** A call of one of the three modes, by the status it sets. *)
Definition mode (language : string) (m : Status) : State -> State * option unit :=
  match m with
  | idle => idleMode language
  | listening => listenMode language
  | scanning => scanMode language
  end.

(** The mode calls of a run, one after the other (one that throws is
    reported and the next is made all the same). *)
Definition modes (language : string) (ms : list Status) (s : State) : State :=
  foldl (fun s m => fst (mode language m s)) s ms.

(** The page gives the status element none of the classes that
    [setStatus] toggles. *)
Definition fresh_classes (classes : gset string) : Prop :=
  forall name, name ∈ ["null"; "idle"; "listening"; "scanning"] -> name ∉ classes.

(** What holds of a gaze detector between two calls of its modes, on a
    page that gives the status element the classes [classes]: the
    element has, beside those and the class "null", the class of the
    status and of no other status; the handles of the running interval
    timers were handed out; and at most one interval timer runs, the one
    in [my.interval], with a period of 200 ms when listening and of 50 ms
    when scanning, and none when idle. *)
Definition settled (classes : gset string) (st : Status) (s : State) : Prop :=
  status s = Some st /\
  classList s = classes ∪ {["null"]} ∪ {[className st]} /\
  (forall h, is_Some (running s !! h) -> h < nextInterval s) /\
  match st with
  | idle => running s = ∅
  | listening => exists h, interval s = Some h /\ running s = {[h := 200%Z]}
  | scanning => exists h, interval s = Some h /\ running s = {[h := 50%Z]}
  end.

End Detector.

(** A guess menu and an email menu, of eight buttons each. *)
Definition guessButtons : list Button :=
  map (fun i => mkButton i "guess" 1 "") [10; 11; 12; 13; 14; 15; 16; 17].
Definition guessMenu : Menu := mkMenu "guess" guessButtons "commboard" "finish".
Definition emailButtons : list Button :=
  map (fun i => mkButton i "email" 2 "") [20; 21; 22; 23; 24; 25; 26; 27].

(** Nothing has happened yet and every button is empty. *)
Definition emptyBoard : World := initial 1000 (fun _ => "").

(** An upper case for the letters a to z, and a buffer in which the word
    "th" is being typed after "hi ". *)
Definition demoUpperCase (t : Buffer.Text) : Buffer.Text :=
  map (fun c => let n := nat_of_ascii c in
                if Nat.leb 97 n && Nat.leb n 122 then ascii_of_nat (n - 32) else c) t.
Definition demoBuffer : Buffer.State :=
  Buffer.mkState (String.list_ascii_of_string "hi th_") (String.list_ascii_of_string "hi th_") 0.

(** * Properties *)

Arguments varsOf : simpl never.
Arguments lvarsOf : simpl never.
Arguments SHORT_GAZE_TIME : simpl never.
Arguments LONG_GAZE_TIME : simpl never.
Arguments BEEP_FREQ : simpl never.
Arguments BEEP_DURATION : simpl never.
Arguments cleared : simpl never.

Ltac mrun :=
  unfold newDate, getVars, setVars, clearTimeout, emitLog, toggle, announce,
    pressed, addFinishedListener, slideUp, beep, speakSync, idleMode,
    listenMode, scanMode, getWaitTime, isEmpty in *;
  unfold bind, ret, throw, gets, modify in *; simpl in *.

(** ** Composing stable computations *)

Section Stable.
Context (P : World -> Prop).

Lemma stable_ret {A} (a : A) : stable P (ret a).
Proof. intros w H. exact H. Qed.

Lemma stable_throw {A} : stable P (@throw A).
Proof. intros w H. exact H. Qed.

Lemma stable_gets {A} (f : World -> A) : stable P (gets f).
Proof. intros w H. exact H. Qed.

Lemma stable_bind {A B} (c : M A) (k : A -> M B) :
  stable P c -> (forall a, stable P (k a)) -> stable P (bind c k).
Proof.
  intros Hc Hk w H. unfold exec, bind. specialize (Hc w H). unfold exec in Hc.
  destruct (c w) as [w' [a|]]; simpl in *; [apply Hk; exact Hc | exact Hc].
Qed.

(** What was read from a world that had the property may be used by the
    rest of the computation. *)
Lemma stable_bind_gets {A B} (f : World -> A) (k : A -> M B) :
  (forall w0, P w0 -> stable P (k (f w0))) -> stable P (bind (gets f) k).
Proof. intros Hk w H. unfold exec, bind, gets. apply (Hk w H w H). Qed.

Lemma stable_if {A} (b : bool) (c1 c2 : M A) :
  stable P c1 -> stable P c2 -> stable P (if b then c1 else c2).
Proof. destruct b; auto. Qed.

Context `{!Frame P}.

Lemma stable_emitLog e : stable P (emitLog e).
Proof. intros w H. apply fr_log, H. Qed.

Lemma stable_toggle ob : stable P (toggle ob).
Proof. destruct ob; [apply stable_emitLog | apply stable_throw]. Qed.

Lemma stable_addFinishedListener b k : stable P (addFinishedListener b k).
Proof. intros w H. apply fr_finishedL, H. Qed.

Lemma stable_makeButtonCallback s ob : stable P (makeButtonCallback s ob).
Proof.
  unfold makeButtonCallback. destruct ob; [|apply stable_throw].
  destruct (menu s); [apply stable_ret | apply stable_throw].
Qed.

Lemma stable_step s b ix l : stable P (step s b ix l).
Proof.
  unfold step. apply stable_bind; [apply fr_current | intros _].
  apply stable_bind; [apply stable_toggle | intros _].
  apply stable_bind; [apply stable_emitLog | intros _].
  apply stable_bind; [apply stable_gets | intros d]. apply fr_arm.
Qed.

Lemma stable_loopFrom callCb : stable P callCb ->
  forall d s ix l, stable P (loopFrom d callCb s ix l).
Proof.
  intros Hcb. induction d as [|d IH]; intros s ix l; simpl;
    (destruct (menu s) as [m|]; [|apply stable_throw]);
    (destruct (isLoopOver l);
      [apply stable_bind; [apply fr_unregister | intros _; exact Hcb]|]);
    (destruct (ix ≫= _) as [b|]; [|apply stable_throw]);
    (apply stable_bind; [apply stable_gets | intros e]);
    (destruct e; [|apply stable_step]).
  - apply stable_throw.
  - apply IH.
Qed.

Lemma stable_next callCb s b ix l :
  stable P callCb -> stable P (next callCb s b ix l).
Proof.
  intros Hcb. unfold next. apply stable_bind; [apply stable_toggle | intros _].
  destruct (menu s); [apply stable_loopFrom, Hcb | apply stable_throw].
Qed.

Lemma scanMenuWith_open callCb m k w :
  scanMenuWith callCb m k w =
  bind (do s <- enter m k; register s ;;; ret s)
       (fun s => loop callCb s (Some 0) 0) w.
Proof. reflexivity. Qed.

Lemma stable_scanMenuWith callCb m k :
  stable P callCb -> stable P (scanMenuWith callCb m k).
Proof.
  intros Hcb w H. unfold exec. rewrite scanMenuWith_open.
  pose proof (fr_open m k w H) as Ho. revert Ho. unfold exec, bind at 1 3.
  unfold enter, register, registerListeners, notePeak. mrun.
  intros Ho. apply (stable_loopFrom _ Hcb), Ho.
Qed.

Lemma stable_pressButton s ob : stable P (pressButton s ob).
Proof.
  unfold pressButton. apply stable_bind; [apply fr_unregister | intros _].
  apply stable_bind; [apply stable_gets | intros v].
  apply stable_bind; [apply stable_if; [apply stable_toggle | apply stable_ret] | intros _].
  apply stable_bind; [apply stable_makeButtonCallback | intros bcb].
  destruct ob; [|apply stable_throw].
  apply stable_bind; [apply stable_addFinishedListener | intros _; apply stable_emitLog].
Qed.

Lemma stable_pressStop s : stable P (pressStop s).
Proof.
  unfold pressStop. apply stable_bind; [apply fr_unregister | intros _].
  apply stable_bind_gets. intros w0 H0.
  apply stable_bind; [apply stable_toggle | intros _].
  apply stable_bind; [apply (fr_disarm w0), H0 | intros _].
  apply stable_bind; [apply stable_emitLog | intros _; apply stable_emitLog].
Qed.

Lemma stable_gazeEnd `{!EndOK P} callCb s :
  stable P callCb -> stable P (gazeEnd callCb s).
Proof.
  intros Hcb. unfold gazeEnd. apply stable_bind_gets. intros w0 H0.
  apply stable_bind; [apply (en_disarm w0), H0 | intros _].
  apply stable_bind; [apply stable_gets | intros t].
  apply stable_if; [|apply stable_ret].
  apply stable_bind; [apply (fr_disarm w0), H0 | intros _].
  apply stable_bind; [apply stable_if; [apply stable_toggle | apply stable_ret] | intros _].
  apply stable_if; [apply stable_pressButton|].
  apply stable_bind; [apply fr_unregister | intros _; exact Hcb].
Qed.

Lemma stable_gazeBegin `{!BeginOK P} s : stable P (gazeBegin s).
Proof.
  unfold gazeBegin. apply stable_bind; [apply stable_gets | intros v].
  apply stable_bind; [apply bg_gaze | intros _].
  apply stable_bind; [apply stable_gets | intros t].
  apply stable_bind; [apply bg_start | intros _]. apply bg_arm.
Qed.

Lemma stable_callAll cs : Forall (stable P) cs -> stable P (callAll cs).
Proof.
  induction 1 as [|c r Hc _ IH]; simpl; [apply stable_ret|].
  apply stable_bind; [exact Hc | intros _; exact IH].
Qed.

Lemma task_keeps c w : stable P c -> P w -> P (task c w).
Proof.
  intros Hc H. unfold task. specialize (Hc w H). unfold exec in Hc.
  destruct (c w) as [w' [a|]]; simpl in Hc; [exact Hc | apply fr_log, Hc].
Qed.

Section WithMenus.
Variable getMenus : string -> option Menu.
Variable mainMenu : option Menu.

Lemma stable_selectsDropdownMenu b : stable P (selectsDropdownMenu getMenus b).
Proof.
  unfold selectsDropdownMenu. destruct (bool_decide _); [|apply stable_ret].
  destruct (getTargetMenu _ _); [apply stable_ret | apply stable_throw].
Qed.

Lemma stable_invoke k : stable P (invoke getMenus k).
Proof.
  induction k as [c| |m k IH|b k IH|b k IH]; simpl.
  - apply stable_emitLog.
  - apply fr_listen.
  - apply stable_scanMenuWith, IH.
  - apply stable_bind; [apply stable_selectsDropdownMenu | intros d].
    apply stable_bind; [|intros _; exact IH].
    destruct d; [|apply stable_ret].
    destruct (getTargetMenu _ _); [apply stable_emitLog | apply stable_throw].
  - apply stable_scanMenuWith, IH.
Qed.

Lemma stable_scanMenu m k : stable P (scanMenu getMenus m k).
Proof. apply stable_scanMenuWith, stable_invoke. Qed.

Lemma stable_scan : stable P (scan getMenus mainMenu).
Proof.
  unfold scan. apply stable_bind; [apply stable_emitLog | intros _; apply stable_scanMenu].
Qed.

Lemma stable_l_gazeBegin `{!BeginOK P} i : stable P (l_gazeBegin i).
Proof.
  unfold l_gazeBegin. apply stable_bind; [apply stable_gets | intros t]. apply bg_larm.
Qed.

Lemma stable_l_gazeEnd `{!EndOK P} i : stable P (l_gazeEnd getMenus mainMenu i).
Proof.
  unfold l_gazeEnd. apply stable_bind_gets. intros w0 H0.
  apply stable_bind; [apply (en_ldisarm w0), H0 | intros _].
  apply stable_bind; [apply stable_gets | intros t].
  apply stable_if; [|apply stable_ret].
  apply stable_bind; [apply fr_unregister | intros _; apply stable_scan].
Qed.

Lemma stable_l_pressStop i : stable P (l_pressStop i).
Proof.
  unfold l_pressStop. apply stable_bind; [apply stable_emitLog | intros _].
  apply stable_bind; [apply fr_unregister | intros _; apply stable_emitLog].
Qed.

Lemma stable_onStop h : stable P (onStop h).
Proof. destruct h; [apply stable_pressStop | apply stable_l_pressStop]. Qed.

Lemma stable_runTimer a : stable P (runTimer getMenus a).
Proof. destruct a; [apply stable_emitLog | apply stable_next, stable_invoke]. Qed.

Lemma stable_emitBegin `{!BeginOK P} : stable P emitBegin.
Proof.
  unfold emitBegin. apply stable_bind; [apply stable_gets | intros hs].
  apply stable_callAll, Forall_map, Forall_forall. intros [s|i] _; simpl;
    [apply stable_gazeBegin | apply stable_l_gazeBegin].
Qed.

Lemma stable_emitEnd `{!EndOK P} : stable P (emitEnd getMenus mainMenu).
Proof.
  unfold emitEnd. apply stable_bind; [apply stable_gets | intros hs].
  apply stable_callAll, Forall_map, Forall_forall. intros [s|i] _; simpl;
    [apply stable_gazeEnd, stable_invoke | apply stable_l_gazeEnd].
Qed.

Lemma stable_emitFinished b : stable P (emitFinished getMenus b).
Proof.
  unfold emitFinished. apply stable_bind; [apply stable_gets | intros l].
  apply stable_callAll, Forall_map, Forall_forall. intros x _. unfold onceFinished.
  apply stable_bind; [|intros _; apply stable_invoke].
  intros w H. apply fr_finishedL, H.
Qed.

Lemma dispatchStop_keeps hs : forall w, P w -> P (dispatchStop hs w).
Proof.
  induction hs as [|h r IH]; intros w H; simpl; [exact H|].
  destruct (existsb _ _); [|apply IH, H].
  apply IH, task_keeps; [apply stable_onStop | exact H].
Qed.

Lemma handle_keeps (begins ends : bool) (spared : nat -> Prop) e w :
  (begins = true -> BeginOK P) ->
  (ends = true -> EndOK P) ->
  (forall tid w, ~ spared tid -> P w ->
     P (set_timers (cleared (Some tid) (timers w)) w)) ->
  allowed begins ends spared e ->
  P w -> P (handle getMenus mainMenu e w).
Proof.
  intros Hb He Hf Ha H. destruct e as [| | |tid|dt|b|b v]; simpl in *.
  - pose proof (Hb Ha). apply task_keeps; [apply stable_emitBegin | exact H].
  - pose proof (He Ha). apply task_keeps; [apply stable_emitEnd | exact H].
  - apply dispatchStop_keeps, H.
  - destruct (timers w !! tid) as [[due a]|]; [|exact H].
    destruct (due <=? now w)%Z; [|exact H].
    apply task_keeps; [apply stable_runTimer | apply Hf; assumption].
  - apply fr_now, H.
  - apply task_keeps; [apply stable_emitFinished | exact H].
  - apply fr_value, H.
Qed.

Lemma run_keeps (begins ends : bool) (spared : nat -> Prop) es :
  (begins = true -> BeginOK P) ->
  (ends = true -> EndOK P) ->
  (forall tid w, ~ spared tid -> P w ->
     P (set_timers (cleared (Some tid) (timers w)) w)) ->
  Forall (allowed begins ends spared) es ->
  forall w, P w -> P (run getMenus mainMenu es w).
Proof.
  intros Hb He Hf Ha. induction Ha as [|e r Ha _ IH]; intros w H; [exact H|].
  apply IH. eapply handle_keeps; eassumption.
Qed.

End WithMenus.
End Stable.

(** ** Reading variables after a write *)

Lemma varsOf_insert w x i j v :
  varsOf (set_vars (<[i := v]> x) w) j =
  if decide (i = j) then v else default blank (x !! j).
Proof. unfold varsOf. simpl. rewrite lookup_insert. destruct (decide _); reflexivity. Qed.

Lemma varsOf_setVars s f w i :
  varsOf (exec (setVars s f) w) i =
  if decide (sid s = i) then f (varsOf w i) else varsOf w i.
Proof.
  unfold exec, setVars, modify. simpl. rewrite varsOf_insert.
  destruct (decide _) as [<- | ]; reflexivity.
Qed.

Lemma lvarsOf_insert w x i j v :
  lvarsOf (set_lvars (<[i := v]> x) w) j =
  if decide (i = j) then v else default l_blank (x !! j).
Proof. unfold lvarsOf. simpl. rewrite lookup_insert. destruct (decide _); reflexivity. Qed.

Lemma cleared_lookup h ts tid :
  cleared h ts !! tid = if decide (h = Some tid) then None else ts !! tid.
Proof.
  destruct h as [t|]; unfold cleared.
  - rewrite lookup_delete. destruct (decide (t = tid)), (decide (Some t = Some tid));
      congruence.
  - destruct (decide _); [discriminate | reflexivity].
Qed.

Lemma cleared_Some h ts tid x : cleared h ts !! tid = Some x -> ts !! tid = Some x.
Proof. rewrite cleared_lookup. destruct (decide _); [discriminate | auto]. Qed.

Lemma elem_of_removeFirst h x l : x ∈ removeFirst h l -> x ∈ l.
Proof.
  induction l as [|y r IH]; simpl; [auto|].
  destruct (same_fn y h); rewrite ?elem_of_cons; intuition.
Qed.

Lemma elem_of_removeListener h x l : x ∈ removeListener h l -> x ∈ l.
Proof.
  unfold removeListener. intros H.
  apply list_elem_of_In, in_rev, list_elem_of_In, elem_of_removeFirst in H.
  apply list_elem_of_In, in_rev, list_elem_of_In in H. exact H.
Qed.

Lemma elem_of_addEventListener h x l :
  x ∈ addEventListener h l -> x ∈ l \/ x = h.
Proof.
  unfold addEventListener. destruct (existsb _ _); [auto|].
  rewrite elem_of_app, list_elem_of_singleton. auto.
Qed.

(** ** Well-formed worlds stay well formed *)

(** [WF] looks at the timers, the handles, the listener tables and the
    two counters only. *)
Lemma WF_same w w' :
  WF w ->
  timers w' = timers w -> nextTimer w' = nextTimer w ->
  vars w' = vars w -> lvars w' = lvars w ->
  beginL w' = beginL w -> endL w' = endL w -> stopL w' = stopL w ->
  nextScan w' = nextScan w ->
  WF w'.
Proof.
  intros [H1 H2 H3 H4 H5] Et En Ev El Eb Ee Es Ec.
  split; unfold varsOf, lvarsOf in *; rewrite ?Et, ?En, ?Ev, ?El, ?Eb, ?Ee, ?Es, ?Ec;
    assumption.
Qed.

Lemma WF_cleared h w : WF w -> WF (set_timers (cleared h (timers w)) w).
Proof.
  intros [H1 H2 H3 H4 H5]. split; simpl.
  - intros tid x Hx. eapply H1, cleared_Some, Hx.
  - intros i t Ht. destruct (H2 i t Ht) as [Hlt Hty]. split; [exact Hlt|].
    intros due a Ha. eapply Hty, cleared_Some, Ha.
  - intros i t Ht. destruct (H3 i t Ht) as [Hlt Hty]. split; [exact Hlt|].
    intros due a Ha. eapply Hty, cleared_Some, Ha.
  - intros i t Ht. destruct (H4 i t Ht) as [Hlt Hty]. split; [exact Hlt|].
    intros due a Ha. eapply Hty, cleared_Some, Ha.
  - exact H5.
Qed.

(** A new timer: every handle already stored is older than it. *)
Lemma WF_setTimeout a d w :
  WF w ->
  let w' := exec (setTimeout a d) w in
  (forall tid x, timers w' !! tid = Some x -> tid < nextTimer w') /\
  (forall i h, timeout (varsOf w' i) = Some h ->
     h < nextTimer w /\
     forall due a, timers w' !! h = Some (due, a) -> a <> TSignalLongGaze) /\
  (forall i h, longGazeTimeout (varsOf w' i) = Some h ->
     h < nextTimer w /\
     forall due a, timers w' !! h = Some (due, a) -> a = TSignalLongGaze) /\
  (forall i h, l_longGazeTimeout (lvarsOf w' i) = Some h ->
     h < nextTimer w /\
     forall due a, timers w' !! h = Some (due, a) -> a = TSignalLongGaze).
Proof.
  intros [H1 H2 H3 H4 H5]. unfold exec, setTimeout. simpl.
  split; [|split; [|split]].
  - intros tid x. rewrite lookup_insert. destruct (decide _) as [<- | ]; [lia|].
    intros Hx. apply H1 in Hx. lia.
  - intros i h Ht. destruct (H2 i h Ht) as [Hlt Hty]. split; [exact Hlt|].
    intros due b. rewrite lookup_insert_ne by lia. apply Hty.
  - intros i h Ht. destruct (H3 i h Ht) as [Hlt Hty]. split; [exact Hlt|].
    intros due b. rewrite lookup_insert_ne by lia. apply Hty.
  - intros i h Ht. destruct (H4 i h Ht) as [Hlt Hty]. split; [exact Hlt|].
    intros due b. rewrite lookup_insert_ne by lia. apply Hty.
Qed.

Lemma WF_setVars s f w :
  WF w ->
  timeout (f (varsOf w (sid s))) = timeout (varsOf w (sid s)) ->
  longGazeTimeout (f (varsOf w (sid s))) = longGazeTimeout (varsOf w (sid s)) ->
  WF (exec (setVars s f) w).
Proof.
  intros [H1 H2 H3 H4 H5] Et El. split.
  - exact H1.
  - intros i h. rewrite varsOf_setVars. destruct (decide _) as [<- | ]; [rewrite Et|]; apply H2.
  - intros i h. rewrite varsOf_setVars. destruct (decide _) as [<- | ]; [rewrite El|]; apply H3.
  - exact H4.
  - exact H5.
Qed.

#[export] Instance WF_Frame : Frame WF.
Proof.
  split.
  - intros x w H. eapply WF_same; [exact H|reflexivity..].
  - intros x w H. eapply WF_same; [exact H|reflexivity..].
  - intros x w H. eapply WF_same; [exact H|reflexivity..].
  - intros x w H. eapply WF_same; [exact H|reflexivity..].
  - intros h w [H1 H2 H3 H4 H5]. split; try assumption.
    intros s. unfold exec, unregisterListeners, removeEventListener. mrun.
    rewrite !elem_of_app. intros Hin. apply H5. rewrite !elem_of_app.
    destruct Hin as [Hin|[Hin|Hin]]; apply elem_of_removeListener in Hin; auto.
  - intros m k w [H1 H2 H3 H4 H5].
    unfold exec, enter, register, registerListeners, notePeak. mrun.
    split; unfold varsOf, lvarsOf in *; simpl.
    + exact H1.
    + intros i h. rewrite lookup_insert. destruct (decide _); [discriminate|]. apply H2.
    + intros i h. rewrite lookup_insert. destruct (decide _); [discriminate|]. apply H3.
    + exact H4.
    + intros s. unfold addListener. rewrite !elem_of_app, !list_elem_of_singleton.
      intros Hin.
      assert (HScan s ∈ beginL w ++ endL w ++ stopL w \/
              s = {| sid := nextScan w; menu := m; cb := k |}) as [Ho | ->].
      { rewrite !elem_of_app.
        destruct Hin as [[?|?]|[[?|?]|Hin]]; try (left; tauto); try (right; congruence).
        apply elem_of_addEventListener in Hin as [?|?]; [left; tauto | right; congruence]. }
      * apply H5 in Ho. lia.
      * simpl. lia.
  - intros w [H1 H2 H3 H4 H5].
    unfold exec, listen, registerListeners, notePeak. mrun.
    split; unfold varsOf, lvarsOf in *; simpl.
    + exact H1.
    + exact H2.
    + exact H3.
    + intros i h. rewrite lookup_insert. destruct (decide _); [discriminate|]. apply H4.
    + intros s. unfold addListener. rewrite !elem_of_app, !list_elem_of_singleton.
      intros Hin. apply H5. rewrite !elem_of_app.
      destruct Hin as [[?|?]|[[?|?]|Hin]]; try tauto; try discriminate.
      apply elem_of_addEventListener in Hin as [?|?]; [tauto | discriminate].
  - intros s x w H. apply WF_setVars; [exact H|reflexivity..].
  - intros s b ix l d w H. destruct (WF_setTimeout (TNext s b ix l) d w H) as (T1 & T2 & T3 & T4).
    destruct H as [H1 H2 H3 H4 H5].
    unfold exec, bind, setTimeout, setVars, modify in *. simpl in *.
    split; unfold varsOf, lvarsOf in *; simpl in *.
    + exact T1.
    + intros i h. rewrite lookup_insert. destruct (decide _) as [<- | ].
      * simpl. intros [= <-]. split; [lia|]. intros due a.
        rewrite lookup_insert_eq. intros [= _ <-]. discriminate.
      * intros Ht. destruct (T2 i h Ht). split; [lia | assumption].
    + intros i h. rewrite lookup_insert. destruct (decide _) as [<- | ].
      * simpl. intros Ht. destruct (T3 (sid s) h Ht). split; [lia | assumption].
      * intros Ht. destruct (T3 i h Ht). split; [lia | assumption].
    + intros i h Ht. destruct (T4 i h Ht). split; [lia | assumption].
    + exact H5.
  - intros w0 i _ w H. apply WF_cleared, H.
Qed.

#[export] Instance WF_BeginOK : BeginOK WF.
Proof.
  split.
  - intros s x w H. apply WF_setVars; [exact H|reflexivity..].
  - intros s x w H. apply WF_setVars; [exact H|reflexivity..].
  - intros s w H. destruct (WF_setTimeout TSignalLongGaze LONG_GAZE_TIME w H) as (T1 & T2 & T3 & T4).
    destruct H as [H1 H2 H3 H4 H5].
    unfold exec, bind, setTimeout, setVars, modify in *. simpl in *.
    split; unfold varsOf, lvarsOf in *; simpl in *.
    + exact T1.
    + intros i h. rewrite lookup_insert. destruct (decide _) as [<- | ].
      * simpl. intros Ht. destruct (T2 (sid s) h Ht). split; [lia | assumption].
      * intros Ht. destruct (T2 i h Ht). split; [lia | assumption].
    + intros i h. rewrite lookup_insert. destruct (decide _) as [<- | ].
      * simpl. intros [= <-]. split; [lia|]. intros due a.
        rewrite lookup_insert_eq. intros [= _ <-]. reflexivity.
      * intros Ht. destruct (T3 i h Ht). split; [lia | assumption].
    + intros i h Ht. destruct (T4 i h Ht). split; [lia | assumption].
    + exact H5.
  - intros j t w H. destruct (WF_setTimeout TSignalLongGaze LONG_GAZE_TIME w H) as (T1 & T2 & T3 & T4).
    destruct H as [H1 H2 H3 H4 H5].
    unfold exec, bind, setTimeout, modify in *. simpl in *.
    split; unfold varsOf, lvarsOf in *; simpl in *.
    + exact T1.
    + intros i h Ht. destruct (T2 i h Ht). split; [lia | assumption].
    + intros i h Ht. destruct (T3 i h Ht). split; [lia | assumption].
    + intros i h. rewrite lookup_insert. destruct (decide _) as [<- | ].
      * simpl. intros [= <-]. split; [lia|]. intros due a.
        rewrite lookup_insert_eq. intros [= _ <-]. reflexivity.
      * intros Ht. destruct (T4 i h Ht). split; [lia | assumption].
    + exact H5.
Qed.

#[export] Instance WF_EndOK : EndOK WF.
Proof. split; intros w0 i _ w H; apply WF_cleared, H. Qed.

Lemma WF_initial speed val : WF (initial speed val).
Proof.
  split; unfold varsOf, lvarsOf; simpl; try (intros ? ?; rewrite lookup_empty; discriminate).
  intros s Hs. inversion Hs.
Qed.

(** ** A pending timer nobody holds stays pending *)

Section Keeping.
Context (id : nat) (x : Z * TimerAction) (ex : option nat).

Lemma Keep_same w w' :
  Keep id x ex w ->
  timers w' = timers w -> nextTimer w' = nextTimer w ->
  vars w' = vars w -> lvars w' = lvars w ->
  Keep id x ex w'.
Proof.
  intros [H1 H2 H3 H4 H5] Et En Ev El.
  split; unfold varsOf, lvarsOf in *; rewrite ?Et, ?En, ?Ev, ?El; assumption.
Qed.

Lemma Keep_cleared h w :
  Keep id x ex w -> h <> Some id ->
  Keep id x ex (set_timers (cleared h (timers w)) w).
Proof.
  intros [H1 H2 H3 H4 H5] Hh. split; try assumption.
  simpl. rewrite cleared_lookup. destruct (decide _); [contradiction | exact H1].
Qed.

Lemma Keep_setVars s f w :
  Keep id x ex w ->
  timeout (f (varsOf w (sid s))) = timeout (varsOf w (sid s)) ->
  longGazeTimeout (f (varsOf w (sid s))) = longGazeTimeout (varsOf w (sid s)) ->
  Keep id x ex (exec (setVars s f) w).
Proof.
  intros [H1 H2 H3 H4 H5] Et El. split; try assumption.
  - intros i. rewrite varsOf_setVars. destruct (decide _) as [<- | ]; [rewrite Et|]; apply H3.
  - intros i. rewrite varsOf_setVars. destruct (decide _) as [<- | ]; [rewrite El|]; apply H4.
Qed.

#[export] Instance Keep_Frame : Frame (Keep id x ex).
Proof.
  split.
  - intros y w H. eapply Keep_same; [exact H|reflexivity..].
  - intros y w H. eapply Keep_same; [exact H|reflexivity..].
  - intros y w H. eapply Keep_same; [exact H|reflexivity..].
  - intros y w H. eapply Keep_same; [exact H|reflexivity..].
  - intros h w H. eapply Keep_same; [exact H|reflexivity..].
  - intros m k w [H1 H2 H3 H4 H5].
    unfold exec, enter, register, registerListeners, notePeak. mrun.
    split; unfold varsOf, lvarsOf in *; simpl; try assumption.
    + intros i. rewrite lookup_insert. destruct (decide _); [discriminate | apply H3].
    + intros i. rewrite lookup_insert. destruct (decide _); [discriminate | apply H4].
  - intros w [H1 H2 H3 H4 H5].
    unfold exec, listen, registerListeners, notePeak. mrun.
    split; unfold varsOf, lvarsOf in *; simpl; try assumption.
    intros i. rewrite lookup_insert. destruct (decide _); [discriminate | apply H5].
  - intros s y w H. apply Keep_setVars; [exact H|reflexivity..].
  - intros s b ix l d w [H1 H2 H3 H4 H5].
    unfold exec, bind, setTimeout, setVars, modify. simpl.
    split; unfold varsOf, lvarsOf in *; simpl; try assumption.
    + rewrite lookup_insert_ne by lia. exact H1.
    + lia.
    + intros i. rewrite lookup_insert. destruct (decide _) as [<- | ]; [|apply H3].
      simpl. intros [= ?]. lia.
    + intros i. rewrite lookup_insert. destruct (decide _) as [<- | ]; [|apply H4].
      simpl. apply H4.
  - intros w0 i H0 w H. apply Keep_cleared; [exact H | apply (kp_timeout _ _ _ _ H0)].
Qed.

#[export] Instance Keep_BeginOK : BeginOK (Keep id x ex).
Proof.
  split.
  - intros s y w H. apply Keep_setVars; [exact H|reflexivity..].
  - intros s y w H. apply Keep_setVars; [exact H|reflexivity..].
  - intros s w [H1 H2 H3 H4 H5].
    unfold exec, bind, setTimeout, setVars, modify. simpl.
    split; unfold varsOf, lvarsOf in *; simpl; try assumption.
    + rewrite lookup_insert_ne by lia. exact H1.
    + lia.
    + intros i. rewrite lookup_insert. destruct (decide _) as [<- | ]; [|apply H3].
      simpl. apply H3.
    + intros i. rewrite lookup_insert. destruct (decide _) as [<- | ]; [|apply H4].
      simpl. intros [= ?]. lia.
  - intros j t w [H1 H2 H3 H4 H5].
    unfold exec, bind, setTimeout, modify. simpl.
    split; unfold varsOf, lvarsOf in *; simpl; try assumption.
    + rewrite lookup_insert_ne by lia. exact H1.
    + lia.
    + intros i. rewrite lookup_insert. destruct (decide _) as [<- | ]; [|apply H5].
      simpl. intros [= ?]. lia.
Qed.

(** Removing another timer. *)
Lemma Keep_fire tid w :
  tid <> id -> Keep id x ex w ->
  Keep id x ex (set_timers (cleared (Some tid) (timers w)) w).
Proof. intros Hne H. apply Keep_cleared; [exact H | congruence]. Qed.

End Keeping.

#[export] Instance Keep_EndOK id x : EndOK (Keep id x None).
Proof.
  split; intros w0 i H0 w H; apply Keep_cleared; try exact H.
  - intros Hh. apply (kp_long _ _ _ _ H0) in Hh. discriminate.
  - apply (kp_llong _ _ _ _ H0).
Qed.

(** ** What [gazeBegin] recorded stays recorded *)

Section Recorded.
Context (i : nat) (g : option Button) (t : option Z).

Lemma GazeKept_same w w' :
  GazeKept i g t w -> vars w' = vars w -> nextScan w' = nextScan w ->
  GazeKept i g t w'.
Proof.
  intros [H1 H0 H2 H3] Ev En.
  split; unfold varsOf in *; rewrite ?Ev, ?En; assumption.
Qed.

Lemma GazeKept_setVars s f w :
  GazeKept i g t w ->
  (is_Some (currentButton (varsOf w (sid s))) ->
   is_Some (currentButton (f (varsOf w (sid s))))) ->
  gazeButton (f (varsOf w (sid s))) = gazeButton (varsOf w (sid s)) ->
  startTime (f (varsOf w (sid s))) = startTime (varsOf w (sid s)) ->
  GazeKept i g t (exec (setVars s f) w).
Proof.
  intros [H1 H0 H2 H3] Ec Eg Es. split; try assumption.
  - intros Hg. rewrite varsOf_setVars.
    destruct (decide _) as [<- | ]; [apply Ec|]; apply H0, Hg.
  - rewrite varsOf_setVars. destruct (decide _) as [<- | ]; [rewrite Eg|]; apply H2.
  - rewrite varsOf_setVars. destruct (decide _) as [<- | ]; [rewrite Es|]; apply H3.
Qed.

#[export] Instance GazeKept_Frame : Frame (GazeKept i g t).
Proof.
  split.
  - intros y w H. eapply GazeKept_same; [exact H|reflexivity..].
  - intros y w H. eapply GazeKept_same; [exact H|reflexivity..].
  - intros y w H. eapply GazeKept_same; [exact H|reflexivity..].
  - intros y w H. eapply GazeKept_same; [exact H|reflexivity..].
  - intros h w H. eapply GazeKept_same; [exact H|reflexivity..].
  - intros m k w [H1 H0 H2 H3].
    unfold exec, enter, register, registerListeners, notePeak. mrun.
    split; unfold varsOf in *; simpl.
    + lia.
    + rewrite lookup_insert_ne by lia. exact H0.
    + rewrite lookup_insert_ne by lia. exact H2.
    + rewrite lookup_insert_ne by lia. exact H3.
  - intros w H. eapply GazeKept_same; [exact H|reflexivity..].
  - intros s y w H. apply GazeKept_setVars; [exact H|simpl; eauto|reflexivity..].
  - intros s b ix l d w H.
    unfold exec, bind, setTimeout. cbv beta iota.
    match goal with
    | |- GazeKept _ _ _ (fst (setVars ?s0 ?f ?w')) =>
        apply (GazeKept_setVars s0 f w'); [|auto|reflexivity..]
    end.
    eapply GazeKept_same; [exact H|reflexivity..].
  - intros w0 j _ w H. eapply GazeKept_same; [exact H|reflexivity..].
Qed.

#[export] Instance GazeKept_EndOK : EndOK (GazeKept i g t).
Proof. split; intros w0 j _ w H; (eapply GazeKept_same; [exact H|reflexivity..]). Qed.

Lemma GazeKept_fire tid w :
  GazeKept i g t w -> GazeKept i g t (set_timers (cleared (Some tid) (timers w)) w).
Proof. intros H. eapply GazeKept_same; [exact H|reflexivity..]. Qed.

End Recorded.

(** ** One live invocation: what each event runs *)

Lemma same_fn_refl h : same_fn h h = true.
Proof. destruct h; simpl; apply Nat.eqb_refl. Qed.

Lemma removeListener_single h : removeListener h [h] = [].
Proof. unfold removeListener. simpl. rewrite same_fn_refl. reflexivity. Qed.

Lemma set_timers_same w : set_timers (timers w) w = w.
Proof. destruct w; reflexivity. Qed.

Lemma unregister_live s w :
  live s w ->
  unregister s w = (set_endL [] (set_beginL [] (set_stopL [] w)), Some tt).
Proof.
  intros (Hb & He & Hs).
  unfold unregister, unregisterListeners, removeEventListener. mrun.
  rewrite Hb, He, Hs, !removeListener_single. reflexivity.
Qed.

Lemma live_same s w w' :
  live s w -> beginL w' = beginL w -> endL w' = endL w -> stopL w' = stopL w ->
  live s w'.
Proof. intros (Hb & He & Hs) Eb Ee Es. unfold live. rewrite Eb, Ee, Es. auto. Qed.

Section Handlers.
Variable getMenus : string -> option Menu.
Variable mainMenu : option Menu.

Lemma callAll_single (c : M unit) w : callAll [c] w = c w.
Proof. simpl. unfold bind, ret. destruct (c w) as [w' [[]|]]; reflexivity. Qed.

Lemma emitBegin_live s w : live s w -> emitBegin w = gazeBegin s w.
Proof.
  intros (Hb & He & Hs). unfold emitBegin, bind at 1, gets. rewrite Hb.
  apply callAll_single.
Qed.

Lemma emitEnd_live s w :
  live s w ->
  emitEnd getMenus mainMenu w = gazeEnd (invoke getMenus (cb s)) s w.
Proof.
  intros (Hb & He & Hs). unfold emitEnd, bind at 1, gets. rewrite He.
  apply callAll_single.
Qed.

Lemma stop_live s w :
  live s w -> handle getMenus mainMenu StopClick w = task (pressStop s) w.
Proof.
  intros (Hb & He & Hs). simpl. rewrite Hs. simpl. rewrite Hs. simpl.
  rewrite Nat.eqb_refl. reflexivity.
Qed.

(** [gazeBegin] always returns; this is what it leaves behind. *)
Lemma gazeBegin_spec s w :
  let v := varsOf w (sid s) in
  let w' := exec (gazeBegin s) w in
  gazeBegin s w = (w', Some tt) /\
  timers w' = <[nextTimer w := ((now w + LONG_GAZE_TIME)%Z, TSignalLongGaze)]> (timers w) /\
  nextTimer w' = S (nextTimer w) /\
  varsOf w' (sid s) =
    mkVars (currentButton v) (currentButton v) (Some (now w)) (timeout v)
           (Some (nextTimer w)) /\
  (forall i, i <> sid s -> varsOf w' i = varsOf w i) /\
  lvars w' = lvars w /\ log w' = log w /\ now w' = now w /\
  beginL w' = beginL w /\ endL w' = endL w /\ stopL w' = stopL w /\
  finishedL w' = finishedL w /\ nextScan w' = nextScan w.
Proof.
  unfold exec, gazeBegin, setTimeout. mrun.
  repeat split; unfold varsOf; simpl; rewrite ?lookup_insert_eq; try reflexivity.
  intros i Hi. rewrite !lookup_insert_ne by congruence. reflexivity.
Qed.

Lemma handle_begin_live s w :
  live s w -> handle getMenus mainMenu GestureBegin w = exec (gazeBegin s) w.
Proof.
  intros Hl. simpl. unfold task. rewrite (emitBegin_live s) by exact Hl.
  destruct (gazeBegin_spec s w) as [-> _]. reflexivity.
Qed.

(** The three ways through [gazeEnd]. *)
Lemma gazeEnd_ignored callCb s w :
  geN (elapsedSince (now w) (startTime (varsOf w (sid s)))) SHORT_GAZE_TIME = false ->
  gazeEnd callCb s w =
  (set_timers (cleared (longGazeTimeout (varsOf w (sid s))) (timers w)) w, Some tt).
Proof. intros H. unfold gazeEnd. mrun. rewrite H. reflexivity. Qed.

Lemma gazeEnd_select callCb s w t0 :
  startTime (varsOf w (sid s)) = Some t0 ->
  (SHORT_GAZE_TIME <= now w - t0 < LONG_GAZE_TIME)%Z ->
  gazeEnd callCb s w =
  let v := varsOf w (sid s) in
  (clearTimeout (longGazeTimeout v) ;;;
   clearTimeout (timeout v) ;;;
   (if negb (same_button (currentButton v) (gazeButton v))
    then toggle (currentButton v) else ret tt) ;;;
   pressButton s (gazeButton v)) w.
Proof.
  intros H1 H2.
  assert (Hge : (SHORT_GAZE_TIME <=? now w - t0)%Z = true) by (apply Z.leb_le; lia).
  assert (Hlt : (now w - t0 <? LONG_GAZE_TIME)%Z = true) by (apply Z.ltb_lt; lia).
  unfold gazeEnd. mrun. rewrite H1. simpl. rewrite Hge, Hlt. reflexivity.
Qed.

Lemma gazeEnd_exit callCb s w t0 :
  startTime (varsOf w (sid s)) = Some t0 ->
  (LONG_GAZE_TIME <= now w - t0)%Z ->
  gazeEnd callCb s w =
  let v := varsOf w (sid s) in
  (clearTimeout (longGazeTimeout v) ;;;
   clearTimeout (timeout v) ;;;
   (if negb (same_button (currentButton v) (gazeButton v))
    then toggle (currentButton v) else ret tt) ;;;
   unregister s ;;;
   callCb) w.
Proof.
  intros H1 H2.
  assert (Hge : (SHORT_GAZE_TIME <=? now w - t0)%Z = true)
    by (apply Z.leb_le; unfold SHORT_GAZE_TIME, LONG_GAZE_TIME in *; lia).
  assert (Hlt : (now w - t0 <? LONG_GAZE_TIME)%Z = false) by (apply Z.ltb_ge; lia).
  unfold gazeEnd. mrun. rewrite H1. simpl. rewrite Hge, Hlt. reflexivity.
Qed.

(** A timer that holds [signalLongGaze] beeps when it runs. *)
Lemma fire_warning tid due w :
  timers w !! tid = Some (due, TSignalLongGaze) ->
  (due <= now w)%Z ->
  log (handle getMenus mainMenu (Fire tid) w) = log w ++ [EBeep BEEP_FREQ BEEP_DURATION].
Proof.
  intros Ht Hd. simpl. rewrite Ht.
  destruct (Z.leb_spec due (now w)) as [_|?]; [|lia]. reflexivity.
Qed.

End Handlers.

(** Variables of an invocation are read from [vars] alone. *)
Lemma varsOf_set_now x w i : varsOf (set_now x w) i = varsOf w i.
Proof. reflexivity. Qed.
Lemma varsOf_set_timers x w i : varsOf (set_timers x w) i = varsOf w i.
Proof. reflexivity. Qed.
Lemma varsOf_set_nextTimer x w i : varsOf (set_nextTimer x w) i = varsOf w i.
Proof. reflexivity. Qed.
Lemma varsOf_set_nextScan x w i : varsOf (set_nextScan x w) i = varsOf w i.
Proof. reflexivity. Qed.
Lemma varsOf_set_lvars x w i : varsOf (set_lvars x w) i = varsOf w i.
Proof. reflexivity. Qed.
Lemma varsOf_set_nextListen x w i : varsOf (set_nextListen x w) i = varsOf w i.
Proof. reflexivity. Qed.
Lemma varsOf_set_beginL x w i : varsOf (set_beginL x w) i = varsOf w i.
Proof. reflexivity. Qed.
Lemma varsOf_set_endL x w i : varsOf (set_endL x w) i = varsOf w i.
Proof. reflexivity. Qed.
Lemma varsOf_set_stopL x w i : varsOf (set_stopL x w) i = varsOf w i.
Proof. reflexivity. Qed.
Lemma varsOf_set_finishedL x w i : varsOf (set_finishedL x w) i = varsOf w i.
Proof. reflexivity. Qed.
Lemma varsOf_set_value x w i : varsOf (set_value x w) i = varsOf w i.
Proof. reflexivity. Qed.
Lemma varsOf_set_log x w i : varsOf (set_log x w) i = varsOf w i.
Proof. reflexivity. Qed.
Lemma varsOf_set_peak x w i : varsOf (set_peak x w) i = varsOf w i.
Proof. reflexivity. Qed.

Create Rewrite HintDb world.
#[export] Hint Rewrite varsOf_set_now varsOf_set_timers varsOf_set_nextTimer
  varsOf_set_nextScan varsOf_set_lvars varsOf_set_nextListen varsOf_set_beginL
  varsOf_set_endL varsOf_set_stopL varsOf_set_finishedL varsOf_set_value
  varsOf_set_log varsOf_set_peak : world.

(** ** Gestures *)

Section Gestures.
Variable getMenus : string -> option Menu.
Variable mainMenu : option Menu.

(** After [gazeBegin] in a well-formed world the warning timer is pending
    and only [longGazeTimeout] of the invocation holds its handle. *)
Lemma Keep_begin s w :
  WF w ->
  Keep (nextTimer w) ((now w + LONG_GAZE_TIME)%Z, TSignalLongGaze)
       (Some (sid s)) (exec (gazeBegin s) w).
Proof.
  intros [H1 H2 H3 H4 H5].
  destruct (gazeBegin_spec s w) as (_ & Et & En & Ev & Eo & El & _).
  split.
  - rewrite Et. apply lookup_insert_eq.
  - rewrite En. lia.
  - intros i. destruct (decide (i = sid s)) as [-> | Hi].
    + rewrite Ev. simpl. intros Ht. apply H2 in Ht as [? _]. lia.
    + rewrite Eo by exact Hi. intros Ht. apply H2 in Ht as [? _]. lia.
  - intros i. destruct (decide (i = sid s)) as [-> | Hi]; [reflexivity|].
    rewrite Eo by exact Hi. intros Ht. apply H3 in Ht as [? _]. lia.
  - intros i. unfold lvarsOf. rewrite El. intros Ht. apply H4 in Ht as [? _]. lia.
Qed.

(** A second [gazeBegin] of the same invocation lets go of the handle. *)
Lemma Keep_rebegin id x s w :
  Keep id x (Some (sid s)) w -> Keep id x None (exec (gazeBegin s) w).
Proof.
  intros [H1 H2 H3 H4 H5].
  destruct (gazeBegin_spec s w) as (_ & Et & En & Ev & Eo & El & _).
  split.
  - rewrite Et, lookup_insert_ne by lia. exact H1.
  - rewrite En. lia.
  - intros i. destruct (decide (i = sid s)) as [-> | Hi].
    + rewrite Ev. simpl. apply H3.
    + rewrite Eo by exact Hi. apply H3.
  - intros i. destruct (decide (i = sid s)) as [-> | Hi].
    + rewrite Ev. simpl. intros [= ?]. lia.
    + rewrite Eo by exact Hi. intros Ht. apply H4 in Ht. congruence.
  - intros i. unfold lvarsOf. rewrite El. apply H5.
Qed.

Lemma GazeKept_begin s w :
  WF w -> live s w ->
  let b := currentButton (varsOf w (sid s)) in
  GazeKept (sid s) b (Some (now w)) (exec (gazeBegin s) w).
Proof.
  intros Hwf (Hb & _) b.
  destruct (gazeBegin_spec s w) as (_ & _ & _ & Ev & _ & _ & _ & _ & _ & _ & _ & _ & En).
  split; rewrite ?Ev, ?En; simpl; auto.
  apply (wf_scans _ Hwf). rewrite Hb. apply elem_of_app. left. apply list_elem_of_singleton. reflexivity.
Qed.

Lemma run_no_gesture_GazeKept i g t es w :
  Forall (allowed false false (fun _ => False)) es ->
  GazeKept i g t w -> GazeKept i g t (run getMenus mainMenu es w).
Proof.
  intros Hes. apply (run_keeps _ _ _ false false (fun _ => False)); try done.
  intros tid w' _. apply GazeKept_fire.
Qed.

(** C9.  A gesture end that reaches a live invocation in which no gesture
    begin was recorded changes nothing at all: [elapsed] is [NaN], so no
    button is pressed, [cb] is not called, the listeners stay registered
    and no timer is cleared. *)
Theorem gazeEnd_without_begin_is_noop w s :
  live s w ->
  noGazeYet (varsOf w (sid s)) ->
  handle getMenus mainMenu GestureEnd w = w.
Proof.
  intros Hl (_ & H1 & H2). simpl. unfold task.
  rewrite (emitEnd_live _ _ s) by exact Hl.
  rewrite gazeEnd_ignored by (rewrite H1; reflexivity).
  rewrite H2. apply set_timers_same.
Qed.

(** C7.  A gesture that ends less than [SHORT_GAZE_TIME] after it began is
    ignored: nothing is logged (no button pressed, [cb] not called), the
    listeners and the variables of the invocation are as before, and the
    only timer that may be gone is the long-gaze warning; the step timer
    named by [timeout] is still pending. *)
Theorem brief_gaze_is_ignored w s t0 :
  WF w ->
  live s w ->
  startTime (varsOf w (sid s)) = Some t0 ->
  (now w - t0 < SHORT_GAZE_TIME)%Z ->
  let w' := handle getMenus mainMenu GestureEnd w in
  log w' = log w /\ finishedL w' = finishedL w /\ live s w' /\
  vars w' = vars w /\ nextScan w' = nextScan w /\
  timers w' = cleared (longGazeTimeout (varsOf w (sid s))) (timers w) /\
  (forall tid, timeout (varsOf w (sid s)) = Some tid ->
     timers w' !! tid = timers w !! tid).
Proof.
  intros Hwf Hl Hs Hlt. simpl. unfold task.
  rewrite (emitEnd_live _ _ s) by exact Hl.
  rewrite gazeEnd_ignored.
  2:{ rewrite Hs. simpl. apply Z.leb_gt. exact Hlt. }
  repeat split; try apply Hl.
  intros tid Ht. simpl. rewrite cleared_lookup.
  destruct (decide _) as [Hh|]; [|reflexivity].
  destruct (timers w !! tid) as [[due a]|] eqn:E; [|reflexivity].
  exfalso. destruct (wf_timeout _ Hwf _ _ Ht) as [_ Hn].
  destruct (wf_long _ Hwf _ _ Hh) as [_ Hy].
  apply (Hn _ _ E), (Hy _ _ E).
Qed.

End Gestures.

Section Gestures2.
Variable getMenus : string -> option Menu.
Variable mainMenu : option Menu.

(** A gesture of selecting length, in a live invocation that has a
    current button: the button recorded at the begin is pressed. *)
Lemma select_result s w m t0 g c :
  live s w -> menu s = Some m ->
  startTime (varsOf w (sid s)) = Some t0 ->
  gazeButton (varsOf w (sid s)) = Some g ->
  currentButton (varsOf w (sid s)) = Some c ->
  (SHORT_GAZE_TIME <= now w - t0 < LONG_GAZE_TIME)%Z ->
  let w' := handle getMenus mainMenu GestureEnd w in
  unregistered w' /\
  finishedL w' = finishedL w ++ [(bid g, buttonCallback m (cb s) g)] /\
  log w' = log w ++ [EToggle (bid c); EPressed (bid g)].
Proof.
  intros Hl Hm Hs Hg Hc Hr. pose proof Hl as (Hb & He & Hst).
  simpl. unfold task. rewrite (emitEnd_live _ _ s) by exact Hl.
  rewrite (gazeEnd_select _ _ _ t0) by assumption.
  unfold pressButton, unregister, unregisterListeners, removeEventListener,
    makeButtonCallback.
  rewrite Hm. mrun.
  rewrite Hg, Hc. simpl.
  destruct (Nat.eqb (bid c) (bid g)) eqn:E;
    repeat (progress (simpl; autorewrite with world;
                      rewrite ?Hb, ?He, ?Hst, ?removeListener_single, ?Hg, ?Hc, ?E));
    unfold unregistered; simpl; rewrite <- app_assoc.
  - apply Nat.eqb_eq in E. rewrite E. auto.
  - auto.
Qed.

(** A gesture of exiting length: the listeners go, then [cb] is called,
    and nothing is pressed on the way. *)
Lemma exit_result s w t0 :
  live s w ->
  startTime (varsOf w (sid s)) = Some t0 ->
  (is_Some (gazeButton (varsOf w (sid s))) ->
   is_Some (currentButton (varsOf w (sid s)))) ->
  (LONG_GAZE_TIME <= now w - t0)%Z ->
  exists w',
    unregistered w' /\ pressedIn (log w') = pressedIn (log w) /\
    finishedL w' = finishedL w /\ nextScan w' = nextScan w /\
    handle getMenus mainMenu GestureEnd w = task (invoke getMenus (cb s)) w'.
Proof.
  intros Hl Hs Hc Hr. pose proof Hl as (Hb & He & Hst).
  simpl. unfold task at 1. rewrite (emitEnd_live _ _ s) by exact Hl.
  rewrite (gazeEnd_exit _ _ _ t0) by assumption.
  unfold unregister, unregisterListeners, removeEventListener. mrun.
  destruct (currentButton (varsOf w (sid s))) as [c|] eqn:Ec,
           (gazeButton (varsOf w (sid s))) as [g|] eqn:Eg; simpl.
  - destruct (Nat.eqb (bid c) (bid g)); simpl;
      rewrite Hb, He, Hst, !removeListener_single;
      (eexists; split; [|split; [|split; [|split; [|reflexivity]]]]);
      unfold unregistered, pressedIn; simpl; rewrite ?omap_app; simpl;
      rewrite ?app_nil_r; auto.
  - rewrite Hb, He, Hst, !removeListener_single.
    eexists; split; [|split; [|split; [|split; [|reflexivity]]]];
      unfold unregistered, pressedIn; simpl; rewrite ?omap_app; simpl;
      rewrite ?app_nil_r; auto.
  - destruct Hc as [? [=]]. eauto.
  - rewrite Hb, He, Hst, !removeListener_single.
    eexists; split; [|split; [|split; [|split; [|reflexivity]]]];
      unfold unregistered, pressedIn; simpl; auto.
Qed.

End Gestures2.

Section Gestures3.
Variable getMenus : string -> option Menu.
Variable mainMenu : option Menu.

(** C1.  In a live invocation scanning [m] with [b] under point, a gesture
    begins; timers run and time passes (the highlight may move on, any
    number of times); the gesture ends while the invocation is still
    live, between [SHORT_GAZE_TIME] and [LONG_GAZE_TIME] after it began.
    Then [gazeBegin] recorded [b], the gesture-end handler calls
    [pressed] on [b] and on no other button, once, it leaves no listener
    registered, and [b] got the callback of [makeButtonCallback] as its
    finished-listener. *)
Theorem short_gaze_presses_button_under_point w0 s m b es :
  WF w0 ->
  live s w0 ->
  menu s = Some m ->
  currentButton (varsOf w0 (sid s)) = Some b ->
  let w1 := handle getMenus mainMenu GestureBegin w0 in
  Forall (allowed false false (fun _ => False)) es ->
  let w2 := run getMenus mainMenu es w1 in
  live s w2 ->
  (SHORT_GAZE_TIME <= now w2 - now w0 < LONG_GAZE_TIME)%Z ->
  let w3 := handle getMenus mainMenu GestureEnd w2 in
  gazeButton (varsOf w1 (sid s)) = Some b /\
  pressedIn (log w3) = pressedIn (log w2) ++ [bid b] /\
  unregistered w3 /\
  finishedL w3 = finishedL w2 ++ [(bid b, buttonCallback m (cb s) b)].
Proof.
  intros Hwf Hl Hm Hc w1 Hes w2 Hl2 Hr w3.
  pose proof (GazeKept_begin s w0 Hwf Hl) as Hk. simpl in Hk. rewrite Hc in Hk.
  assert (E1 : w1 = exec (gazeBegin s) w0) by (apply handle_begin_live, Hl).
  rewrite <- E1 in Hk.
  pose proof (run_no_gesture_GazeKept getMenus mainMenu _ _ _ es w1 Hes Hk) as [_ K1 K2 K3].
  destruct K1 as [c Hc2]; [eauto|].
  destruct (select_result getMenus mainMenu s w2 m (now w0) b c Hl2 Hm K3 K2 Hc2 Hr)
    as (U & F & L).
  split; [apply Hk|]. split; [|split; assumption].
  unfold w3. rewrite L. unfold pressedIn. rewrite omap_app. reflexivity.
Qed.

(** C5.  In a live invocation a gesture begins.  (1) The warning timer is
    pending, due [LONG_GAZE_TIME] later.  (2) It stays pending whatever
    happens, as long as no gesture end is delivered and it has not run.
    (3) When it runs, at or after its due time, the speaker beeps.
    (4) If the gesture ends [LONG_GAZE_TIME] or more after it began, while
    the invocation is still live, the handler unregisters the listeners
    and then calls [cb], once, as the last thing it does; no button is
    pressed and no finished-listener is added before that. *)
Theorem long_gaze_exits_menu w0 s :
  WF w0 ->
  live s w0 ->
  let w1 := handle getMenus mainMenu GestureBegin w0 in
  let id := nextTimer w0 in
  let warning := ((now w0 + LONG_GAZE_TIME)%Z, TSignalLongGaze) in
  timers w1 !! id = Some warning /\
  (forall es, Forall (allowed true false (eq id)) es ->
     timers (run getMenus mainMenu es w1) !! id = Some warning) /\
  (forall w, timers w !! id = Some warning ->
     (now w0 + LONG_GAZE_TIME <= now w)%Z ->
     log (handle getMenus mainMenu (Fire id) w) =
     log w ++ [EBeep BEEP_FREQ BEEP_DURATION]) /\
  (forall es, Forall (allowed false false (fun _ => False)) es ->
     let w2 := run getMenus mainMenu es w1 in
     live s w2 ->
     (LONG_GAZE_TIME <= now w2 - now w0)%Z ->
     exists w',
       unregistered w' /\ pressedIn (log w') = pressedIn (log w2) /\
       finishedL w' = finishedL w2 /\ nextScan w' = nextScan w2 /\
       handle getMenus mainMenu GestureEnd w2 = task (invoke getMenus (cb s)) w').
Proof.
  intros Hwf Hl w1 id warning.
  assert (E1 : w1 = exec (gazeBegin s) w0) by (apply handle_begin_live, Hl).
  pose proof (Keep_begin s w0 Hwf) as Hk. rewrite <- E1 in Hk. fold id warning in Hk.
  split; [apply Hk|]. split; [|split].
  - intros es Hes.
    apply (kp_timer id warning (Some (sid s))).
    apply (run_keeps _ _ _ true false (eq id)); try done.
    + intros _. apply Keep_BeginOK.
    + intros tid w Hne. apply Keep_fire. congruence.
  - intros w Ht Hd. apply (fire_warning getMenus mainMenu id _ w Ht Hd).
  - intros es Hes w2 Hl2 Hr.
    pose proof (GazeKept_begin s w0 Hwf Hl) as Hg. simpl in Hg. rewrite <- E1 in Hg.
    pose proof (run_no_gesture_GazeKept getMenus mainMenu _ _ _ es w1 Hes Hg)
      as [_ K1 K2 K3].
    apply (exit_result getMenus mainMenu s w2 (now w0)); try assumption.
    unfold w2. rewrite K2. exact K1.
Qed.

(** C10.  In a live invocation a gesture begins, then, with no gesture
    end in between, a second gesture begin reaches the same invocation.
    The second [gazeBegin] overwrites [startTime] and [longGazeTimeout]
    (with a handle other than the first); the first warning timer is
    still pending, it stays pending through every later event except its
    own run, gesture ends included, and when it runs, [LONG_GAZE_TIME]
    after the first begin or later, the speaker beeps. *)
Theorem second_begin_orphans_first_warning w0 s es1 :
  WF w0 ->
  live s w0 ->
  let w1 := handle getMenus mainMenu GestureBegin w0 in
  let id1 := nextTimer w0 in
  let warning := ((now w0 + LONG_GAZE_TIME)%Z, TSignalLongGaze) in
  Forall (allowed true false (eq id1)) es1 ->
  let w2 := run getMenus mainMenu es1 w1 in
  live s w2 ->
  let w3 := handle getMenus mainMenu GestureBegin w2 in
  startTime (varsOf w3 (sid s)) = Some (now w2) /\
  longGazeTimeout (varsOf w3 (sid s)) = Some (nextTimer w2) /\
  nextTimer w2 <> id1 /\
  timers w3 !! id1 = Some warning /\
  (forall es2, Forall (allowed true true (eq id1)) es2 ->
     timers (run getMenus mainMenu es2 w3) !! id1 = Some warning) /\
  (forall w, timers w !! id1 = Some warning ->
     (now w0 + LONG_GAZE_TIME <= now w)%Z ->
     log (handle getMenus mainMenu (Fire id1) w) =
     log w ++ [EBeep BEEP_FREQ BEEP_DURATION]).
Proof.
  intros Hwf Hl w1 id1 warning Hes w2 Hl2 w3.
  assert (E1 : w1 = exec (gazeBegin s) w0) by (apply handle_begin_live, Hl).
  assert (E3 : w3 = exec (gazeBegin s) w2) by (apply handle_begin_live, Hl2).
  pose proof (Keep_begin s w0 Hwf) as Hk. rewrite <- E1 in Hk. fold id1 warning in Hk.
  assert (Hk2 : Keep id1 warning (Some (sid s)) w2).
  { apply (run_keeps _ _ _ true false (eq id1)); try done.
    - intros _. apply Keep_BeginOK.
    - intros tid w Hne. apply Keep_fire. congruence. }
  pose proof (Keep_rebegin _ _ _ _ Hk2) as Hk3. rewrite <- E3 in Hk3.
  destruct (gazeBegin_spec s w2) as (_ & _ & _ & Ev & _). rewrite <- E3 in Ev.
  rewrite Ev. simpl.
  split; [reflexivity|]. split; [reflexivity|]. split; [|split; [|split]].
  - pose proof (kp_old _ _ _ _ Hk2). lia.
  - apply Hk3.
  - intros es2 Hes2.
    apply (kp_timer id1 warning None).
    apply (run_keeps _ _ _ true true (eq id1)); try done.
    + intros _. apply Keep_BeginOK.
    + intros _. apply Keep_EndOK.
    + intros tid w Hne. apply Keep_fire. congruence.
  - intros w Ht Hd. apply (fire_warning getMenus mainMenu id1 _ w Ht Hd).
Qed.

End Gestures3.

(** ** Hoare triples *)

Lemma triple_bind {A B} P (c : M A) (k : A -> M B) R R' E :
  triple P c R E -> (forall a, triple (R a) (k a) R' E) ->
  triple P (bind c k) R' E.
Proof.
  intros Hc Hk w H. unfold bind. specialize (Hc w H).
  destruct (c w) as [w' [a|]]; [apply Hk, Hc | exact Hc].
Qed.

Lemma triple_weaken {A} (P P' : World -> Prop) (c : M A) (R R' : A -> World -> Prop)
    (E E' : World -> Prop) :
  triple P c R E ->
  (forall w, P' w -> P w) -> (forall a w, R a w -> R' a w) ->
  (forall w, E w -> E' w) ->
  triple P' c R' E'.
Proof.
  intros Hc HP HR HE w H. specialize (Hc w (HP w H)).
  destruct (c w) as [w' [a|]]; auto.
Qed.



(** ** The shape of the world along the handlers *)

Lemma doneIn_app l1 l2 : doneIn (l1 ++ l2) = doneIn l1 ++ doneIn l2.
Proof. apply omap_app. Qed.

Lemma doneIn_other l e :
  (forall c, e <> EDone c) -> doneIn (l ++ [e]) = doneIn l.
Proof.
  intros He. rewrite doneIn_app. destruct e; simpl; rewrite ?app_nil_r; try reflexivity.
  exfalso. eapply He. reflexivity.
Qed.

Lemma timersOK_weaken s w : timersOK None w -> timersOK (Some s) w.
Proof. intros H tid due a Ha Hn. destruct (H tid due a Ha Hn). Qed.

Lemma timersOK_same tm w w' :
  timersOK tm w -> timers w' = timers w -> vars w' = vars w -> timersOK tm w'.
Proof. unfold timersOK, varsOf. intros H -> ->. exact H. Qed.

Lemma timersOK_cleared tm h w :
  timersOK tm w -> timersOK tm (set_timers (cleared h (timers w)) w).
Proof.
  intros H tid due a Ha Hn. simpl in Ha. apply cleared_Some in Ha.
  apply (H tid due a Ha Hn).
Qed.

(** Clearing the timer named by [timeout] leaves no step timer. *)
Lemma timersOK_disarm s w :
  timersOK (Some s) w ->
  timersOK None (set_timers (cleared (timeout (varsOf w (sid s))) (timers w)) w).
Proof.
  intros H tid due a Ha Hn. simpl in Ha. rewrite cleared_lookup in Ha.
  destruct (decide _) as [|Hne]; [discriminate|].
  destruct (H tid due a Ha Hn) as (_ & Ht & _). contradiction.
Qed.

(** Without a current button there is no step timer. *)
Lemma timersOK_no_current s w :
  timersOK (Some s) w -> currentButton (varsOf w (sid s)) = None ->
  timersOK None w.
Proof.
  intros H Hc tid due a Ha Hn. destruct (H tid due a Ha Hn) as (_ & _ & [b Hb]).
  congruence.
Qed.


Lemma timersOK_warning tm d w :
  timersOK tm w -> timersOK tm (exec (setTimeout TSignalLongGaze d) w).
Proof.
  intros H tid due a. unfold exec, setTimeout. simpl. rewrite lookup_insert.
  destruct (decide _); [intros [= _ <-] Hn; contradiction | apply H].
Qed.

Lemma timersOK_setVars tm s' f w :
  timersOK tm w ->
  timeout (f (varsOf w (sid s'))) = timeout (varsOf w (sid s')) ->
  (is_Some (currentButton (varsOf w (sid s'))) ->
   is_Some (currentButton (f (varsOf w (sid s'))))) ->
  timersOK tm (exec (setVars s' f) w).
Proof.
  intros H Et Ec tid due a Ha Hn. specialize (H tid due a Ha Hn).
  destruct tm as [s|]; [|exact H]. destruct H as (H1 & H2 & H3).
  rewrite varsOf_setVars. split; [exact H1|].
  destruct (decide _) as [E|]; [|auto]. rewrite <- E in *. split; [congruence | auto].
Qed.

Lemma timersOK_step s b ix l w :
  timersOK None w -> timersOK (Some s) (exec (step s b ix l) w).
Proof.
  intros H tid due a. unfold exec, step, setTimeout. mrun.
  rewrite lookup_insert. destruct (decide _) as [<- | ].
  - intros [= _ <-] _. split; [eauto|]. unfold varsOf. simpl.
    rewrite !lookup_insert_eq. simpl. split; [reflexivity | eauto].
  - intros Ha Hn. destruct (H tid due a Ha Hn).
Qed.

Section Shapes.
Context (reg : option Handler) (fin : nat) (tm : option Scan) (d : list nat).

Lemma St_same w w' :
  St reg fin tm d w ->
  beginL w' = beginL w -> endL w' = endL w -> stopL w' = stopL w ->
  finishedL w' = finishedL w -> peak w' = peak w ->
  timers w' = timers w -> vars w' = vars w -> log w' = log w ->
  St reg fin tm d w'.
Proof.
  intros [H1 H2 H3 H4 H5 H6 H7] E1 E2 E3 E4 E5 E6 E7 E8.
  split; rewrite ?E1, ?E2, ?E3, ?E4, ?E5, ?E8; try assumption.
  eapply timersOK_same; eassumption.
Qed.

Lemma St_log e w :
  St reg fin tm d w -> (forall c, e <> EDone c) ->
  St reg fin tm d (set_log (log w ++ [e]) w).
Proof.
  intros [H1 H2 H3 H4 H5 H6 H7] He. split; simpl; try assumption.
  rewrite doneIn_other by exact He. exact H7.
Qed.

Lemma St_cleared h w :
  St reg fin tm d w -> St reg fin tm d (set_timers (cleared h (timers w)) w).
Proof.
  intros [H1 H2 H3 H4 H5 H6 H7]. split; simpl; try assumption.
  apply timersOK_cleared, H6.
Qed.

Lemma St_now t w : St reg fin tm d w -> St reg fin tm d (set_now t w).
Proof. intros H. eapply St_same; [exact H|reflexivity..]. Qed.

Lemma St_value x w : St reg fin tm d w -> St reg fin tm d (set_value x w).
Proof. intros H. eapply St_same; [exact H|reflexivity..]. Qed.

End Shapes.

Lemma St_weaken reg fin s d w : St reg fin None d w -> St reg fin (Some s) d w.
Proof.
  intros [H1 H2 H3 H4 H5 H6 H7]. split; try assumption. apply timersOK_weaken, H6.
Qed.

Lemma St_disarm reg fin s d w :
  St reg fin (Some s) d w ->
  St reg fin None d (set_timers (cleared (timeout (varsOf w (sid s))) (timers w)) w).
Proof.
  intros [H1 H2 H3 H4 H5 H6 H7]. split; simpl; try assumption.
  apply timersOK_disarm, H6.
Qed.

Lemma St_done reg fin tm d c w :
  St reg fin tm d w -> St reg fin tm (d ++ [c]) (set_log (log w ++ [EDone c]) w).
Proof.
  intros [H1 H2 H3 H4 H5 H6 H7]. split; simpl; try assumption.
  rewrite doneIn_app, H7. reflexivity.
Qed.

Lemma St_unregister h fin tm d w :
  St (Some h) fin tm d w -> St None fin tm d (exec (unregisterListeners h) w).
Proof.
  intros [H1 H2 H3 H4 H5 H6 H7].
  unfold exec, unregisterListeners, removeEventListener. mrun.
  simpl in *. rewrite H1, H2, H3, !removeListener_single.
  split; simpl; try assumption; reflexivity.
Qed.

Lemma St_register h fin tm d w :
  St None fin tm d w -> St (Some h) fin tm d (exec (registerListeners h) w).
Proof.
  intros [H1 H2 H3 H4 H5 H6 H7].
  unfold exec, registerListeners, notePeak, addListener, addEventListener. mrun.
  simpl in *. rewrite H1, H2, H3. simpl.
  split; simpl; try assumption; try reflexivity. lia.
Qed.



Lemma Post_scanning s d w : St (Some (HScan s)) 0 (Some s) d w -> Post d w.
Proof. intros H. split; [exists d; left; exists s; exact H | left; apply H]. Qed.

Lemma Post_listening i d w : St (Some (HListen i)) 0 None d w -> Post d w.
Proof. intros H. split; [exists d; right; left; exists i; exact H | left; apply H]. Qed.

Lemma Post_quiet d w : St None 0 None d w -> Post d w.
Proof. intros H. split; [exists d; right; right; left; exact H | left; apply H]. Qed.


Lemma Post_called d d' w : St None 0 None d' w -> Post d w.
Proof.
  intros H. split; [exists d'; right; right; left; exact H|].
  right. destruct H as [H1 H2 H3 _ _ _ _]. repeat split; assumption.
Qed.

(** A handler that ended with no listener registered stays so for the
    caller's [Post]. *)
Lemma Post_trans d d' w : Post d' w -> (doneIn (log w) = d' -> doneIn (log w) = d) ->
  Post d w.
Proof.
  intros [HI HD] Hd. split; [exact HI|]. destruct HD as [HD|HD]; auto.
Qed.

(** ** The procedures of [scanMenu] keep the scanner in shape *)

Lemma exec_bind {A B} (c : M A) (k : A -> M B) a w :
  c w = (exec c w, Some a) -> exec (bind c k) w = exec (k a) (exec c w).
Proof. unfold exec, bind. intros ->. reflexivity. Qed.

Lemma unregister_returns h w :
  unregisterListeners h w = (exec (unregisterListeners h) w, Some tt).
Proof. reflexivity. Qed.

Lemma register_returns h w :
  registerListeners h w = (exec (registerListeners h) w, Some tt).
Proof. reflexivity. Qed.

Lemma step_returns s b ix l w : step s b ix l w = (exec (step s b ix l) w, Some tt).
Proof. reflexivity. Qed.

Lemma St_step reg fin s b ix l d w :
  St reg fin None d w -> St reg fin (Some s) d (exec (step s b ix l) w).
Proof.
  intros H. pose proof (timersOK_step s b ix l w (st_timers _ _ _ _ _ H)) as Ht.
  destruct H as [H1 H2 H3 H4 H5 H6 H7]. split; try exact Ht; try assumption.
  unfold exec, step, setTimeout. mrun.
  rewrite !doneIn_other by discriminate. exact H7.
Qed.

Section Callbacks.
Context (d : list nat) (callCb : M unit).
Hypothesis callCb_post : forall w, St None 0 None d w -> Post d (exec callCb w).

Lemma Post_loopFrom n : forall s ix l w,
  St (Some (HScan s)) 0 None d w -> Post d (exec (loopFrom n callCb s ix l) w).
Proof.
  induction n as [|n IH]; intros s ix l w H; simpl;
    (destruct (menu s) as [m|]; [|apply (Post_scanning s), St_weaken, H]);
    (destruct (isLoopOver l);
      [rewrite (exec_bind _ _ tt) by apply unregister_returns;
       apply callCb_post, St_unregister, H|]);
    (destruct (ix ≫= _) as [b|]; [|apply (Post_scanning s), St_weaken, H]);
    unfold exec, bind at 1, isEmpty, gets;
    (destruct (bool_decide _);
      [|apply (Post_scanning s), St_step, H]).
  - apply (Post_scanning s), St_weaken, H.
  - apply IH, H.
Qed.


Lemma Post_scanMenuWith m k w :
  St None 0 None d w -> Post d (exec (scanMenuWith callCb m k) w).
Proof.
  intros H. unfold exec. rewrite scanMenuWith_open.
  change (Post d (exec (bind (do s <- enter m k; register s;;; ret s)
                         (fun s => loop callCb s (Some 0) 0)) w)).
  rewrite (exec_bind _ _ (mkScan (nextScan w) m k)) by reflexivity.
  apply Post_loopFrom.
  change (St (Some (HScan (mkScan (nextScan w) m k))) 0 None d
            (exec (registerListeners (HScan (mkScan (nextScan w) m k)))
               (set_vars (<[nextScan w := blank]> (vars w))
                  (set_nextScan (S (nextScan w)) w)))).
  apply St_register.
  destruct H as [H1 H2 H3 H4 H5 H6 H7]. split; assumption.
Qed.

End Callbacks.


Lemma pressStop_quiet s d w :
  St (Some (HScan s)) 0 (Some s) d w -> St None 0 None d (task (pressStop s) w).
Proof.
  intros H. unfold task, pressStop, unregister.
  pose proof (St_unregister _ _ _ _ _ H) as H1.
  unfold bind at 1. rewrite unregister_returns.
  set (w1 := exec (unregisterListeners (HScan s)) w) in *. clearbody w1.
  unfold bind at 1, getVars, gets.
  destruct (currentButton (varsOf w1 (sid s))) as [b|] eqn:Eb.
  - mrun. apply St_log; [|discriminate]. apply St_log; [|discriminate].
    apply (St_same _ _ _ _
             (set_timers (cleared (timeout (varsOf w1 (sid s))) (timers
                (set_log (log w1 ++ [EToggle (bid b)]) w1)))
                (set_log (log w1 ++ [EToggle (bid b)]) w1)));
      [|reflexivity..].
    apply (St_disarm None 0 s d (set_log (log w1 ++ [EToggle (bid b)]) w1)).
    apply St_log; [exact H1 | discriminate].
  - mrun. apply St_log; [|discriminate].
    destruct H1 as [C1 C2 C3 C4 C5 C6 C7]. split; try assumption.
    eapply timersOK_no_current; eassumption.
Qed.


(** ** Callbacks and handlers keep the scanner in shape *)

Lemma St_listen d w :
  St None 0 None d w ->
  St (Some (HListen (nextListen w))) 0 None d (exec listen w).
Proof.
  intros [H1 H2 H3 H4 H5 H6 H7].
  unfold exec, listen, registerListeners, notePeak, addListener, addEventListener.
  mrun. rewrite H1, H2, H3. simpl.
  split; simpl; try assumption; try reflexivity.
  - lia.
  - rewrite !doneIn_other by discriminate. exact H7.
Qed.

Section Invoking.
Variable getMenus : string -> option Menu.
Variable mainMenu : option Menu.

Lemma Post_invoke k : forall d w,
  St None 0 None d w -> Post d (exec (invoke getMenus k) w).
Proof.
  induction k as [c| |m k IH|b k IH|b k IH]; intros d w H; simpl.
  - apply (Post_called d (d ++ [c])). apply St_done, H.
  - apply (Post_listening (nextListen w)), St_listen, H.
  - apply Post_scanMenuWith; [|exact H]. intros w'. apply IH.
  - unfold selectsDropdownMenu.
    destruct (bool_decide (buttonType b = "menuSelector")).
    + destruct (getTargetMenu getMenus b) as [t|]; [|apply Post_quiet, H].
      unfold exec, bind at 1, ret.
      destruct (bool_decide (hide t = "dropdown")).
      * unfold bind at 1, slideUp, emitLog, modify.
        apply IH. apply St_log; [exact H | discriminate].
      * unfold bind at 1, ret. apply IH, H.
    + unfold exec, bind at 1, ret. unfold bind at 1, ret. apply IH, H.
  - apply Post_scanMenuWith; [|exact H]. intros w'. apply IH.
Qed.






End Invoking.

(** ** Every event keeps the scanner in shape *)

Lemma St_logged reg fin tm d l w :
  St reg fin tm d w -> doneIn l = doneIn (log w) -> St reg fin tm d (set_log l w).
Proof.
  intros [H1 H2 H3 H4 H5 H6 H7] Hl. split; simpl; try assumption. congruence.
Qed.

Section Events.
Variable getMenus : string -> option Menu.
Variable mainMenu : option Menu.


Lemma emitEnd_single h w :
  endL w = [h] -> emitEnd getMenus mainMenu w = onEnd getMenus mainMenu h w.
Proof.
  intros He. unfold emitEnd, bind at 1, gets. rewrite He. apply callAll_single.
Qed.

Lemma stop_single h w :
  stopL w = [h] -> handle getMenus mainMenu StopClick w = task (onStop h) w.
Proof. intros Hs. simpl. rewrite Hs. simpl. rewrite Hs. simpl. rewrite same_fn_refl. reflexivity. Qed.

Lemma handle_gesture_none e w :
  unregistered w -> e = GestureBegin \/ e = GestureEnd \/ e = StopClick ->
  handle getMenus mainMenu e w = w.
Proof.
  intros (Hb & He & Hs) [-> | [-> | ->]]; simpl.
  - unfold task, emitBegin, bind, gets. rewrite Hb. reflexivity.
  - unfold task, emitEnd, bind, gets. rewrite He. reflexivity.
  - rewrite Hs. reflexivity.
Qed.

Lemma St_unregistered fin tm d w : St None fin tm d w -> unregistered w.
Proof. intros [H1 H2 H3 _ _ _ _]. repeat split; assumption. Qed.



Lemma emitFinished_none b w :
  finishedL w = [] -> task (emitFinished getMenus b) w = w.
Proof. intros Hf. unfold task, emitFinished, bind, gets. rewrite Hf. reflexivity. Qed.

(** Only warning timers can run where no step timer is pending. *)
Lemma St_fire_warning reg fin tm d tid due w :
  St reg fin tm d w -> timers w !! tid = Some (due, TSignalLongGaze) ->
  St reg fin tm d (handle getMenus mainMenu (Fire tid) w).
Proof.
  intros H Ht. simpl. rewrite Ht. destruct (due <=? now w)%Z; [|exact H].
  unfold task, runTimer, signalLongGaze, beep. mrun.
  apply St_logged; [apply (St_cleared _ _ _ _ (Some tid)), H|].
  simpl. apply doneIn_other. discriminate.
Qed.

Lemma St_fire reg fin d tid w :
  St reg fin None d w -> St reg fin None d (handle getMenus mainMenu (Fire tid) w).
Proof.
  intros H. destruct (timers w !! tid) as [[due a]|] eqn:Ht.
  - destruct a as [|s b ix l]; [eapply St_fire_warning; eassumption|].
    destruct (st_timers _ _ _ _ _ H tid due _ Ht). discriminate.
  - simpl. rewrite Ht. exact H.
Qed.

(** Nothing is going on: it stays so, whatever happens. *)
Lemma quiet_handle d e w :
  St None 0 None d w -> St None 0 None d (handle getMenus mainMenu e w).
Proof.
  intros H. destruct e as [| | |tid|dt|b|b v].
  - rewrite handle_gesture_none; [exact H | eapply St_unregistered, H | auto].
  - rewrite handle_gesture_none; [exact H | eapply St_unregistered, H | auto].
  - rewrite handle_gesture_none; [exact H | eapply St_unregistered, H | auto].
  - apply St_fire, H.
  - apply St_now, H.
  - simpl. rewrite emitFinished_none; [exact H|].
    apply nil_length_inv, H.
  - apply St_value, H.
Qed.






Lemma Inv_initial speed val : St None 0 None [] (initial speed val).
Proof.
  split; simpl; try reflexivity; [lia|].
  intros tid due a Ha. simpl in Ha. rewrite lookup_empty in Ha. discriminate.
Qed.

End Events.

(** ** One set of listeners; the stop button *)

Section OneSet.
Variable getMenus : string -> option Menu.
Variable mainMenu : option Menu.


Lemma Inv_scanMenu speed val m k :
  Inv (exec (scanMenu getMenus m k) (initial speed val)).
Proof. apply (Post_invoke getMenus (KRescan m k) []), Inv_initial. Qed.




(** Where nothing is going on, an event can only make a warning timer
    beep. *)
Lemma quiet_handle_frame d e w :
  St None 0 None d w ->
  let w' := handle getMenus mainMenu e w in
  nextScan w' = nextScan w /\ nextListen w' = nextListen w /\
  exists l, log w' = log w ++ l /\
            Forall (fun x => x = EBeep BEEP_FREQ BEEP_DURATION) l.
Proof.
  intros H.
  assert (Hsame : forall w', w' = w ->
            nextScan w' = nextScan w /\ nextListen w' = nextListen w /\
            exists l, log w' = log w ++ l /\
                      Forall (fun x => x = EBeep BEEP_FREQ BEEP_DURATION) l).
  { intros w' ->. repeat split. exists []. rewrite app_nil_r. auto. }
  destruct e as [| | |tid|dt|b|b v].
  - apply Hsame, handle_gesture_none; [eapply St_unregistered, H | auto].
  - apply Hsame, handle_gesture_none; [eapply St_unregistered, H | auto].
  - apply Hsame, handle_gesture_none; [eapply St_unregistered, H | auto].
  - simpl. destruct (timers w !! tid) as [[due a]|] eqn:Ht; [|apply Hsame; reflexivity].
    destruct a as [|s b ix l].
    + destruct (due <=? now w)%Z; [|apply Hsame; reflexivity].
      repeat split. exists [EBeep BEEP_FREQ BEEP_DURATION]. split; [reflexivity|].
      constructor; auto.
    + destruct (st_timers _ _ _ _ _ H tid due _ Ht). discriminate.
  - simpl. repeat split. exists []. rewrite app_nil_r. auto.
  - apply Hsame. simpl. apply emitFinished_none, nil_length_inv, H.
  - simpl. repeat split. exists []. rewrite app_nil_r. auto.
Qed.

Lemma quiet_run_frame d es : forall w,
  St None 0 None d w ->
  St None 0 None d (run getMenus mainMenu es w) /\
  nextScan (run getMenus mainMenu es w) = nextScan w /\
  nextListen (run getMenus mainMenu es w) = nextListen w /\
  exists l, log (run getMenus mainMenu es w) = log w ++ l /\
            Forall (fun x => x = EBeep BEEP_FREQ BEEP_DURATION) l.
Proof.
  induction es as [|e es IH]; intros w H.
  - simpl. repeat split; try apply H. exists []. rewrite app_nil_r. auto.
  - change (run getMenus mainMenu (e :: es) w)
      with (run getMenus mainMenu es (handle getMenus mainMenu e w)).
    pose proof (quiet_handle getMenus mainMenu d e w H) as H1.
    destruct (quiet_handle_frame d e w H) as (E1 & E2 & l1 & E3 & F1).
    destruct (IH _ H1) as (K & E4 & E5 & l2 & E6 & F2).
    split; [exact K|]. split; [congruence|]. split; [congruence|].
    exists (l1 ++ l2). split; [|apply Forall_app; auto].
    rewrite E6, E3, app_assoc. reflexivity.
Qed.

(** What [pressStop] does in a live invocation that has a current
    button. *)
Lemma stop_result s b w :
  live s w -> currentButton (varsOf w (sid s)) = Some b ->
  let w' := handle getMenus mainMenu StopClick w in
  unregistered w' /\
  log w' = log w ++ [EToggle (bid b); EMode "idle"; ESpeak "stopping."] /\
  timers w' = cleared (timeout (varsOf w (sid s))) (timers w) /\
  nextScan w' = nextScan w /\ nextListen w' = nextListen w.
Proof.
  intros Hl Hc. pose proof Hl as (Hb & He & Hs).
  cbv zeta. rewrite (stop_single _ _ (HScan s)) by exact Hs.
  unfold task, onStop, pressStop, unregister, unregisterListeners, removeEventListener.
  mrun. rewrite Hb, He, Hs, !removeListener_single.
  autorewrite with world. rewrite Hc. simpl.
  unfold unregistered. simpl. rewrite <- !app_assoc. auto.
Qed.

(** C8.  The stop button is clicked while invocation [s] is live and has
    a current button [b].  The handler takes the three listeners off,
    toggles [b], clears the step timer, puts the detector in idle mode
    and says "stopping."; nothing else is logged, so [cb] is not called.
    From then on no step timer is pending and, whatever events follow,
    no listener is registered, no invocation of [scanMenu] or [listen]
    starts and the only calls on the collaborators are beeps of warning
    timers still pending: [cb] is never called. *)
Theorem stop_ends_scan_without_callback w s b :
  Inv w ->
  live s w ->
  currentButton (varsOf w (sid s)) = Some b ->
  let w' := handle getMenus mainMenu StopClick w in
  unregistered w' /\
  log w' = log w ++ [EToggle (bid b); EMode "idle"; ESpeak "stopping."] /\
  timers w' = cleared (timeout (varsOf w (sid s))) (timers w) /\
  (forall tid due a, timers w' !! tid = Some (due, a) -> a = TSignalLongGaze) /\
  forall es,
    let w'' := run getMenus mainMenu es w' in
    unregistered w'' /\ finishedL w'' = [] /\
    nextScan w'' = nextScan w /\ nextListen w'' = nextListen w /\
    exists l, log w'' = log w' ++ l /\
              Forall (fun x => x = EBeep BEEP_FREQ BEEP_DURATION) l.
Proof.
  intros HI Hl Hc w'.
  destruct (stop_result s b w Hl Hc) as (U & L & T & N1 & N2). fold w' in U, L, T, N1, N2.
  assert (Hq : St None 0 None (doneIn (log w)) w').
  { destruct Hl as (Hb & _). destruct HI as (d & [[s' H]|[[i H]|[H|H]]]);
      pose proof (st_begin _ _ _ _ _ H) as Hb'; rewrite Hb in Hb'; try discriminate.
    injection Hb' as ->. rewrite (st_done _ _ _ _ _ H).
    unfold w'. rewrite (stop_single _ _ (HScan s')) by apply H.
    apply pressStop_quiet, H. }
  split; [exact U|]. split; [exact L|]. split; [exact T|]. split.
  - intros tid due a Ha. destruct a as [|s' b' ix l]; [reflexivity|].
    destruct (st_timers _ _ _ _ _ Hq tid due _ Ha). discriminate.
  - intros es w''.
    destruct (quiet_run_frame _ es w' Hq) as (K & E1 & E2 & l & E3 & F).
    fold w'' in K, E1, E2, E3.
    split; [eapply St_unregistered, K|]. split; [apply nil_length_inv, K|].
    split; [congruence|]. split; [congruence|]. exists l. auto.
Qed.

End OneSet.

(** ** The callback handed to a pressed button *)

Section ButtonCallback.
Variable getMenus : string -> option Menu.

Lemma invoke_KScanTarget b k :
  invoke getMenus (KScanTarget b k) =
  scanMenu getMenus (getTargetMenu getMenus b) k.
Proof. reflexivity. Qed.

Lemma invoke_KAfterTarget b k :
  invoke getMenus (KAfterTarget b k) =
  (do d <- selectsDropdownMenu getMenus b;
   (if d then
      match getTargetMenu getMenus b with
      | Some t => slideUp t
      | None => throw
      end
    else ret tt) ;;;
   invoke getMenus k).
Proof. reflexivity. Qed.

(** C6.  For a button [b] pressed in an invocation scanning [m] with
    callback [cb], [makeButtonCallback] returns a callback [k].  Write
    [outer] for: scan [m] again with the same [cb] when the scan type of
    [m] is "repeat", call [cb] otherwise.  If [b] is not a menu selector,
    calling [k] is [outer].  If [b] is a menu selector whose target [t] is
    in the registry, calling [k] is [scanMenu] on [t] with a callback
    that slides [t] up when [t] is a dropdown menu and then does
    [outer]. *)
Theorem makeButtonCallback_continuation s m b :
  menu s = Some m ->
  let outer :=
    if bool_decide (scanType m = "repeat")
    then scanMenu getMenus (Some m) (cb s)
    else invoke getMenus (cb s) in
  exists k,
    makeButtonCallback s (Some b) = ret k /\
    (buttonType b <> "menuSelector" -> invoke getMenus k = outer) /\
    (buttonType b = "menuSelector" ->
     forall t, getMenus (target b) = Some t ->
     exists after,
       invoke getMenus k = scanMenu getMenus (Some t) after /\
       forall w,
         invoke getMenus after w =
         (if bool_decide (hide t = "dropdown")
          then (slideUp t ;;; outer) w
          else outer w)).
Proof.
  intros Hm outer. exists (buttonCallback m (cb s) b).
  split; [unfold makeButtonCallback; rewrite Hm; reflexivity|].
  unfold buttonCallback, outer. clear outer. split.
  - intros Hb. rewrite bool_decide_eq_false_2 by exact Hb.
    destruct (bool_decide (scanType m = "repeat")); reflexivity.
  - intros Hb t Ht.
    assert (Et : getTargetMenu getMenus b = Some t).
    { unfold getTargetMenu. rewrite bool_decide_eq_true_2 by exact Hb. exact Ht. }
    assert (Eb : bool_decide (buttonType b = "menuSelector") = true)
      by (apply bool_decide_eq_true_2, Hb).
    rewrite Eb.
    exists (KAfterTarget b (if bool_decide (scanType m = "repeat")
                            then KRescan (Some m) (cb s) else cb s)).
    split.
    + rewrite invoke_KScanTarget, Et. reflexivity.
    + intros w. rewrite invoke_KAfterTarget. unfold selectsDropdownMenu.
      rewrite Eb, Et. unfold bind at 1, ret.
      destruct (bool_decide (hide t = "dropdown"));
        destruct (bool_decide (scanType m = "repeat")); reflexivity.
Qed.

End ButtonCallback.

(** ** A scan that nobody interrupts *)

Lemma leading_length val bs : length (leading val bs) <= length bs.
Proof.
  induction bs as [|b r IH]; simpl; [lia|].
  destruct (bool_decide _); simpl; lia.
Qed.

(** Inside the leading part: the button of the menu, and it is not
    empty. *)
Lemma leading_lookup val bs i b :
  leading val bs !! i = Some b -> bs !! i = Some b /\ val (bid b) <> "".
Proof.
  revert i. induction bs as [|x r IH]; intros i; simpl; [discriminate|].
  destruct (bool_decide_reflect (val (bid x) = "")) as [|Hx]; [discriminate|].
  destruct i as [|i]; simpl.
  - intros [= ->]. auto.
  - apply IH.
Qed.

(** Right after the leading part comes an empty button, if anything. *)
Lemma leading_stop val bs :
  length (leading val bs) < length bs ->
  exists e, bs !! length (leading val bs) = Some e /\ val (bid e) = "".
Proof.
  induction bs as [|x r IH]; simpl; [lia|].
  destruct (bool_decide_reflect (val (bid x) = "")) as [Hx|Hx]; simpl.
  - intros _. eauto.
  - intros H. apply IH. lia.
Qed.

Lemma leading_all val bs :
  Forall (fun b => val (bid b) <> "") bs -> leading val bs = bs.
Proof.
  induction 1 as [|b r Hb _ IH]; simpl; [reflexivity|].
  rewrite bool_decide_eq_false_2 by exact Hb. rewrite IH. reflexivity.
Qed.

Lemma nextTimerToRun_single w tid x :
  timers w = {[tid := x]} -> nextTimerToRun w = Some (tid, x).
Proof. intros E. unfold nextTimerToRun. rewrite E, map_to_list_singleton. reflexivity. Qed.

Lemma nextTimerToRun_none w : timers w = ∅ -> nextTimerToRun w = None.
Proof. intros E. unfold nextTimerToRun. rewrite E, map_to_list_empty. reflexivity. Qed.

Section Sweep.
Variable getMenus : string -> option Menu.
Variable mainMenu : option Menu.

Lemma idle_none n w : timers w = ∅ -> idle getMenus mainMenu n w = w.
Proof.
  intros E. induction n as [|n IH]; simpl; [reflexivity|].
  unfold idleStep. rewrite nextTimerToRun_none by exact E. exact IH.
Qed.

Lemma idle_add n k w :
  idle getMenus mainMenu (n + k) w = idle getMenus mainMenu k (idle getMenus mainMenu n w).
Proof. revert w. induction n as [|n IH]; intros w; simpl; [reflexivity | apply IH]. Qed.

Lemma idle_S n w :
  idle getMenus mainMenu (S n) w = idleStep getMenus mainMenu (idle getMenus mainMenu n w).
Proof. replace (S n) with (n + 1) by lia. rewrite idle_add. reflexivity. Qed.

(** When the only pending timer is the step timer, the next thing that
    happens is its [next]. *)
Lemma idleStep_next w tid due s b ix l :
  timers w = {[tid := (due, TNext s b ix l)]} ->
  idleStep getMenus mainMenu w =
  task (next (invoke getMenus (cb s)) s b ix l)
       (set_timers ∅ (set_now (now w + Z.max 0 (due - now w))%Z w)).
Proof.
  intros E. unfold idleStep. rewrite (nextTimerToRun_single _ _ _ E).
  simpl. rewrite E, lookup_singleton_eq.
  destruct (Z.leb_spec due (now w + Z.max 0 (due - now w))%Z) as [_|?]; [|lia].
  unfold cleared. rewrite delete_singleton_eq. reflexivity.
Qed.

End Sweep.

(** The three things [loop] can do at a button. *)
Lemma loopFrom_over d callCb s m ix l :
  menu s = Some m -> isLoopOver l = true ->
  loopFrom d callCb s ix l = (unregister s ;;; callCb).
Proof. intros Hm Hl. destruct d; simpl; rewrite Hm, Hl; reflexivity. Qed.

Lemma loopFrom_step d callCb s m j l b w :
  menu s = Some m -> isLoopOver l = false ->
  getButtons m !! j = Some b -> value w (bid b) <> "" ->
  loopFrom d callCb s (Some j) l w = step s b (Some j) l w.
Proof.
  intros Hm Hl Hb Hv. destruct d; simpl; rewrite Hm, Hl, Hb;
    unfold bind at 1, isEmpty, gets; rewrite bool_decide_eq_false_2 by exact Hv;
    reflexivity.
Qed.

Lemma loopFrom_skip d callCb s m j l e w :
  menu s = Some m -> isLoopOver l = false ->
  getButtons m !! j = Some e -> value w (bid e) = "" ->
  loopFrom (S d) callCb s (Some j) l w = loopFrom d callCb s (Some 0) (l + 1) w.
Proof.
  intros Hm Hl Hb Hv. simpl. rewrite Hm, Hl, Hb.
  unfold bind at 1, isEmpty, gets. rewrite bool_decide_eq_true_2 by exact Hv.
  reflexivity.
Qed.

(** A step taken where no timer is pending: the step timer is the only
    timer. *)
Lemma step_result s b ix l w :
  timers w = ∅ ->
  let w' := exec (step s b ix l) w in
  (exists tid due, timers w' = {[tid := (due, TNext s b ix l)]}) /\
  log w' = log w ++ [EToggle (bid b); EAnnounce (bid b)] /\
  beginL w' = beginL w /\ endL w' = endL w /\ stopL w' = stopL w /\
  value w' = value w /\ finishedL w' = finishedL w.
Proof.
  intros E. unfold exec, step, setTimeout. mrun. rewrite E, insert_empty.
  rewrite <- app_assoc. repeat split; eauto.
Qed.

Section Sweep2.
Variable getMenus : string -> option Menu.
Variable mainMenu : option Menu.
Context (s : Scan) (m : Menu) (callCb : M unit).
Hypothesis s_menu : menu s = Some m.

Let pre (w : World) := leading (value w) (getButtons m).

(** Where [next] goes from position [ix] of loop [l]: to the following
    button of the leading part, or back to the first button in the next
    loop, or out when that was the last loop. *)
Lemma loop_after ix l w :
  ix < length (pre w) -> l < N_LOOPS ->
  loop callCb s (nextButton m (Some ix)) (nextLoop m (Some ix) l) w =
  match pre w !! (ix + 1) with
  | Some b' => step s b' (Some (ix + 1)) l w
  | None =>
      if Nat.ltb (l + 1) N_LOOPS
      then match pre w !! 0 with
           | Some b0 => step s b0 (Some 0) (l + 1) w
           | None => (w, None)
           end
      else (unregister s ;;; callCb) w
  end.
Proof.
  intros Hix Hl. unfold pre in *.
  pose proof (leading_length (value w) (getButtons m)) as Hle.
  set (p := length (leading (value w) (getButtons m))) in *.
  assert (Hn : getNButtons m <> 0) by (unfold getNButtons; lia).
  assert (Hlo : isLoopOver l = false)
    by (unfold isLoopOver; apply Nat.eqb_neq; lia).
  destruct (leading (value w) (getButtons m) !! 0) as [b0|] eqn:E0.
  2:{ apply lookup_ge_None in E0. fold p in E0. lia. }
  apply leading_lookup in E0 as [E0 V0].
  unfold nextButton, nextLoop, isLastButton, loop.
  rewrite (proj2 (Nat.eqb_neq _ _) Hn).
  destruct (leading (value w) (getButtons m) !! (ix + 1)) as [b'|] eqn:E1.
  - (* the following button *)
    pose proof (lookup_lt_Some _ _ _ E1) as H1. fold p in H1.
    apply leading_lookup in E1 as [E1 V1].
    rewrite Nat.mod_small by (unfold getNButtons; lia).
    rewrite bool_decide_eq_false_2 by (unfold getNButtons; lia).
    eapply loopFrom_step; eassumption.
  - (* the leading part is over *)
    apply lookup_ge_None in E1. fold p in E1.
    assert (Hp : ix + 1 = p) by lia.
    assert (Hwrap : forall j l', (j = 0 /\ l' = l + 1) \/
                (j = p /\ l' = l /\ p < length (getButtons m)) ->
              loopFrom N_LOOPS callCb s (Some j) l' w =
              (if Nat.ltb (l + 1) N_LOOPS then step s b0 (Some 0) (l + 1) w
               else (unregister s ;;; callCb) w)).
    { assert (Hland : loopFrom 1 callCb s (Some 0) (l + 1) w =
              (if Nat.ltb (l + 1) N_LOOPS then step s b0 (Some 0) (l + 1) w
               else (unregister s ;;; callCb) w)).
      { destruct (Nat.ltb_spec (l + 1) N_LOOPS) as [Hlt|Hge].
        - eapply loopFrom_step; try eassumption.
          unfold isLoopOver. apply Nat.eqb_neq. lia.
        - rewrite (loopFrom_over _ _ _ m) by
            (try exact s_menu; unfold isLoopOver; apply Nat.eqb_eq; lia).
          reflexivity. }
      intros j l' [[-> ->]|(-> & -> & Hlt)].
      - destruct (Nat.ltb_spec (l + 1) N_LOOPS) as [Hlt|Hge].
        + eapply loopFrom_step; try eassumption.
          unfold isLoopOver. apply Nat.eqb_neq. lia.
        + rewrite (loopFrom_over _ _ _ m) by
            (try exact s_menu; unfold isLoopOver; apply Nat.eqb_eq; lia).
          reflexivity.
      - destruct (leading_stop (value w) (getButtons m) Hlt) as (e & Ee & Ve).
        fold p in Ee. unfold N_LOOPS at 1.
        rewrite (loopFrom_skip _ _ _ m _ _ e) by assumption. exact Hland. }
    destruct (decide (p = length (getButtons m))) as [Hfull|Hpart].
    + rewrite bool_decide_eq_true_2 by (unfold getNButtons; lia).
      replace ((ix + 1) mod getNButtons m) with 0
        by (unfold getNButtons; rewrite Hp, Hfull, Nat.Div0.mod_same; reflexivity).
      apply Hwrap. left. auto.
    + rewrite bool_decide_eq_false_2 by (unfold getNButtons; lia).
      rewrite Nat.mod_small by (unfold getNButtons; lia). rewrite Hp.
      apply Hwrap. right. repeat split; lia.
Qed.

End Sweep2.

Section Sweep3.
Variable getMenus : string -> option Menu.
Variable mainMenu : option Menu.
Context (m : Menu) (c : nat) (w0 : World).
Hypothesis some_button : getButtons m <> [].
Hypothesis no_timer : timers w0 = ∅.
Hypothesis nobody : unregistered w0.

Let pre := leading (value w0) (getButtons m).
Let p := length pre.
Let s := mkScan (nextScan w0) (Some m) (KDone c).
Let w1 := exec (scanMenu getMenus (Some m) (KDone c)) w0.

(** The scan at its [j]th visit: either it waits at a button of the
    leading part, with the step timer as the only timer, or it is over
    and the callback was called. *)
Let visiting (j : nat) (w : World) : Prop :=
  exists ix l b tid due,
    j = l * p + ix /\ ix < p /\ l < N_LOOPS /\ pre !! ix = Some b /\
    live s w /\ timers w = {[tid := (due, TNext s b (Some ix) l)]} /\
    log w = log w0 ++ concat (map visitLog (take j (pre ++ pre))) ++
            [EToggle (bid b); EAnnounce (bid b)].

Let finished (w : World) : Prop :=
  unregistered w /\ timers w = ∅ /\
  log w = log w0 ++ concat (map visitLog (pre ++ pre)) ++ [EDone c].

Lemma visits_lookup ix l :
  ix < p -> l < N_LOOPS -> (pre ++ pre) !! (l * p + ix) = pre !! ix.
Proof.
  intros Hix Hl. unfold N_LOOPS in Hl. destruct l as [|[|l]]; [| |lia].
  - simpl. apply lookup_app_l. exact Hix.
  - rewrite lookup_app_r by (fold p; lia). f_equal. fold p. lia.
Qed.

(** The outcome of [loop_after], as a state of the scan. *)
Lemma arrive ix l b j w :
  j = l * p + ix -> ix < p -> l < N_LOOPS -> pre !! ix = Some b ->
  live s w -> timers w = ∅ -> value w = value w0 ->
  finishedL w = finishedL w0 ->
  log w = log w0 ++ concat (map visitLog (take (S j) (pre ++ pre))) ->
  let w' := task (loop (invoke getMenus (KDone c)) s
                    (nextButton m (Some ix)) (nextLoop m (Some ix) l)) w in
  value w' = value w0 /\ finishedL w' = finishedL w0 /\
  (visiting (S j) w' \/ (S j = 2 * p /\ finished w')).
Proof.
  intros Hj Hix Hl Hb Hlive Ht Hv Hf Hlog w'. unfold w', task.
  rewrite (loop_after s m _ eq_refl) by (rewrite ?Hv; assumption).
  rewrite Hv. fold pre.
  destruct (pre !! (ix + 1)) as [b'|] eqn:E1.
  - rewrite step_returns.
    destruct (step_result s b' (Some (ix + 1)) l w Ht)
      as ((tid & due & T) & L & B & E & S & V & F).
    split; [congruence|]. split; [congruence|]. left.
    exists (ix + 1), l, b', tid, due.
    pose proof (lookup_lt_Some _ _ _ E1). fold p in H.
    repeat split; try assumption; try lia; try (unfold live in *; intuition congruence).
    rewrite L, Hlog, <- app_assoc. reflexivity.
  - apply lookup_ge_None in E1. fold p in E1.
    destruct (Nat.ltb_spec (l + 1) N_LOOPS) as [Hlt|Hge].
    + destruct (pre !! 0) as [b0|] eqn:E0.
      2:{ apply lookup_ge_None in E0. fold p in E0. lia. }
      rewrite step_returns.
      destruct (step_result s b0 (Some 0) (l + 1) w Ht)
        as ((tid & due & T) & L & B & E & S & V & F).
      split; [congruence|]. split; [congruence|]. left.
      exists 0, (l + 1), b0, tid, due.
      repeat split; try assumption; try lia; try (unfold live in *; intuition congruence).
      rewrite L, Hlog, <- app_assoc. reflexivity.
    + unfold N_LOOPS in *. assert (l = 1) by lia. subst l.
      unfold bind. rewrite (unregister_live s w Hlive). simpl.
      split; [exact Hv|]. split; [exact Hf|]. right.
      split; [lia|]. unfold finished, unregistered. simpl.
      repeat split; try assumption.
      rewrite Hlog. rewrite take_ge by (rewrite length_app; fold p; lia).
      rewrite <- app_assoc. reflexivity.
Qed.

Lemma sweep_start :
  value w1 = value w0 /\ finishedL w1 = finishedL w0 /\
  nextScan w1 = S (nextScan w0) /\
  (visiting 0 w1 \/ (p = 0 /\ finished w1)).
Proof.
  destruct nobody as (Nb & Ne & Ns).
  set (wa := exec (bind (enter (Some m) (KDone c)) register) w0).
  assert (La : live s wa).
  { unfold wa, exec, enter, register, registerListeners, notePeak, addListener,
      addEventListener. mrun. rewrite Nb, Ne, Ns. repeat split. }
  assert (Ta : timers wa = ∅) by exact no_timer.
  assert (Va : value wa = value w0) by reflexivity.
  assert (Fa : finishedL wa = finishedL w0) by reflexivity.
  assert (Ga : log wa = log w0) by reflexivity.
  assert (Na : nextScan wa = S (nextScan w0)) by reflexivity.
  assert (E : w1 = exec (loop (invoke getMenus (KDone c)) s (Some 0) 0) wa)
    by reflexivity.
  rewrite E. clear E. clearbody wa.
  assert (Hlo : forall l, l < N_LOOPS -> isLoopOver l = false)
    by (intros l Hl; unfold isLoopOver; apply Nat.eqb_neq; lia).
  destruct (pre !! 0) as [b0|] eqn:E0.
  - pose proof (lookup_lt_Some _ _ _ E0) as Hp. fold p in Hp.
    pose proof E0 as E0c.
    apply leading_lookup in E0 as [E0' V0]. rewrite <- Va in V0.
    unfold exec, loop.
    rewrite (loopFrom_step _ _ _ m 0 0 b0) by
      (try assumption; try reflexivity; apply Hlo; unfold N_LOOPS; lia).
    destruct (step_result s b0 (Some 0) 0 wa Ta)
      as ((tid & due & T) & L & B & E & S & V & F).
    rewrite step_returns. simpl fst.
    split; [congruence|]. split; [congruence|]. split; [exact Na|]. left.
    exists 0, 0, b0, tid, due.
    repeat split; try assumption; try (unfold N_LOOPS; lia);
      try (unfold live in *; intuition congruence).
    rewrite L, Ga. reflexivity.
  - apply lookup_ge_None in E0. fold p in E0. assert (Hp : p = 0) by lia.
    assert (Hlt : length (leading (value wa) (getButtons m)) < length (getButtons m)).
    { rewrite Va. fold pre p. destruct (getButtons m); [contradiction | simpl; lia]. }
    destruct (leading_stop _ _ Hlt) as (e & Ee & Ve).
    rewrite Va in Ee. fold pre p in Ee. rewrite Hp in Ee.
    unfold exec, loop, N_LOOPS.
    rewrite (loopFrom_skip _ _ _ m 0 0 e) by (try assumption; reflexivity).
    rewrite (loopFrom_skip _ _ _ m 0 1 e) by (try assumption; reflexivity).
    rewrite (loopFrom_over _ _ _ m) by (try reflexivity).
    unfold bind. rewrite (unregister_live s wa La). simpl.
    split; [exact Va|]. split; [exact Fa|]. split; [exact Na|]. right.
    split; [exact Hp|]. unfold finished, unregistered. simpl.
    repeat split; try assumption.
    rewrite Ga. apply length_zero_iff_nil in Hp. rewrite Hp. reflexivity.
Qed.

Lemma sweep_inv j :
  j <= N_LOOPS * p ->
  let w := idle getMenus mainMenu j w1 in
  value w = value w0 /\ finishedL w = finishedL w0 /\
  (visiting j w \/ (j = N_LOOPS * p /\ finished w)).
Proof.
  unfold N_LOOPS at 1 2. induction j as [|j IH]; intros Hj.
  - destruct sweep_start as (V & F & _ & [H|[Hp H]]).
    + simpl. auto.
    + simpl. split; [exact V|]. split; [exact F|]. right. split; [lia | exact H].
  - destruct IH as (V & F & [H|[Hp H]]); [lia| |lia].
    rewrite idle_S.
    destruct H as (ix & l & b & tid & due & Ej & Hix & Hl & Hb & Hlive & Ht & Hlog).
    rewrite (idleStep_next _ _ _ tid due s b (Some ix) l Ht).
    set (wt := set_timers ∅ (set_now _ (idle getMenus mainMenu j w1))).
    change (task (next (invoke getMenus (cb s)) s b (Some ix) l) wt)
      with (task (loop (invoke getMenus (KDone c)) s (nextButton m (Some ix))
                    (nextLoop m (Some ix) l))
              (set_log (log wt ++ [EToggle (bid b)]) wt)).
    apply (arrive ix l b j); try assumption; try reflexivity.
    simpl. rewrite Hlog.
    rewrite (take_S_r _ _ b) by (rewrite Ej, visits_lookup; assumption).
    rewrite map_app, concat_app. simpl.
    unfold visitLog. rewrite <- ?app_assoc. simpl. reflexivity.
Qed.

End Sweep3.

Lemma doneIn_visits l : doneIn (concat (map visitLog l)) = [].
Proof. induction l as [|b r IH]; simpl; [reflexivity | exact IH]. Qed.

Lemma pressedIn_visits l : pressedIn (concat (map visitLog l)) = [].
Proof. induction l as [|b r IH]; simpl; [reflexivity | exact IH]. Qed.

Lemma announcedIn_visits l : announcedIn (concat (map visitLog l)) = map bid l.
Proof. induction l as [|b r IH]; simpl; [reflexivity | rewrite IH; reflexivity]. Qed.

Section QuietScan.
Variable getMenus : string -> option Menu.
Variable mainMenu : option Menu.

(** C2, as the code has it.  [scanMenu] is called on a menu with at least
    one button, with a callback from outside, in a world where no timer
    is pending and nobody listens; after that only timers run.  Write [p]
    for the number of buttons before the first empty one.  Then the scan
    makes [N_LOOPS] passes of [p] visits each: before the
    [N_LOOPS * p]-th timer has run the invocation is live, its step timer
    is pending and the callback has not been called; from then on the
    callback has been called exactly once, no listener is registered, no
    timer is pending and no button was pressed.  A menu whose first
    button is empty goes through the same counting of loops without a
    single visit and calls the callback at once.  In a menu without
    empty buttons [p] is the number of its buttons: the passes are full
    passes. *)
Theorem quiet_scan_completes m c w0 :
  getButtons m <> [] ->
  timers w0 = ∅ ->
  unregistered w0 ->
  let p := length (leading (value w0) (getButtons m)) in
  let s := mkScan (nextScan w0) (Some m) (KDone c) in
  let w1 := exec (scanMenu getMenus (Some m) (KDone c)) w0 in
  (forall j, j < N_LOOPS * p ->
     let w := idle getMenus mainMenu j w1 in
     live s w /\ timers w <> ∅ /\ doneIn (log w) = doneIn (log w0)) /\
  (forall n, N_LOOPS * p <= n ->
     let w := idle getMenus mainMenu n w1 in
     unregistered w /\ timers w = ∅ /\
     doneIn (log w) = doneIn (log w0) ++ [c] /\
     pressedIn (log w) = pressedIn (log w0)) /\
  (p = 0 -> log w1 = log w0 ++ [EDone c]) /\
  (Forall (fun b => value w0 (bid b) <> "") (getButtons m) ->
   p = length (getButtons m)).
Proof.
  intros Hn Ht Hu p s w1.
  pose proof (sweep_inv getMenus mainMenu m c w0 Hn Ht Hu) as HI.
  fold p s w1 in HI.
  assert (Hend : let w := idle getMenus mainMenu (N_LOOPS * p) w1 in
            unregistered w /\ timers w = ∅ /\
            log w = log w0 ++
              concat (map visitLog (leading (value w0) (getButtons m) ++
                                    leading (value w0) (getButtons m))) ++ [EDone c]).
  { destruct (HI (N_LOOPS * p) (le_n _)) as (_ & _ & [H|[_ H]]); [|exact H].
    destruct H as (ix & l & _ & _ & _ & Ej & Hix & Hl & _).
    unfold N_LOOPS in *. nia. }
  split; [|split; [|split]].
  - intros j Hj w.
    destruct (HI j) as (_ & _ & [H|[E _]]); [lia| |lia].
    destruct H as (ix & l & b & tid & due & _ & _ & _ & _ & Hlive & HT & Hlog).
    fold w in Hlive, HT, Hlog. split; [exact Hlive|]. split.
    + rewrite HT. intros E. apply (f_equal (fun t => t !! tid)) in E.
      rewrite lookup_singleton_eq, lookup_empty in E. discriminate.
    + rewrite Hlog, !doneIn_app, doneIn_visits. simpl. rewrite app_nil_r. reflexivity.
  - intros n Hle w. destruct Hend as (U & T & L).
    assert (E : w = idle getMenus mainMenu (N_LOOPS * p) w1).
    { unfold w. replace n with (N_LOOPS * p + (n - N_LOOPS * p)) by lia.
      rewrite idle_add. apply idle_none, T. }
    rewrite E. split; [exact U|]. split; [exact T|]. rewrite L. split.
    + rewrite !doneIn_app, doneIn_visits. reflexivity.
    + unfold pressedIn. rewrite !omap_app. fold pressedIn.
      rewrite pressedIn_visits. simpl. rewrite app_nil_r. reflexivity.
  - intros Hp. destruct Hend as (_ & _ & L). rewrite Hp in L. simpl in L.
    fold p in Hp. apply length_zero_iff_nil in Hp. rewrite Hp in L. exact L.
  - intros Hall. unfold p. f_equal. apply leading_all, Hall.
Qed.

(** C4, as the code has it.  In the same setting, each of the [N_LOOPS]
    loops visits the buttons before the first empty one, in menu order,
    once each: a visit highlights the button, announces it and, when its
    wait is over, un-highlights it; the step timer of the visit at index
    [ix] of loop [l] carries these two numbers, so the loop count goes up
    exactly when the visits start again at the first button.  Buttons
    after an empty button are not visited.  Nothing is pressed, and after
    the last visit the callback is called.  A menu without empty buttons
    is visited whole. *)
Theorem quiet_scan_visits_leading_buttons m c w0 :
  getButtons m <> [] ->
  timers w0 = ∅ ->
  unregistered w0 ->
  let pre := leading (value w0) (getButtons m) in
  let p := length pre in
  let s := mkScan (nextScan w0) (Some m) (KDone c) in
  let w1 := exec (scanMenu getMenus (Some m) (KDone c)) w0 in
  let w := idle getMenus mainMenu (N_LOOPS * p) w1 in
  log w = log w0 ++ concat (map visitLog (concat (replicate N_LOOPS pre))) ++ [EDone c] /\
  announcedIn (log w) =
    announcedIn (log w0) ++ map bid (concat (replicate N_LOOPS pre)) /\
  pressedIn (log w) = pressedIn (log w0) /\
  (forall l ix, l < N_LOOPS -> ix < p ->
     exists b tid due,
       pre !! ix = Some b /\
       timers (idle getMenus mainMenu (l * p + ix) w1) =
         {[tid := (due, TNext s b (Some ix) l)]}) /\
  (Forall (fun b => value w0 (bid b) <> "") (getButtons m) -> pre = getButtons m).
Proof.
  intros Hn Ht Hu pre p s w1 w.
  pose proof (sweep_inv getMenus mainMenu m c w0 Hn Ht Hu) as HI.
  fold pre p s w1 in HI.
  assert (L : log w = log w0 ++ concat (map visitLog (pre ++ pre)) ++ [EDone c]).
  { destruct (HI (N_LOOPS * p) (le_n _)) as (_ & _ & [H|[_ H]]); [|apply H].
    destruct H as (ix & l & _ & _ & _ & Ej & Hix & Hl & _).
    unfold N_LOOPS in *. nia. }
  assert (R : concat (replicate N_LOOPS pre) = pre ++ pre)
    by (simpl; rewrite app_nil_r; reflexivity).
  rewrite R. split; [exact L|]. split; [|split; [|split]].
  - rewrite L. unfold announcedIn. rewrite !omap_app. fold announcedIn.
    rewrite announcedIn_visits. simpl. rewrite app_nil_r. reflexivity.
  - rewrite L. unfold pressedIn. rewrite !omap_app. fold pressedIn.
    rewrite pressedIn_visits. simpl. rewrite app_nil_r. reflexivity.
  - intros l ix Hl Hix.
    destruct (HI (l * p + ix)) as (_ & _ & [H|[E _]]).
    + unfold N_LOOPS in *. nia.
    + destruct H as (ix' & l' & b & tid & due & Ej & Hix' & Hl' & Hb & _ & HT & _).
      assert (l' = l /\ ix' = ix) as [-> ->].
      { unfold N_LOOPS in *. clear -Ej Hix Hix' Hl Hl'.
        destruct l as [|[|l]], l' as [|[|l']]; simpl in Ej; try lia; split; lia. }
      eauto.
    + unfold N_LOOPS in *. nia.
  - apply leading_all.
Qed.

End QuietScan.

(** ** The statements on the small commboard *)

Lemma WF_run getMenus mainMenu es w : WF w -> WF (run getMenus mainMenu es w).
Proof.
  apply (run_keeps WF getMenus mainMenu true true (fun _ => False)).
  - intros _. apply WF_BeginOK.
  - intros _. apply WF_EndOK.
  - intros tid w' _. apply WF_cleared.
  - apply Forall_forall. intros [| | |tid|dt|b|b v] _; simpl; auto.
Qed.

Lemma WF_demoScanning : WF demoScanning.
Proof. apply (stable_scanMenu WF), WF_initial. Qed.

Lemma live_demoScanning : live demoScan demoScanning.
Proof. repeat split. Qed.

Lemma gazeEnd_without_begin_is_noop_witness :
  live demoScan demoScanning /\
  noGazeYet (varsOf demoScanning (sid demoScan)) /\
  handle demoMenus None GestureEnd demoScanning = demoScanning.
Proof.
  assert (Hl : live demoScan demoScanning) by exact live_demoScanning.
  assert (Hn : noGazeYet (varsOf demoScanning (sid demoScan))) by (repeat split).
  split; [exact Hl|]. split; [exact Hn|].
  exact (gazeEnd_without_begin_is_noop demoMenus None demoScanning demoScan Hl Hn).
Defined.

(** A gesture that began at time 0 and ends 100 ms later. *)
Lemma brief_gaze_is_ignored_witness :
  let w := run demoMenus None [GestureBegin; Wait 100] demoScanning in
  WF w /\ live demoScan w /\
  startTime (varsOf w (sid demoScan)) = Some 0%Z /\
  (now w - 0 < SHORT_GAZE_TIME)%Z /\
  log (handle demoMenus None GestureEnd w) = log w.
Proof.
  intros w.
  assert (Hwf : WF w) by apply WF_run, WF_demoScanning.
  assert (Hl : live demoScan w) by (repeat split).
  assert (Hs : startTime (varsOf w (sid demoScan)) = Some 0%Z) by reflexivity.
  assert (Hlt : (now w - 0 < SHORT_GAZE_TIME)%Z) by (vm_compute; reflexivity).
  split; [exact Hwf|]. split; [exact Hl|]. split; [exact Hs|]. split; [exact Hlt|].
  exact (proj1 (brief_gaze_is_ignored demoMenus None w demoScan 0%Z Hwf Hl Hs Hlt)).
Defined.

(** The gesture begins on button 1; a second later the step timer moves
    the highlight to button 3; then the gesture ends: button 1 is
    pressed. *)
Lemma short_gaze_presses_button_under_point_witness :
  let es := [Wait 1000; Fire 0] in
  let w2 := run demoMenus None es (handle demoMenus None GestureBegin demoScanning) in
  WF demoScanning /\ live demoScan demoScanning /\
  currentButton (varsOf w2 (sid demoScan)) = Some demoB /\
  live demoScan w2 /\
  pressedIn (log (handle demoMenus None GestureEnd w2)) = pressedIn (log w2) ++ [1].
Proof.
  intros es w2.
  assert (Hm : menu demoScan = Some demoMenu) by reflexivity.
  assert (Hc : currentButton (varsOf demoScanning (sid demoScan)) = Some demoA)
    by reflexivity.
  assert (Hes : Forall (allowed false false (fun _ => False)) es)
    by (repeat constructor; simpl; auto).
  assert (Hl2 : live demoScan w2) by (repeat split).
  assert (Hr : (SHORT_GAZE_TIME <= now w2 - now demoScanning < LONG_GAZE_TIME)%Z)
    by (vm_compute; split; [discriminate | reflexivity]).
  split; [exact WF_demoScanning|]. split; [exact live_demoScanning|].
  split; [reflexivity|]. split; [exact Hl2|].
  exact (proj1 (proj2 (short_gaze_presses_button_under_point demoMenus None
                  demoScanning demoScan demoMenu demoA es
                  WF_demoScanning live_demoScanning Hm Hc Hes Hl2 Hr))).
Defined.

Lemma long_gaze_exits_menu_witness :
  WF demoScanning /\ live demoScan demoScanning /\
  timers (handle demoMenus None GestureBegin demoScanning) !! 1 =
    Some (2000%Z, TSignalLongGaze).
Proof.
  split; [exact WF_demoScanning|]. split; [exact live_demoScanning|].
  exact (proj1 (long_gaze_exits_menu demoMenus None demoScanning demoScan
                  WF_demoScanning live_demoScanning)).
Defined.

Lemma second_begin_orphans_first_warning_witness :
  let es1 := [Wait 100] in
  let w2 := run demoMenus None es1 (handle demoMenus None GestureBegin demoScanning) in
  let w3 := handle demoMenus None GestureBegin w2 in
  WF demoScanning /\ live demoScan demoScanning /\ live demoScan w2 /\
  startTime (varsOf w3 (sid demoScan)) = Some 100%Z.
Proof.
  intros es1 w2 w3.
  assert (Hes : Forall (allowed true false (eq (nextTimer demoScanning))) es1)
    by (repeat constructor; simpl; auto).
  assert (Hl2 : live demoScan w2) by (repeat split).
  split; [exact WF_demoScanning|]. split; [exact live_demoScanning|].
  split; [exact Hl2|].
  exact (proj1 (second_begin_orphans_first_warning demoMenus None demoScanning
                  demoScan es1 WF_demoScanning live_demoScanning Hes Hl2)).
Defined.

Lemma stop_ends_scan_without_callback_witness :
  Inv demoScanning /\ live demoScan demoScanning /\
  currentButton (varsOf demoScanning (sid demoScan)) = Some demoA /\
  unregistered (handle demoMenus None StopClick demoScanning).
Proof.
  assert (Hi : Inv demoScanning) by apply Inv_scanMenu.
  assert (Hc : currentButton (varsOf demoScanning (sid demoScan)) = Some demoA)
    by reflexivity.
  split; [exact Hi|]. split; [exact live_demoScanning|]. split; [exact Hc|].
  exact (proj1 (stop_ends_scan_without_callback demoMenus None demoScanning
                  demoScan demoA Hi live_demoScanning Hc)).
Defined.

(** The selector of the dropdown menu "sub", pressed while [demoMenu] is
    scanned. *)
Lemma makeButtonCallback_continuation_witness :
  menu demoScan = Some demoMenu /\
  exists k, makeButtonCallback demoScan (Some demoSelector) = ret k.
Proof.
  assert (Hm : menu demoScan = Some demoMenu) by reflexivity.
  split; [exact Hm|].
  destruct (makeButtonCallback_continuation demoMenus demoScan demoMenu
              demoSelector Hm) as (k & Hk & _).
  exists k. exact Hk.
Defined.

Lemma quiet_scan_completes_witness :
  getButtons gapMenu <> [] /\ timers demoWorld = ∅ /\ unregistered demoWorld /\
  doneIn (log (idle demoMenus None 2
                 (exec (scanMenu demoMenus (Some gapMenu) (KDone 7)) demoWorld))) = [7].
Proof.
  assert (Hn : getButtons gapMenu <> []) by discriminate.
  assert (Ht : timers demoWorld = ∅) by reflexivity.
  assert (Hu : unregistered demoWorld) by (repeat split).
  split; [exact Hn|]. split; [exact Ht|]. split; [exact Hu|].
  exact (proj1 (proj2 (proj2 (proj1 (proj2
           (quiet_scan_completes demoMenus None gapMenu 7 demoWorld Hn Ht Hu))
           2 (le_n 2))))).
Defined.

Lemma quiet_scan_visits_leading_buttons_witness :
  getButtons demoMenu <> [] /\ timers demoWorld = ∅ /\ unregistered demoWorld /\
  announcedIn (log (idle demoMenus None 4 demoScanning)) = [1; 3; 1; 3].
Proof.
  assert (Hn : getButtons demoMenu <> []) by discriminate.
  assert (Ht : timers demoWorld = ∅) by reflexivity.
  assert (Hu : unregistered demoWorld) by (repeat split).
  split; [exact Hn|]. split; [exact Ht|]. split; [exact Hu|].
  exact (proj1 (proj2
           (quiet_scan_visits_leading_buttons demoMenus None demoMenu 7 demoWorld
              Hn Ht Hu))).
Defined.

(** C2 as stated fails on a menu in which an empty button comes before
    the last button: the passes are not full passes.  In [tailMenu] the
    third button is empty and the fourth, the selector, shows a text.
    The scan calls back when the fourth step timer has run, not before;
    its two passes visited buttons 1 and 3 and stopped at the empty
    button, so the selector was in neither pass. *)
Lemma passes_stop_at_first_empty_button :
  let w1 := exec (scanMenu demoMenus (Some tailMenu) (KDone 7)) demoWorld in
  let w := idle demoMenus None 4 w1 in
  getButtons tailMenu !! 3 = Some demoSelector /\
  demoValue (bid demoSelector) <> "" /\
  doneIn (log (idle demoMenus None 3 w1)) = [] /\
  doneIn (log w) = [7] /\
  timers w = ∅ /\
  announcedIn (log w) = [1; 3; 1; 3].
Proof. repeat split. discriminate. Qed.

(** C4 as stated fails on a menu with an empty button before a button
    that is not empty: the scan of [gapMenu] is over after two visits,
    both of button 1; button 3 shows a text and is never announced. *)
Lemma button_after_empty_button_not_visited :
  let w := idle demoMenus None 2
             (exec (scanMenu demoMenus (Some gapMenu) (KDone 7)) demoWorld) in
  getButtons gapMenu !! 2 = Some demoB /\
  demoValue (bid demoB) <> "" /\
  announcedIn (log w) = [1; 1] /\
  doneIn (log w) = [7] /\
  timers w = ∅.
Proof. repeat split. discriminate. Qed.


(** * More of the scanner *)

(** ** The recursion of [loop] *)

(** X1.  [loop] calls itself only on an empty button and with the loop index
    one higher, and it stops calling itself when the index is [N_LOOPS]:
    from an index [l] it is entered at most [N_LOOPS - l] more times.
    The bound [depth] of the model is therefore never what ends it: any
    depth of at least [N_LOOPS - l] gives the same outcome. *)
Theorem loop_depth_enough callCb s ix l d d' w :
  l <= N_LOOPS -> N_LOOPS - l <= d -> N_LOOPS - l <= d' ->
  loopFrom d callCb s ix l w = loopFrom d' callCb s ix l w.
Proof.
  revert ix l d' w. induction d as [|d IH]; intros ix l d' w Hl Hd Hd'.
  - assert (l = N_LOOPS) by lia. subst l.
    destruct d'; simpl; destruct (menu s); reflexivity.
  - destruct d' as [|d'].
    + assert (l = N_LOOPS) by lia. subst l.
      simpl; destruct (menu s); reflexivity.
    + simpl. destruct (menu s) as [m|]; [|reflexivity].
      destruct (isLoopOver l) eqn:Ho; [reflexivity|].
      destruct (ix ≫= _) as [b|]; [|reflexivity].
      assert (l <> N_LOOPS) by (intros ->; discriminate).
      unfold bind, isEmpty, gets.
      destruct (bool_decide (value w (bid b) = "")); [|reflexivity].
      apply IH; lia.
Qed.

Lemma loop_depth_enough_witness :
  loopFrom 2 (ret tt) demoScan (Some 0) 0 demoWorld =
  loopFrom 5 (ret tt) demoScan (Some 0) 0 demoWorld.
Proof.
  apply loop_depth_enough; unfold N_LOOPS; lia.
Defined.

(** ** A menu that cannot be scanned *)

(** X2.  [scanMenu] on [undefined], or on a menu without buttons, registers
    its listeners and then throws: [menu.getButtons()] on [undefined] in
    the first case, [button.isEmpty()] on [undefined] in the second.
    Nothing was highlighted or announced, no timer was set and the
    callback was not called; the variables of the invocation are all
    [undefined]. *)
Theorem scanMenu_without_button_throws getMenus om k w :
  (forall m, om = Some m -> getButtons m = []) ->
  let s := mkScan (nextScan w) om k in
  let w' := exec (scanMenu getMenus om k) w in
  returns (scanMenu getMenus om k) w = false /\
  beginL w' = beginL w ++ [HScan s] /\
  endL w' = endL w ++ [HScan s] /\
  stopL w' = addEventListener (HScan s) (stopL w) /\
  log w' = log w /\ timers w' = timers w /\ finishedL w' = finishedL w /\
  varsOf w' (sid s) = blank.
Proof.
  intros Hm s w'. unfold w', returns, exec, scanMenu, scanMenuWith, enter,
    register, registerListeners, notePeak, loop. unfold N_LOOPS. simpl.
  destruct om as [m|]; simpl.
  - pose proof (Hm m eq_refl) as E. mrun. rewrite E. simpl.
    unfold varsOf. simpl. rewrite lookup_insert_eq. repeat split.
  - mrun. unfold varsOf. simpl. rewrite lookup_insert_eq. repeat split.
Qed.

Lemma scanMenu_without_button_throws_witness :
  returns (scanMenu demoMenus (Some noButtons) (KDone 7)) demoWorld = false.
Proof.
  refine (proj1 (scanMenu_without_button_throws demoMenus (Some noButtons)
                   (KDone 7) demoWorld _)).
  intros m [= <-]. reflexivity.
Defined.

(** ** How a scan starts *)

(** What [step] leaves behind, whatever timers are pending. *)
Lemma step_effect s b ix l w :
  let w' := exec (step s b ix l) w in
  timers w' =
    <[nextTimer w := ((now w + Z.max 0 (scanSpeed w * waitMultiplier b))%Z,
                      TNext s b ix l)]> (timers w) /\
  log w' = log w ++ [EToggle (bid b); EAnnounce (bid b)] /\
  beginL w' = beginL w /\ endL w' = endL w /\ stopL w' = stopL w /\
  currentButton (varsOf w' (sid s)) = Some b /\
  timeout (varsOf w' (sid s)) = Some (nextTimer w).
Proof.
  unfold exec, step, setTimeout. mrun. unfold varsOf. simpl.
  rewrite !lookup_insert_eq. simpl. rewrite <- app_assoc. repeat split.
Qed.

(** [scanMenu] called where nobody listens, on a menu whose first button
    shows a text: the new invocation registers its listeners and steps
    to that button. *)
Lemma scanMenuWith_first callCb m k b w :
  unregistered w -> getButtons m !! 0 = Some b -> value w (bid b) <> "" ->
  let s := mkScan (nextScan w) (Some m) k in
  exists wa,
    scanMenuWith callCb (Some m) k w = step s b (Some 0) 0 wa /\
    live s wa /\ timers wa = timers w /\ log wa = log w /\ now wa = now w /\
    nextTimer wa = nextTimer w /\ scanSpeed wa = scanSpeed w.
Proof.
  intros (Nb & Ne & Ns) Hfirst Hval s.
  exists (exec (bind (enter (Some m) k) register) w).
  set (wa := exec (bind (enter (Some m) k) register) w).
  assert (La : live s wa).
  { unfold wa, exec, enter, register, registerListeners, notePeak, addListener,
      addEventListener. mrun. rewrite Nb, Ne, Ns. repeat split. }
  assert (E : scanMenuWith callCb (Some m) k w = loop callCb s (Some 0) 0 wa)
    by reflexivity.
  split; [|repeat split; solve [reflexivity | apply La]].
  rewrite E. unfold loop.
  apply (loopFrom_step _ _ _ m 0 0 b); try reflexivity; assumption.
Qed.

Lemma unregister_listening i w :
  listening i w ->
  unregisterListeners (HListen i) w =
  (set_endL [] (set_beginL [] (set_stopL [] w)), Some tt).
Proof.
  intros (Hb & He & Hs).
  unfold unregisterListeners, removeEventListener. mrun.
  rewrite Hb, He, Hs, !removeListener_single. reflexivity.
Qed.

(** ** [listen] *)

Section Listening.
Variable getMenus : string -> option Menu.
Variable mainMenu : option Menu.

(** X3.  A click on the start button where nobody listens: [listen] announces
    itself, puts the detector in listening mode and registers its three
    listeners. *)
Theorem listen_registers w :
  unregistered w ->
  let w' := exec listen w in
  returns listen w = true /\
  listening (nextListen w) w' /\
  log w' = log w ++ [ESpeak "listening."; EMode "listening"] /\
  timers w' = timers w.
Proof.
  intros (Hb & He & Hs) w'. unfold w', returns, exec, listen, registerListeners,
    notePeak, addListener, addEventListener. mrun.
  rewrite Hb, He, Hs, <- app_assoc. repeat split.
Qed.

(** X4.  [listen] does not look whether somebody listens already: started
    where invocation [i] listens, it registers a second set of
    listeners beside the first. *)
Theorem listen_twice_registers_twice w i :
  listening i w ->
  let j := nextListen w in
  let w' := exec listen w in
  beginL w' = [HListen i; HListen j] /\
  endL w' = [HListen i; HListen j] /\
  (i <> j -> stopL w' = [HListen i; HListen j]) /\
  2 <= peak w'.
Proof.
  intros (Hb & He & Hs) j w'. unfold w', exec, listen, registerListeners,
    notePeak, addListener, addEventListener. mrun.
  rewrite Hb, He, Hs. simpl. repeat split; try lia.
  intros Hij. destruct (Nat.eqb_spec (nextListen w) i) as [E|_];
    [unfold j in Hij; congruence|]. reflexivity.
Qed.

(** X5.  The end of a gesture while listening, when the gesture was shorter
    than [LONG_GAZE_TIME] or no beginning was recorded: the warning timer
    is cleared and nothing else happens. *)
Theorem gaze_while_listening_is_ignored w i :
  listening i w ->
  (forall t0, l_startTime (lvarsOf w i) = Some t0 ->
              (now w - t0 < LONG_GAZE_TIME)%Z) ->
  handle getMenus mainMenu GestureEnd w =
  set_timers (cleared (l_longGazeTimeout (lvarsOf w i)) (timers w)) w.
Proof.
  intros (Hb & He & Hs) Hshort. simpl. unfold task.
  rewrite (emitEnd_single _ _ (HListen i)) by exact He. simpl.
  unfold l_gazeEnd. mrun.
  destruct (l_startTime (lvarsOf w i)) as [t0|] eqn:E; simpl; [|reflexivity].
  specialize (Hshort t0 eq_refl).
  destruct (Z.leb_spec LONG_GAZE_TIME (now w - t0)) as [?|_]; [lia|]. reflexivity.
Qed.

(** X6.  The end of a gesture of at least [LONG_GAZE_TIME] while listening:
    the listeners of [listen] are taken off and the scan of the main
    menu starts, with [listen] as its callback.  When the first button
    of the main menu shows a text, the scan waits at that button, for
    the scan speed times the button's wait multiplier. *)
Theorem long_gaze_while_listening_starts_scan m b w i t0 :
  mainMenu = Some m ->
  listening i w ->
  l_startTime (lvarsOf w i) = Some t0 ->
  (LONG_GAZE_TIME <= now w - t0)%Z ->
  getButtons m !! 0 = Some b ->
  value w (bid b) <> "" ->
  let w' := handle getMenus mainMenu GestureEnd w in
  let s := mkScan (nextScan w) (Some m) KListen in
  live s w' /\
  log w' = log w ++ [EMode "scanning"; EToggle (bid b); EAnnounce (bid b)] /\
  currentButton (varsOf w' (sid s)) = Some b /\
  timeout (varsOf w' (sid s)) = Some (nextTimer w) /\
  timers w' =
    <[nextTimer w := ((now w + Z.max 0 (scanSpeed w * waitMultiplier b))%Z,
                      TNext s b (Some 0) 0)]>
      (cleared (l_longGazeTimeout (lvarsOf w i)) (timers w)).
Proof.
  intros -> Hl Ht0 Hlong Hfirst Hval w' s.
  pose proof Hl as (Hb & He & Hs).
  set (wa := set_timers (cleared (l_longGazeTimeout (lvarsOf w i)) (timers w)) w).
  set (wb := set_endL [] (set_beginL [] (set_stopL [] wa))).
  set (wc := set_log (log wb ++ [EMode "scanning"]) wb).
  assert (Uc : unregistered wc) by (repeat split).
  destruct (scanMenuWith_first (invoke getMenus KListen) m KListen b wc Uc Hfirst Hval)
    as (wd & Ed & Ld & Td & Gd & Nd & NTd & Sd).
  assert (E : w' = exec (step s b (Some 0) 0) wd).
  { unfold w'. simpl. unfold task.
    rewrite (emitEnd_single _ _ (HListen i)) by exact He. simpl.
    unfold l_gazeEnd. unfold bind at 1, gets. unfold bind at 1, clearTimeout, modify.
    fold wa. unfold bind at 1, newDate, gets. rewrite Ht0.
    unfold geN, elapsedSince.
    destruct (Z.leb_spec LONG_GAZE_TIME (now wa - t0)) as [_|?]; [|simpl in *; lia].
    unfold bind at 1. rewrite (unregister_listening i wa) by exact Hl.
    fold wb. unfold scan, scanMode, emitLog. unfold bind at 1, modify. fold wc.
    unfold scanMenu. change (nextScan w) with (nextScan wc) in Ed.
    rewrite Ed. rewrite step_returns. reflexivity. }
  destruct (step_effect s b (Some 0) 0 wd) as (T & L & B & En & S & C & TO).
  rewrite E. split; [|split; [|split; [|split]]].
  - unfold live. rewrite B, En, S. exact Ld.
  - rewrite L, Gd. unfold wc. simpl. rewrite <- app_assoc. reflexivity.
  - exact C.
  - rewrite TO, NTd. reflexivity.
  - rewrite T, Td, NTd, Nd, Sd. reflexivity.
Qed.

(** X7.  A click on the stop button while listening: the stop is announced,
    the listeners are taken off and the detector goes idle.  The warning
    timer of a gesture that has begun is left pending. *)
Theorem stop_while_listening w i :
  listening i w ->
  let w' := handle getMenus mainMenu StopClick w in
  unregistered w' /\
  log w' = log w ++ [ESpeak "stopping."; EMode "idle"] /\
  timers w' = timers w /\ nextScan w' = nextScan w /\
  finishedL w' = finishedL w.
Proof.
  intros (Hb & He & Hs) w'. unfold w'.
  rewrite (stop_single _ _ (HListen i)) by exact Hs.
  unfold task. simpl. unfold l_pressStop, unregisterListeners,
    removeEventListener. mrun.
  rewrite Hb, He, Hs, !removeListener_single, <- app_assoc. repeat split.
Qed.

(** ** A pressed button that has not finished *)

(** X8.  After [pressButton] no listener is registered and the continuation
    waits for the button's "buttonFinished".  Until that arrives, a
    gesture or a click on the stop button changes nothing, nor does
    the "buttonFinished" of another button; when it arrives, the
    once-listener is taken off and the continuation runs. *)
Theorem pressed_button_holds_the_scanner w b k :
  unregistered w ->
  finishedL w = [(b, k)] ->
  handle getMenus mainMenu GestureBegin w = w /\
  handle getMenus mainMenu GestureEnd w = w /\
  handle getMenus mainMenu StopClick w = w /\
  (forall b', b' <> b -> handle getMenus mainMenu (ButtonFinished b') w = w) /\
  handle getMenus mainMenu (ButtonFinished b) w =
    task (invoke getMenus k) (set_finishedL [] w).
Proof.
  intros Hu Hf.
  split; [apply handle_gesture_none; auto|].
  split; [apply handle_gesture_none; auto|].
  split; [apply handle_gesture_none; auto|].
  split.
  - intros b' Hne. simpl. unfold task, emitFinished, bind at 1, gets.
    rewrite Hf. rewrite filter_cons_False by (simpl; congruence).
    rewrite filter_nil. simpl. reflexivity.
  - simpl. unfold task, emitFinished, bind at 1, gets.
    rewrite Hf. rewrite filter_cons_True by reflexivity. rewrite filter_nil.
    simpl map. rewrite callAll_single. unfold onceFinished. mrun.
    rewrite Hf. simpl. rewrite Nat.eqb_refl. reflexivity.
Qed.

End Listening.

(** ** On the small commboard *)

Lemma listen_registers_witness :
  unregistered demoWorld /\ listening 0 (exec listen demoWorld).
Proof.
  assert (Hu : unregistered demoWorld) by (repeat split).
  split; [exact Hu|].
  exact (proj1 (proj2 (listen_registers demoWorld Hu))).
Defined.

Lemma listen_twice_registers_twice_witness :
  listening 0 demoListening /\
  beginL (exec listen demoListening) = [HListen 0; HListen 1].
Proof.
  assert (Hl : listening 0 demoListening) by (repeat split).
  split; [exact Hl|].
  exact (proj1 (listen_twice_registers_twice demoListening 0 Hl)).
Defined.

(** A gesture of half a second while listening. *)
Lemma gaze_while_listening_is_ignored_witness :
  let w := run demoMenus (Some demoMenu) [GestureBegin; Wait 500] demoListening in
  listening 0 w /\
  handle demoMenus (Some demoMenu) GestureEnd w =
  set_timers (cleared (l_longGazeTimeout (lvarsOf w 0)) (timers w)) w.
Proof.
  intros w.
  assert (Hl : listening 0 w) by (repeat split).
  assert (Hs : forall t0, l_startTime (lvarsOf w 0) = Some t0 ->
                          (now w - t0 < LONG_GAZE_TIME)%Z)
    by (intros t0 [= <-]; vm_compute; reflexivity).
  split; [exact Hl|].
  exact (gaze_while_listening_is_ignored demoMenus (Some demoMenu) w 0 Hl Hs).
Defined.

(** A gesture of two and a half seconds while listening. *)
Lemma long_gaze_while_listening_starts_scan_witness :
  let w := run demoMenus (Some demoMenu) [GestureBegin; Wait 2500] demoListening in
  listening 0 w /\
  l_startTime (lvarsOf w 0) = Some 0%Z /\
  (LONG_GAZE_TIME <= now w - 0)%Z /\
  live (mkScan 0 (Some demoMenu) KListen)
       (handle demoMenus (Some demoMenu) GestureEnd w).
Proof.
  intros w.
  assert (Hl : listening 0 w) by (repeat split).
  assert (Hs : l_startTime (lvarsOf w 0) = Some 0%Z) by reflexivity.
  assert (Hg : (LONG_GAZE_TIME <= now w - 0)%Z) by (vm_compute; discriminate).
  assert (Hf : getButtons demoMenu !! 0 = Some demoA) by reflexivity.
  assert (Hv : value w (bid demoA) <> "") by discriminate.
  split; [exact Hl|]. split; [exact Hs|]. split; [exact Hg|].
  exact (proj1 (long_gaze_while_listening_starts_scan demoMenus (Some demoMenu)
                  demoMenu demoA w 0 0%Z eq_refl Hl Hs Hg Hf Hv)).
Defined.

Lemma stop_while_listening_witness :
  listening 0 demoListening /\
  unregistered (handle demoMenus (Some demoMenu) StopClick demoListening).
Proof.
  assert (Hl : listening 0 demoListening) by (repeat split).
  split; [exact Hl|].
  exact (proj1 (stop_while_listening demoMenus (Some demoMenu) demoListening 0 Hl)).
Defined.

(** Button 1 of [demoMenu] was pressed by a gesture of half a second. *)
Lemma pressed_button_holds_the_scanner_witness :
  let w := run demoMenus None [GestureBegin; Wait 500; GestureEnd] demoScanning in
  unregistered w /\ finishedL w = [(1, KDone 7)] /\
  handle demoMenus None StopClick w = w.
Proof.
  intros w.
  assert (Hu : unregistered w) by (repeat split).
  assert (Hf : finishedL w = [(1, KDone 7)]) by reflexivity.
  split; [exact Hu|]. split; [exact Hf|].
  exact (proj1 (proj2 (proj2
           (pressed_button_holds_the_scanner demoMenus None w 1 (KDone 7) Hu Hf)))).
Defined.

(** * [util.js] *)

(** X9.  [pad] returns an array of exactly the length asked for. *)
Theorem pad_length {A} (xs : list A) fillVal len :
  length (Util.pad xs fillVal len) = len.
Proof.
  unfold Util.pad, Util.repeat. case_bool_decide.
  - rewrite length_take. lia.
  - rewrite length_app, length_replicate. lia.
Qed.

(** X10.  Below the length asked for, [pad] has the elements of the array
    where it has some and the filler after them: it cuts and fills on the
    right only. *)
Theorem pad_lookup {A} (xs : list A) fillVal len i :
  i < len ->
  Util.pad xs fillVal len !! i = Some (default fillVal (xs !! i)).
Proof.
  intros Hi. unfold Util.pad, Util.repeat. case_bool_decide as Hlen.
  - rewrite lookup_take_lt by exact Hi.
    destruct (lookup_lt_is_Some_2 xs i) as [x Hx]; [lia|]. rewrite Hx. reflexivity.
  - destruct (Nat.lt_ge_cases i (length xs)) as [Hlt|Hge].
    + rewrite lookup_app_l by exact Hlt.
      destruct (lookup_lt_is_Some_2 xs i Hlt) as [x Hx]. rewrite Hx. reflexivity.
    + rewrite lookup_app_r by exact Hge.
      rewrite (lookup_ge_None_2 xs i) by exact Hge. simpl.
      apply lookup_replicate_2. lia.
Qed.

Lemma pad_lookup_witness :
  Util.pad ["a"; "b"] "" 7 !! 4 = Some (default "" (["a"; "b"] !! 4)).
Proof. apply pad_lookup. lia. Defined.

(** X11.  Padding what is padded already changes nothing. *)
Theorem pad_idempotent {A} (xs : list A) fillVal len :
  Util.pad (Util.pad xs fillVal len) fillVal len = Util.pad xs fillVal len.
Proof.
  unfold Util.pad at 1. rewrite pad_length.
  rewrite bool_decide_eq_true_2 by lia.
  apply take_ge. rewrite pad_length. lia.
Qed.

(** X12.  [renameKeys] with a pair whose two keys are the same does not keep
    the entry: the key is written and then deleted. *)
Theorem renameKeys_same_key_deletes {V} (undefined : V) obj k :
  Util.renameKeys undefined obj [(k, k)] = delete k obj.
Proof.
  unfold Util.renameKeys. simpl. apply map_eq. intros j.
  destruct (decide (j = k)) as [->|Hne].
  - rewrite !lookup_delete_eq. reflexivity.
  - rewrite !lookup_delete_ne, lookup_insert_ne by congruence. reflexivity.
Qed.

(** X13.  [renameKeys] with one pair of different keys: the new key holds what
    the old key held ([undefined] if the old key was not there, in which
    case the new key is there all the same), the old key is gone and the
    other keys are as they were. *)
Theorem renameKeys_moves_entry {V} (undefined : V) obj oldKey newKey :
  oldKey <> newKey ->
  let obj' := Util.renameKeys undefined obj [(oldKey, newKey)] in
  obj' !! newKey = Some (default undefined (obj !! oldKey)) /\
  obj' !! oldKey = None /\
  (forall k, k <> oldKey -> k <> newKey -> obj' !! k = obj !! k).
Proof.
  intros Hne obj'. unfold obj', Util.renameKeys. simpl. split; [|split].
  - rewrite lookup_delete_ne, lookup_insert_eq by congruence. reflexivity.
  - apply lookup_delete_eq.
  - intros k H1 H2. rewrite lookup_delete_ne, lookup_insert_ne by congruence.
    reflexivity.
Qed.

(** The call in [makeGenericButton]: the element passed as [elem] is
    afterwards found as [buttonElem]. *)
Lemma renameKeys_moves_entry_witness :
  Util.renameKeys 0 {["elem" := 5]} [("elem", "buttonElem")] !! "buttonElem" =
  Some (default 0 (({["elem" := 5]} : gmap string nat) !! "elem")).
Proof.
  refine (proj1 (renameKeys_moves_entry 0 {["elem" := 5]} "elem" "buttonElem" _)).
  discriminate.
Defined.


(** * The menus that fill their buttons *)

(** What [callback] does when there are as many guesses as buttons and
    the buttons are different objects: it returns, every button holds
    its guess, and nothing else has changed. *)
Lemma callback_sets buttons : forall guesses w,
  length guesses = length buttons -> NoDup (map bid buttons) ->
  exists val',
    Menus.callback buttons guesses w = (set_value val' w, Some tt) /\
    map (fun b => val' (bid b)) buttons = guesses /\
    (forall i, i ∉ map bid buttons -> val' i = value w i).
Proof.
  unfold Menus.callback.
  induction buttons as [|b r IH]; intros [|g gs] w Hlen Hnd; simpl in Hlen;
    try discriminate.
  - exists (value w). simpl. unfold ret. repeat split. destruct w; reflexivity.
  - apply NoDup_cons in Hnd as [Hb Hr]. injection Hlen as Hlen.
    set (wb := set_value (fun i => if Nat.eqb i (bid b) then g else value w i) w).
    destruct (IH gs wb Hlen Hr) as (val' & E & V & O).
    exists val'. split; [|split].
    + simpl. unfold bind at 1. unfold Menus.setButtonValue at 1, modify. fold wb.
      rewrite E. unfold wb. destruct w; reflexivity.
    + simpl. f_equal; [|exact V].
      rewrite O by exact Hb. unfold wb. simpl. rewrite Nat.eqb_refl. reflexivity.
    + intros i Hi. apply not_elem_of_cons in Hi as [Hib Hir].
      rewrite O by exact Hir. unfold wb. simpl.
      destruct (Nat.eqb_spec i (bid b)); [contradiction | reflexivity].
Qed.

(** With fewer buttons than guesses, [callback] throws: it has no button
    to give a guess to. *)
Lemma callback_short buttons : forall guesses w,
  length buttons < length guesses ->
  returns (Menus.callback buttons guesses) w = false.
Proof.
  unfold Menus.callback, returns.
  induction buttons as [|b r IH]; intros [|g gs] w Hlen; simpl in Hlen; try lia.
  - reflexivity.
  - simpl. unfold bind at 1. unfold Menus.setButtonValue at 1, modify.
    apply IH. lia.
Qed.

(** X14.  The guesses that come back from the word service, on a guess menu
    of [N_GUESSES] buttons: the buttons hold the guesses (all results but
    the first) from the left, cut or filled with the empty string to
    [N_GUESSES]; no other button is touched.  On a menu of fewer buttons
    the callback throws. *)
Theorem success_fills_buttons_from_the_left buttons searchResults w :
  NoDup (map bid buttons) ->
  let w' := exec (Menus.success buttons searchResults) w in
  (length buttons = Menus.N_GUESSES ->
     returns (Menus.success buttons searchResults) w = true /\
     map (fun b => value w' (bid b)) buttons =
       Util.pad (drop 1 searchResults) "" (length buttons) /\
     (forall i, i ∉ map bid buttons -> value w' i = value w i)) /\
  (length buttons < Menus.N_GUESSES ->
     returns (Menus.success buttons searchResults) w = false).
Proof.
  intros Hnd w'. split.
  - intros Hlen. unfold w', Menus.success. rewrite Hlen.
    destruct (callback_sets buttons (Util.pad (drop 1 searchResults) "" Menus.N_GUESSES) w)
      as (val' & E & V & O); [rewrite pad_length; congruence | exact Hnd |].
    unfold returns, exec. rewrite E. simpl.
    split; [reflexivity|]. split; [exact V | exact O].
  - intros Hlen. unfold Menus.success. apply callback_short.
    rewrite pad_length. exact Hlen.
Qed.

(** [pad] in one piece: what is kept of the array, then the filler. *)
Lemma pad_eq {A} (xs : list A) fillVal len :
  Util.pad xs fillVal len = take len xs ++ replicate (len - length xs) fillVal.
Proof.
  unfold Util.pad, Util.repeat. case_bool_decide as H.
  - replace (len - length xs) with 0 by lia. simpl. rewrite app_nil_r. reflexivity.
  - rewrite take_ge by lia. reflexivity.
Qed.

(** Where the empty buttons of a menu all come after the buttons that
    show a text, the buttons before the first empty one are all the
    buttons that show a text. *)
Lemma leading_filter val bs : forall xs k,
  Forall (fun t => t <> "") xs ->
  map (fun b => val (bid b)) bs = xs ++ replicate k "" ->
  leading val bs = filter (fun b => val (bid b) <> "") bs.
Proof.
  induction bs as [|b r IH]; intros xs k Hxs Hmap; [reflexivity|].
  destruct xs as [|x xs'].
  - assert (Hall : Forall (fun b => val (bid b) = "") (b :: r)).
    { apply Forall_forall. intros b' Hb'.
      assert (Hin : val (bid b') ∈ map (fun b => val (bid b)) (b :: r))
        by (apply (list_elem_of_fmap_2 (fun b => val (bid b))), Hb').
      rewrite Hmap in Hin. simpl in Hin.
      apply elem_of_replicate in Hin as [-> _]. reflexivity. }
    apply Forall_cons in Hall as [Hb Hr]. simpl.
    rewrite bool_decide_eq_true_2 by exact Hb.
    rewrite filter_cons_False by (intros H; apply H, Hb).
    clear -Hr. induction Hr as [|b' r' Hb' _ IH']; [reflexivity|].
    rewrite filter_cons_False by (intros H; apply H, Hb'). exact IH'.
  - simpl in Hmap. injection Hmap as Hb Hr.
    apply Forall_cons in Hxs as [Hx Hxs']. simpl.
    rewrite bool_decide_eq_false_2 by congruence.
    rewrite filter_cons_True by congruence. f_equal. apply (IH xs' k); assumption.
Qed.

Lemma leading_padded val bs texts :
  Forall (fun t => t <> "") texts ->
  map (fun b => val (bid b)) bs = Util.pad texts "" (length bs) ->
  leading val bs = filter (fun b => val (bid b) <> "") bs.
Proof.
  intros Hne Hmap. rewrite pad_eq in Hmap.
  apply (leading_filter val bs (take (length bs) texts) (length bs - length texts));
    [apply Forall_take, Hne | exact Hmap].
Qed.

Section PaddedMenus.
Variable getMenus : string -> option Menu.
Variable mainMenu : option Menu.

(** The log of a scan that nobody interrupts, when its last step timer
    has run. *)
Lemma quiet_scan_log m c w0 :
  getButtons m <> [] -> timers w0 = ∅ -> unregistered w0 ->
  let pre := leading (value w0) (getButtons m) in
  let w := idle getMenus mainMenu (N_LOOPS * length pre)
             (exec (scanMenu getMenus (Some m) (KDone c)) w0) in
  unregistered w /\ timers w = ∅ /\
  log w = log w0 ++ concat (map visitLog (pre ++ pre)) ++ [EDone c].
Proof.
  intros Hn Ht Hu pre w.
  destruct (sweep_inv getMenus mainMenu m c w0 Hn Ht Hu (N_LOOPS * length pre) (le_n _))
    as (_ & _ & [H|[_ H]]); [|exact H].
  destruct H as (ix & l & _ & _ & _ & Ej & Hix & Hl & _).
  fold pre in Ej, Hix. unfold N_LOOPS in *. nia.
Qed.

(** X15.  A menu whose buttons were filled by [pad] (the letter rows, the
    guesses) has its empty buttons on the right, and there the scan
    leaves nothing out: with no gesture and no stop, every button that
    shows a text is announced once in each of the [N_LOOPS] loops, in
    menu order, and then the callback is called. *)
Theorem right_padded_menu_is_scanned_whole m c w0 texts :
  getButtons m <> [] -> timers w0 = ∅ -> unregistered w0 ->
  Forall (fun t => t <> "") texts ->
  map (fun b => value w0 (bid b)) (getButtons m) =
    Util.pad texts "" (getNButtons m) ->
  let shown := filter (fun b => value w0 (bid b) <> "") (getButtons m) in
  let w := idle getMenus mainMenu (N_LOOPS * length shown)
             (exec (scanMenu getMenus (Some m) (KDone c)) w0) in
  announcedIn (log w) =
    announcedIn (log w0) ++ map bid (concat (replicate N_LOOPS shown)) /\
  doneIn (log w) = doneIn (log w0) ++ [c] /\
  pressedIn (log w) = pressedIn (log w0) /\
  unregistered w /\ timers w = ∅.
Proof.
  intros Hn Ht Hu Hne Hpad shown w.
  pose proof (leading_padded (value w0) (getButtons m) texts Hne Hpad) as El.
  destruct (quiet_scan_log m c w0 Hn Ht Hu) as (U & T & L).
  rewrite El in U, T, L. fold shown in U, T, L. fold w in U, T, L.
  assert (R : concat (replicate N_LOOPS shown) = shown ++ shown)
    by (simpl; rewrite app_nil_r; reflexivity).
  rewrite R, L. split; [|split; [|split; [|split]]]; try assumption.
  - unfold announcedIn. rewrite !omap_app. fold announcedIn.
    rewrite announcedIn_visits. simpl. rewrite app_nil_r. reflexivity.
  - rewrite !doneIn_app, doneIn_visits. reflexivity.
  - unfold pressedIn. rewrite !omap_app. fold pressedIn.
    rewrite pressedIn_visits. simpl. rewrite app_nil_r. reflexivity.
Qed.

End PaddedMenus.

(** ** The email menu *)

Lemma NoDup_bid_lookup (buttons : list Button) i j b b' :
  NoDup (map bid buttons) ->
  buttons !! i = Some b -> buttons !! j = Some b' -> bid b = bid b' -> i = j.
Proof.
  intros Hnd Hi Hj E.
  apply (NoDup_lookup (map bid buttons) i j (bid b)); [exact Hnd| |].
  - rewrite list_lookup_fmap, Hi. reflexivity.
  - rewrite list_lookup_fmap, Hj, E. reflexivity.
Qed.

(** Recipients added one after the other, starting at button [ix], as
    long as they reach no further than the last button: each is shown by
    the next button, and the index afterwards is the next button's, or 0
    after the last button. *)
Lemma addRecipients_from buttons : forall names ix w,
  length buttons = Menus.N_RECIPIENTS -> NoDup (map bid buttons) ->
  ix < Menus.N_RECIPIENTS -> ix + length names <= Menus.N_RECIPIENTS ->
  exists val',
    Menus.addRecipients buttons names ix w =
      (set_value val' w, Some ((ix + length names) mod Menus.N_RECIPIENTS)) /\
    (forall j b, buttons !! j = Some b ->
       val' (bid b) = if decide (ix <= j < ix + length names)
                      then default "" (names !! (j - ix))
                      else value w (bid b)) /\
    (forall i, i ∉ map bid buttons -> val' i = value w i).
Proof.
  intros names. induction names as [|n r IH]; intros ix w Hlen Hnd Hix Hfit.
  - exists (value w). cbn [Menus.addRecipients length].
    rewrite Nat.add_0_r, Nat.mod_small by exact Hix.
    unfold ret. split; [destruct w; reflexivity|]. split; [|reflexivity].
    intros j b _. case_decide; [lia | reflexivity].
  - simpl in Hfit.
    destruct (lookup_lt_is_Some_2 buttons ix) as [b0 Hb0]; [lia|].
    set (wb := set_value (fun i => if Nat.eqb i (bid b0) then n else value w i) w).
    assert (Estep : Menus.addRecipients buttons (n :: r) ix w =
                    Menus.addRecipients buttons r ((ix + 1) mod Menus.N_RECIPIENTS) wb).
    { simpl. unfold bind at 1, Menus.addRecipient. rewrite Hb0.
      unfold bind at 1, Menus.setButtonValue, modify, ret. reflexivity. }
    assert (Hmem : bid b0 ∈ map bid buttons).
    { apply list_elem_of_fmap. exists b0. split; [reflexivity|].
      eapply list_elem_of_lookup_2, Hb0. }
    destruct (decide (ix + 1 = Menus.N_RECIPIENTS)) as [Hlast|Hmore].
    + assert (r = []) by (destruct r; [reflexivity | simpl in Hfit; lia]). subst r.
      exists (value wb). rewrite Estep. cbn [Menus.addRecipients length].
      rewrite Hlast, Nat.Div0.mod_same. unfold ret.
      split; [unfold wb; destruct w; reflexivity|]. split.
      * intros j b Hb. unfold wb. simpl.
        destruct (Nat.eqb_spec (bid b) (bid b0)) as [E|Hne].
        -- assert (j = ix) by (eapply NoDup_bid_lookup; eassumption). subst j.
           rewrite decide_True by lia. rewrite Nat.sub_diag. reflexivity.
        -- rewrite decide_False; [reflexivity|].
           intros [H1 H2]. assert (j = ix) by lia. subst j. congruence.
      * intros i Hi. unfold wb. simpl.
        destruct (Nat.eqb_spec i (bid b0)) as [->|_]; [contradiction | reflexivity].
    + assert (Hlt : ix + 1 < Menus.N_RECIPIENTS) by lia.
      rewrite Nat.mod_small in Estep by exact Hlt.
      destruct (IH (ix + 1) wb Hlen Hnd Hlt) as (val' & E & V & O); [lia|].
      exists val'. rewrite Estep, E.
      split; [|split].
      * unfold wb. simpl length. replace (ix + 1 + length r) with (ix + S (length r)) by lia.
        destruct w; reflexivity.
      * intros j b Hb. rewrite (V j b Hb). simpl length.
        destruct (decide (j = ix)) as [->|Hj].
        -- rewrite decide_False by lia. rewrite decide_True by lia.
           rewrite Nat.sub_diag. simpl.
           assert (b = b0) by congruence. subst b.
           unfold wb. simpl. rewrite Nat.eqb_refl. reflexivity.
        -- assert (Hv : value wb (bid b) = value w (bid b)).
           { unfold wb. simpl.
             destruct (Nat.eqb_spec (bid b) (bid b0)) as [E'|_]; [|reflexivity].
             exfalso. apply Hj. eapply NoDup_bid_lookup; eassumption. }
           rewrite Hv. destruct (decide (ix + 1 <= j < ix + 1 + length r)) as [Hin|Hout].
           ++ rewrite decide_True by lia.
              replace (j - ix) with (S (j - (ix + 1))) by lia. reflexivity.
           ++ rewrite decide_False by lia. reflexivity.
      * intros i Hi. rewrite (O i Hi). unfold wb. simpl.
        destruct (Nat.eqb_spec i (bid b0)) as [->|_]; [contradiction | reflexivity].
Qed.

(** X16.  Recipients added to an email menu of [N_RECIPIENTS] empty buttons, at
    most one for each button: the buttons show the names from the left,
    in the order they were added, and the buttons left over stay empty;
    the index of the next button to fill is the number of names, or 0
    when every button is taken, so that a further recipient replaces the
    first. *)
Theorem recipients_fill_buttons_from_the_left buttons names w :
  length buttons = Menus.N_RECIPIENTS -> NoDup (map bid buttons) ->
  Forall (fun b => value w (bid b) = "") buttons ->
  length names <= Menus.N_RECIPIENTS ->
  let w' := exec (Menus.addRecipients buttons names 0) w in
  Menus.addRecipients buttons names 0 w =
    (w', Some (length names mod Menus.N_RECIPIENTS)) /\
  map (fun b => value w' (bid b)) buttons = Util.pad names "" Menus.N_RECIPIENTS /\
  (forall i, i ∉ map bid buttons -> value w' i = value w i).
Proof.
  intros Hlen Hnd Hempty Hfit w'.
  destruct (addRecipients_from buttons names 0 w Hlen Hnd) as (val' & E & V & O);
    [unfold Menus.N_RECIPIENTS; lia | simpl; exact Hfit |].
  rewrite Nat.add_0_l in E. unfold w', exec. rewrite E. cbn [fst].
  split; [reflexivity|]. split; [|exact O].
  apply list_eq. intros j. rewrite list_lookup_fmap.
  destruct (buttons !! j) as [b|] eqn:Hb; simpl.
  - pose proof (lookup_lt_Some _ _ _ Hb) as Hj. rewrite Hlen in Hj.
    rewrite pad_lookup by exact Hj. f_equal. rewrite (V j b Hb).
    rewrite Nat.sub_0_r. case_decide as Hin.
    + reflexivity.
    + rewrite (lookup_ge_None_2 names j) by lia. simpl.
      rewrite Forall_forall in Hempty. apply Hempty.
      eapply list_elem_of_lookup_2, Hb.
  - apply lookup_ge_None in Hb. symmetry. apply lookup_ge_None.
    rewrite pad_length. lia.
Qed.

(** ** On the small commboard *)

(** The word service answers "the", "then", "there". *)
Lemma success_fills_buttons_from_the_left_witness :
  NoDup (map bid guessButtons) /\
  map (fun b => value (exec (Menus.success guessButtons ["the"; "then"; "there"])
                         demoWorld) (bid b)) guessButtons =
  ["then"; "there"; ""; ""; ""; ""; ""; ""].
Proof.
  assert (Hnd : NoDup (map bid guessButtons)) by (apply NoDup_ListNoDup; repeat constructor; simpl; lia).
  split; [exact Hnd|].
  exact (proj1 (proj2 (proj1
           (success_fills_buttons_from_the_left guessButtons ["the"; "then"; "there"]
              demoWorld Hnd) eq_refl))).
Defined.

(** The guess menu, scanned after that answer. *)
Lemma right_padded_menu_is_scanned_whole_witness :
  let w0 := exec (Menus.success guessButtons ["the"; "then"; "there"]) demoWorld in
  getButtons guessMenu <> [] /\ timers w0 = ∅ /\ unregistered w0 /\
  Forall (fun t => t <> "") ["then"; "there"] /\
  announcedIn (log (idle demoMenus None 4
                      (exec (scanMenu demoMenus (Some guessMenu) (KDone 7)) w0))) =
  [10; 11; 10; 11].
Proof.
  intros w0.
  assert (Hn : getButtons guessMenu <> []) by discriminate.
  assert (Ht : timers w0 = ∅) by reflexivity.
  assert (Hu : unregistered w0) by (repeat split).
  assert (Hne : Forall (fun t => t <> "") ["then"; "there"])
    by (repeat constructor; discriminate).
  assert (Hp : map (fun b => value w0 (bid b)) (getButtons guessMenu) =
               Util.pad ["then"; "there"] "" (getNButtons guessMenu)) by reflexivity.
  split; [exact Hn|]. split; [exact Ht|]. split; [exact Hu|]. split; [exact Hne|].
  exact (proj1 (right_padded_menu_is_scanned_whole demoMenus None guessMenu 7 w0
                  ["then"; "there"] Hn Ht Hu Hne Hp)).
Defined.

Lemma recipients_fill_buttons_from_the_left_witness :
  length emailButtons = Menus.N_RECIPIENTS /\
  NoDup (map bid emailButtons) /\
  Forall (fun b => value emptyBoard (bid b) = "") emailButtons /\
  map (fun b => value (exec (Menus.addRecipients emailButtons ["Ann"; "Bob"] 0)
                         emptyBoard) (bid b)) emailButtons =
  Util.pad ["Ann"; "Bob"] "" Menus.N_RECIPIENTS.
Proof.
  assert (Hl : length emailButtons = Menus.N_RECIPIENTS) by reflexivity.
  assert (Hnd : NoDup (map bid emailButtons))
    by (apply NoDup_ListNoDup; repeat constructor; simpl; lia).
  assert (He : Forall (fun b => value emptyBoard (bid b) = "") emailButtons)
    by (repeat constructor).
  assert (Hk : length ["Ann"; "Bob"] <= Menus.N_RECIPIENTS)
    by (unfold Menus.N_RECIPIENTS; simpl; lia).
  split; [exact Hl|]. split; [exact Hnd|]. split; [exact He|].
  exact (proj1 (proj2 (recipients_fill_buttons_from_the_left emailButtons
                         ["Ann"; "Bob"] emptyBoard Hl Hnd He Hk))).
Defined.

(** * The text buffer *)

Lemma slice_0_m1_snoc (t : Buffer.Text) c : Buffer.slice_0_m1 (t ++ [c]) = t.
Proof.
  unfold Buffer.slice_0_m1. rewrite length_app. simpl.
  replace (length t + 1 - 1) with (length t) by lia. apply take_app_length.
Qed.

Lemma slice_m1_snoc (t : Buffer.Text) c : Buffer.slice_m 1 (t ++ [c]) = [c].
Proof.
  unfold Buffer.slice_m. rewrite length_app. simpl.
  replace (length t + 1 - 1) with (length t) by lia. apply drop_app_length.
Qed.

Lemma slice_m2_snoc2 (t : Buffer.Text) c d : Buffer.slice_m 2 (t ++ [c; d]) = [c; d].
Proof.
  unfold Buffer.slice_m. rewrite length_app. simpl.
  replace (length t + 2 - 2) with (length t) by lia. apply drop_app_length.
Qed.

Lemma slice_0_m1_length (t : Buffer.Text) :
  length (Buffer.slice_0_m1 t) = length t - 1.
Proof. unfold Buffer.slice_0_m1. rewrite length_take. lia. Qed.

(** [writeText] on any buffer: the last character goes, the text and the
    cursor come. *)
Lemma writeText_spec text s :
  let s' := Buffer.writeText text s in
  Buffer.bufferText s' = Buffer.getText s ++ text ++ Buffer.CURSOR /\
  Buffer.getText s' = Buffer.getText s ++ text /\
  Buffer.shown s' /\ Buffer.changes s' = Buffer.changes s.
Proof.
  unfold Buffer.writeText, Buffer.push, Buffer.pop, Buffer.update, Buffer.shown,
    Buffer.getText, Buffer.CURSOR. simpl.
  rewrite <- !app_assoc.
  assert (E : Buffer.slice_0_m1
                (Buffer.slice_0_m1 (Buffer.bufferText s) ++ text ++ ["_"%char]) =
              Buffer.slice_0_m1 (Buffer.bufferText s) ++ text)
    by (rewrite app_assoc; apply slice_0_m1_snoc).
  rewrite E, <- !app_assoc. repeat split.
Qed.

Lemma writeSpace_spec s :
  let s' := Buffer.writeSpace s in
  Buffer.getText s' = Buffer.getText s ++ [" "%char] /\
  Buffer.shown s' /\ Buffer.changes s' = Buffer.changes s.
Proof.
  destruct (writeText_spec [" "%char] s) as (_ & G & S & C). auto.
Qed.

(** X22.  The loop of [writeWord] ends: when the bound is the length of the
    buffer, it stops because the buffer is at the start of a word. *)
Lemma clearPartialWord_stops rounds : forall s,
  length (Buffer.bufferText s) <= rounds ->
  Buffer.isBufferWordStart (Buffer.clearPartialWord rounds s) = true.
Proof.
  induction rounds as [|n IH]; intros s Hlen; simpl.
  - destruct (Buffer.isBufferWordStart s) eqn:E; [exact E|].
    unfold Buffer.isBufferWordStart, Buffer.getText in E.
    assert (Hnil : Buffer.bufferText s = []) by (apply nil_length_inv; lia).
    rewrite Hnil in E. discriminate.
  - destruct (Buffer.isBufferWordStart s) eqn:E; [exact E|].
    apply IH. simpl. rewrite slice_0_m1_length.
    destruct (Buffer.bufferText s) as [|c r] eqn:Eb; simpl in *; lia.
Qed.

Lemma emitChange_shown s : Buffer.shown s -> Buffer.shown (Buffer.emitChange s).
Proof. intros H. exact H. Qed.

Lemma writeTerminalPunctuation_shown text s :
  Buffer.shown (Buffer.writeTerminalPunctuation text s) /\
  Buffer.changes (Buffer.writeTerminalPunctuation text s) = Buffer.changes s.
Proof.
  unfold Buffer.writeTerminalPunctuation.
  destruct (Buffer.isBufferWordStart s && negb (Buffer.isBufferSentenceStart s)).
  - destruct (writeSpace_spec (Buffer.writeText text (Buffer.pop s))) as (_ & S & C).
    destruct (writeText_spec text (Buffer.pop s)) as (_ & _ & _ & C1).
    split; [exact S|]. rewrite C, C1. reflexivity.
  - destruct (writeSpace_spec (Buffer.writeText text s)) as (_ & S & C).
    destruct (writeText_spec text s) as (_ & _ & _ & C1).
    split; [exact S|]. rewrite C, C1. reflexivity.
Qed.

Lemma clearPartialWord_changes rounds : forall s,
  Buffer.changes (Buffer.clearPartialWord rounds s) = Buffer.changes s.
Proof.
  induction rounds as [|n IH]; intros s; simpl;
    destruct (Buffer.isBufferWordStart s); try reflexivity.
  rewrite IH. reflexivity.
Qed.

(** X17.  Whatever the buffer was, after a [write] that returned (of any text,
    through any writer) the buffer ends with the cursor, the DOM element
    shows the buffer, and one "bufferChange" was emitted.  After an
    action that returned this holds if it held before; delete and clear
    emit one "bufferChange", read none. *)
Theorem buffer_operations_keep_cursor toUpperCase s s' :
  (forall text type,
     Buffer.write toUpperCase text type s = (s', Some tt) ->
     Buffer.shown s' /\ Buffer.changes s' = S (Buffer.changes s)) /\
  (forall actionName,
     Buffer.executeAction actionName s = (s', Some tt) ->
     Buffer.shown s ->
     Buffer.shown s' /\
     Buffer.changes s' =
       if String.eqb actionName "read" then Buffer.changes s
       else S (Buffer.changes s)).
Proof.
  split.
  - intros text type. unfold Buffer.write, Buffer.writers.
    destruct (String.eqb type "letter").
    { unfold Buffer.writeLetter.
      destruct (if Buffer.isBufferSentenceStart s then _ else _) as [t|]; [|discriminate].
      intros [= <-]. destruct (writeText_spec t s) as (_ & _ & S & C).
      split; [apply emitChange_shown, S | unfold Buffer.emitChange; cbn [Buffer.changes]; rewrite C; reflexivity]. }
    destruct (String.eqb type "space").
    { intros [= <-]. destruct (writeSpace_spec s) as (_ & S & C).
      split; [apply emitChange_shown, S | unfold Buffer.emitChange; cbn [Buffer.changes]; rewrite C; reflexivity]. }
    destruct (String.eqb type "word").
    { unfold Buffer.writeWord.
      set (s1 := Buffer.clearPartialWord _ s).
      destruct (if Buffer.isBufferSentenceStart s1 then _ else _) as [t|]; [|discriminate].
      intros [= <-]. destruct (writeSpace_spec (Buffer.writeText t s1)) as (_ & S & C).
      destruct (writeText_spec t s1) as (_ & _ & _ & C1).
      split; [apply emitChange_shown, S|].
      unfold Buffer.emitChange; cbn [Buffer.changes]. rewrite C, C1. unfold s1.
      rewrite clearPartialWord_changes. reflexivity. }
    destruct (String.eqb type "nonTerminalPunctuation").
    { intros [= <-]. destruct (writeText_spec text s) as (_ & _ & S & C).
      split; [apply emitChange_shown, S | unfold Buffer.emitChange; cbn [Buffer.changes]; rewrite C; reflexivity]. }
    destruct (String.eqb type "terminalPunctuation"); [|discriminate].
    intros [= <-]. destruct (writeTerminalPunctuation_shown text s) as (S & C).
    split; [apply emitChange_shown, S | unfold Buffer.emitChange; cbn [Buffer.changes]; rewrite C; reflexivity].
  - intros actionName. unfold Buffer.executeAction.
    destruct (String.eqb actionName "delete") eqn:Ed.
    { intros [= <-] _.
      assert (En : String.eqb actionName "read" = false)
        by (apply String.eqb_eq in Ed; subst; reflexivity).
      rewrite En. unfold Buffer.deleteText, Buffer.shown, Buffer.getText,
        Buffer.push, Buffer.pop, Buffer.update, Buffer.CURSOR. simpl.
      rewrite slice_0_m1_snoc. repeat split. }
    destruct (String.eqb actionName "read").
    { intros [= <-] H. split; [exact H | reflexivity]. }
    destruct (String.eqb actionName "clear"); [|discriminate].
    intros [= <-] _. repeat split.
Qed.

(** Where the loop of [writeWord] stops: at the first character of the
    partial word (or at the cursor, when there is no partial word). *)
Lemma clearPartialWord_spec pre partial : forall x tc ch rounds,
  (pre = [] \/ exists p, pre = p ++ [" "%char]) ->
  " "%char ∉ partial ->
  length partial <= rounds ->
  Buffer.bufferText
    (Buffer.clearPartialWord rounds (Buffer.mkState (pre ++ partial ++ [x]) tc ch)) =
  pre ++ take 1 (partial ++ [x]) /\
  Buffer.changes
    (Buffer.clearPartialWord rounds (Buffer.mkState (pre ++ partial ++ [x]) tc ch)) = ch.
Proof.
  induction partial as [|y q IH] using rev_ind; intros x tc ch rounds Hpre Hsp Hlen.
  - assert (Hws : Buffer.isBufferWordStart (Buffer.mkState (pre ++ [] ++ [x]) tc ch) = true).
    { unfold Buffer.isBufferWordStart, Buffer.getText. simpl.
      rewrite slice_0_m1_snoc. destruct Hpre as [->|[p ->]]; [reflexivity|].
      rewrite slice_m1_snoc. apply orb_true_r. }
    destruct rounds; simpl; simpl in Hws; rewrite Hws; split; reflexivity.
  - apply not_elem_of_app in Hsp as [Hq Hy].
    rewrite length_app in Hlen. simpl in Hlen.
    destruct rounds as [|n]; [lia|].
    assert (Hws : Buffer.isBufferWordStart
                    (Buffer.mkState (pre ++ (q ++ [y]) ++ [x]) tc ch) = false).
    { unfold Buffer.isBufferWordStart, Buffer.getText. simpl.
      rewrite !app_assoc, slice_0_m1_snoc, slice_m1_snoc.
      apply orb_false_iff. split; apply bool_decide_eq_false_2.
      - intros E. apply (f_equal length) in E. rewrite !length_app in E. simpl in E. lia.
      - intros [= ->]. apply Hy. apply list_elem_of_here. }
    simpl. rewrite Hws.
    assert (Epop : Buffer.pop (Buffer.mkState (pre ++ (q ++ [y]) ++ [x]) tc ch) =
                   Buffer.mkState (pre ++ q ++ [y]) (pre ++ q ++ [y]) ch).
    { unfold Buffer.pop, Buffer.update. simpl.
      rewrite !app_assoc, slice_0_m1_snoc. reflexivity. }
    rewrite Epop.
    destruct (IH y (pre ++ q ++ [y]) ch n Hpre Hq) as [B C]; [lia|].
    rewrite B, C. split; [|reflexivity]. f_equal.
    destruct q; reflexivity.
Qed.

Section BufferWriters.
Variable toUpperCase : Buffer.Text -> Buffer.Text.

(** X18.  [writeWord] on a buffer whose text is [pre ++ partial], where [pre]
    is empty or ends with a space and [partial], the word being typed,
    has no space: the partial word is replaced by the word, capitalized
    when [pre] is empty or ends with terminal punctuation and a space,
    and a space follows; the cursor is back at the end. *)
Theorem writeWord_replaces_partial_word text s pre partial :
  Buffer.shown s ->
  Buffer.getText s = pre ++ partial ->
  (pre = [] \/ exists p, pre = p ++ [" "%char]) ->
  " "%char ∉ partial ->
  text <> [] ->
  let sentenceStart :=
    bool_decide (pre = []) || Buffer.isTerminalPunctuation (Buffer.slice_m 2 pre) in
  exists toWrite s',
    (if sentenceStart then Util.capitalize toUpperCase text else Some text) =
      Some toWrite /\
    Buffer.writeWord toUpperCase text s = (s', Some tt) /\
    Buffer.getText s' = pre ++ toWrite ++ [" "%char] /\
    Buffer.shown s'.
Proof.
  intros [_ Hb] Hg Hpre Hsp Hne sentenceStart.
  destruct s as [bt tc ch]. simpl in Hb. rewrite Hg in Hb. unfold Buffer.CURSOR in Hb.
  rewrite <- app_assoc in Hb. subst bt.
  destruct (clearPartialWord_spec pre partial "_"%char tc ch
              (length (pre ++ partial ++ ["_"%char])) Hpre Hsp) as [B _].
  { rewrite !length_app. lia. }
  unfold Buffer.writeWord. cbn [Buffer.bufferText].
  set (s1 := Buffer.clearPartialWord _ _) in *.
  assert (G1 : Buffer.getText s1 = pre).
  { unfold Buffer.getText. rewrite B.
    destruct (partial ++ ["_"%char]) as [|z r] eqn:E.
    - destruct partial; discriminate.
    - simpl. apply slice_0_m1_snoc. }
  assert (Es : Buffer.isBufferSentenceStart s1 = sentenceStart).
  { unfold Buffer.isBufferSentenceStart, sentenceStart. rewrite G1.
    destruct Hpre as [->|[p ->]]; [reflexivity|].
    rewrite slice_m1_snoc.
    rewrite (bool_decide_eq_true_2 ([" "%char] = [" "%char])) by reflexivity.
    reflexivity. }
  rewrite Es. clear Es. clearbody sentenceStart.
  assert (Hfin : forall toWrite,
            Buffer.getText (Buffer.writeSpace (Buffer.writeText toWrite s1)) =
              pre ++ toWrite ++ [" "%char] /\
            Buffer.shown (Buffer.writeSpace (Buffer.writeText toWrite s1))).
  { intros toWrite.
    destruct (writeSpace_spec (Buffer.writeText toWrite s1)) as (G & S & _).
    destruct (writeText_spec toWrite s1) as (_ & G' & _ & _).
    split; [|exact S]. rewrite G, G', G1, <- app_assoc. reflexivity. }
  destruct sentenceStart.
  - destruct text as [|c r]; [contradiction|]. simpl.
    exists (toUpperCase [c] ++ r), (Buffer.writeSpace (Buffer.writeText (toUpperCase [c] ++ r) s1)).
    split; [reflexivity|]. split; [reflexivity|]. apply Hfin.
  - exists text, (Buffer.writeSpace (Buffer.writeText text s1)).
    split; [reflexivity|]. split; [reflexivity|]. apply Hfin.
Qed.

(** X19.  [writeWord] of the empty string (an empty guess button that is
    clicked) at the start of a sentence: [capitalize] throws.  By then
    the partial word was cut down to its first character, which stands
    where the cursor stood; no "bufferChange" is emitted. *)
Theorem writeWord_of_nothing_throws s pre partial :
  Buffer.shown s ->
  Buffer.getText s = pre ++ partial ->
  (pre = [] \/ exists p, pre = p ++ [" "%char]) ->
  " "%char ∉ partial ->
  bool_decide (pre = []) || Buffer.isTerminalPunctuation (Buffer.slice_m 2 pre) = true ->
  exists s',
    Buffer.write toUpperCase [] "word" s = (s', None) /\
    Buffer.bufferText s' = pre ++ take 1 (partial ++ Buffer.CURSOR) /\
    Buffer.changes s' = Buffer.changes s.
Proof.
  intros [_ Hb] Hg Hpre Hsp Hstart.
  destruct s as [bt tc ch]. simpl in Hb. rewrite Hg in Hb. unfold Buffer.CURSOR in *.
  rewrite <- app_assoc in Hb. subst bt.
  destruct (clearPartialWord_spec pre partial "_"%char tc ch
              (length (pre ++ partial ++ ["_"%char])) Hpre Hsp) as [B C].
  { rewrite !length_app. lia. }
  unfold Buffer.write, Buffer.writers. simpl String.eqb. cbv iota.
  unfold Buffer.writeWord. cbn [Buffer.bufferText].
  set (s1 := Buffer.clearPartialWord _ _) in *.
  assert (G1 : Buffer.getText s1 = pre).
  { unfold Buffer.getText. rewrite B.
    destruct (partial ++ ["_"%char]) as [|z r] eqn:E.
    - destruct partial; discriminate.
    - simpl. apply slice_0_m1_snoc. }
  assert (Es : Buffer.isBufferSentenceStart s1 = true).
  { unfold Buffer.isBufferSentenceStart. rewrite G1.
    destruct Hpre as [->|[p ->]]; [reflexivity|].
    rewrite slice_m1_snoc.
    rewrite (bool_decide_eq_true_2 ([" "%char] = [" "%char])) by reflexivity.
    exact Hstart. }
  rewrite Es. simpl. exists s1. split; [reflexivity|]. split; [exact B | exact C].
Qed.

(** X20.  [writeTerminalPunctuation] of a full stop, an exclamation mark or a
    question mark: the mark and a space are appended, after the space
    that [writeWord] left behind has been taken back if there is one;
    the buffer is then at the start of a sentence, and the next letter
    is written in upper case. *)
Theorem letter_after_terminal_punctuation_is_capitalized p c s :
  p = "."%char \/ p = "!"%char \/ p = "?"%char ->
  let base := if Buffer.isBufferWordStart s && negb (Buffer.isBufferSentenceStart s)
              then Buffer.slice_0_m1 (Buffer.getText s)
              else Buffer.getText s in
  let s1 := Buffer.writeTerminalPunctuation [p] s in
  Buffer.getText s1 = base ++ [p; " "%char] /\
  Buffer.isBufferSentenceStart s1 = true /\
  exists s2,
    Buffer.writeLetter toUpperCase [c] s1 = (s2, Some tt) /\
    Buffer.getText s2 = base ++ [p; " "%char] ++ toUpperCase [c].
Proof.
  intros Hp base s1.
  assert (G1 : Buffer.getText s1 = base ++ [p; " "%char]).
  { unfold s1, base, Buffer.writeTerminalPunctuation.
    destruct (Buffer.isBufferWordStart s && negb (Buffer.isBufferSentenceStart s)).
    - destruct (writeSpace_spec (Buffer.writeText [p] (Buffer.pop s))) as (G & _).
      destruct (writeText_spec [p] (Buffer.pop s)) as (_ & G' & _).
      rewrite G, G', <- app_assoc. reflexivity.
    - destruct (writeSpace_spec (Buffer.writeText [p] s)) as (G & _).
      destruct (writeText_spec [p] s) as (_ & G' & _).
      rewrite G, G', <- app_assoc. reflexivity. }
  assert (Es : Buffer.isBufferSentenceStart s1 = true).
  { unfold Buffer.isBufferSentenceStart. rewrite G1.
    rewrite slice_m2_snoc2.
    replace (Buffer.slice_m 1 (base ++ [p; " "%char])) with [" "%char]
      by (change [p; " "%char] with ([p] ++ [" "%char]);
          rewrite app_assoc, slice_m1_snoc; reflexivity).
    rewrite (bool_decide_eq_true_2 ([" "%char] = [" "%char])) by reflexivity.
    simpl. rewrite (bool_decide_eq_true_2 _ Hp). apply orb_true_r. }
  split; [exact G1|]. split; [exact Es|].
  unfold Buffer.writeLetter. rewrite Es. simpl.
  eexists. split; [reflexivity|].
  destruct (writeText_spec (toUpperCase [c] ++ []) s1) as (_ & G' & _).
  rewrite G', G1, app_nil_r, <- app_assoc. reflexivity.
Qed.

End BufferWriters.

(** X21.  [deleteText] takes the last character of the text away and puts the
    cursor back; it undoes the writing of one character, and where there
    is no text it changes nothing. *)
Theorem deleteText_removes_last_character s :
  Buffer.shown s ->
  let s' := Buffer.deleteText s in
  Buffer.getText s' = Buffer.slice_0_m1 (Buffer.getText s) /\
  Buffer.shown s' /\
  (Buffer.getText s = [] -> Buffer.bufferText s' = Buffer.bufferText s) /\
  (forall c, Buffer.bufferText (Buffer.deleteText (Buffer.writeText [c] s)) =
             Buffer.bufferText s).
Proof.
  intros [_ Hb] s'.
  assert (D : forall t, Buffer.bufferText (Buffer.deleteText t) =
                        Buffer.slice_0_m1 (Buffer.getText t) ++ Buffer.CURSOR)
    by reflexivity.
  assert (G : Buffer.getText s' = Buffer.slice_0_m1 (Buffer.getText s)).
  { unfold s', Buffer.getText at 1. rewrite D. apply slice_0_m1_snoc. }
  split; [exact G|]. split; [|split].
  - split; [reflexivity|]. rewrite G. apply D.
  - intros E. unfold s'. rewrite D, Hb, E. reflexivity.
  - intros c. rewrite D. destruct (writeText_spec [c] s) as (_ & G' & _).
    rewrite G', slice_0_m1_snoc, Hb. reflexivity.
Qed.

(** ** On a small buffer *)

Lemma buffer_operations_keep_cursor_witness :
  Buffer.write demoUpperCase (String.list_ascii_of_string "e") "letter" demoBuffer =
    (Buffer.mkState (String.list_ascii_of_string "hi the_") (String.list_ascii_of_string "hi the_") 1,
     Some tt) /\
  Buffer.shown
    (Buffer.mkState (String.list_ascii_of_string "hi the_") (String.list_ascii_of_string "hi the_") 1).
Proof.
  assert (E : Buffer.write demoUpperCase (String.list_ascii_of_string "e") "letter" demoBuffer =
    (Buffer.mkState (String.list_ascii_of_string "hi the_") (String.list_ascii_of_string "hi the_") 1,
     Some tt)) by reflexivity.
  split; [exact E|].
  exact (proj1 (proj1 (buffer_operations_keep_cursor demoUpperCase demoBuffer _)
                  (String.list_ascii_of_string "e") "letter" E)).
Defined.

(** The guess "there" replaces "th". *)
Lemma writeWord_replaces_partial_word_witness :
  Buffer.shown demoBuffer /\
  exists toWrite s',
    Buffer.writeWord demoUpperCase (String.list_ascii_of_string "there") demoBuffer =
      (s', Some tt) /\
    Buffer.getText s' =
      String.list_ascii_of_string "hi " ++ toWrite ++ [" "%char].
Proof.
  assert (Hs : Buffer.shown demoBuffer) by (split; reflexivity).
  assert (Hg : Buffer.getText demoBuffer =
               String.list_ascii_of_string "hi " ++ String.list_ascii_of_string "th") by reflexivity.
  assert (Hp : String.list_ascii_of_string "hi " = [] \/
               exists p, String.list_ascii_of_string "hi " = p ++ [" "%char])
    by (right; exists (String.list_ascii_of_string "hi"); reflexivity).
  assert (Hn : " "%char ∉ String.list_ascii_of_string "th")
    by (apply (bool_decide_unpack _); vm_compute; exact I).
  assert (Ht : String.list_ascii_of_string "there" <> []) by discriminate.
  split; [exact Hs|].
  destruct (writeWord_replaces_partial_word demoUpperCase
              (String.list_ascii_of_string "there") demoBuffer
              (String.list_ascii_of_string "hi ") (String.list_ascii_of_string "th")
              Hs Hg Hp Hn Ht) as (toWrite & s' & _ & E & G & _).
  exists toWrite, s'. split; [exact E | exact G].
Defined.

(** An empty guess, clicked while "ab" is being typed in an empty
    buffer. *)
Lemma writeWord_of_nothing_throws_witness :
  let s := Buffer.mkState (String.list_ascii_of_string "ab_") (String.list_ascii_of_string "ab_") 0 in
  Buffer.shown s /\
  exists s',
    Buffer.write demoUpperCase [] "word" s = (s', None) /\
    Buffer.bufferText s' = String.list_ascii_of_string "a".
Proof.
  intros s.
  assert (Hs : Buffer.shown s) by (split; reflexivity).
  assert (Hg : Buffer.getText s = [] ++ String.list_ascii_of_string "ab") by reflexivity.
  assert (Hp : @nil ascii = [] \/ exists p, @nil ascii = p ++ [" "%char])
    by (left; reflexivity).
  assert (Hn : " "%char ∉ String.list_ascii_of_string "ab")
    by (apply (bool_decide_unpack _); vm_compute; exact I).
  assert (Hst : bool_decide (@nil ascii = []) ||
                Buffer.isTerminalPunctuation (Buffer.slice_m 2 []) = true)
    by reflexivity.
  split; [exact Hs|].
  destruct (writeWord_of_nothing_throws demoUpperCase s [] (String.list_ascii_of_string "ab")
              Hs Hg Hp Hn Hst) as (s' & E & B & _).
  exists s'. split; [exact E | exact B].
Defined.

Lemma letter_after_terminal_punctuation_is_capitalized_witness :
  Buffer.isBufferSentenceStart
    (Buffer.writeTerminalPunctuation ["."%char] demoBuffer) = true.
Proof.
  refine (proj1 (proj2 (letter_after_terminal_punctuation_is_capitalized
                          demoUpperCase "."%char "a"%char demoBuffer _))).
  left. reflexivity.
Defined.

Lemma deleteText_removes_last_character_witness :
  Buffer.shown Buffer.initial /\
  Buffer.bufferText (Buffer.deleteText Buffer.initial) = Buffer.bufferText Buffer.initial.
Proof.
  assert (Hs : Buffer.shown Buffer.initial) by (split; reflexivity).
  split; [exact Hs|].
  exact (proj1 (proj2 (proj2 (deleteText_removes_last_character Buffer.initial Hs)))
           eq_refl).
Defined.

Lemma clearPartialWord_stops_witness :
  Buffer.isBufferWordStart
    (Buffer.clearPartialWord (length (Buffer.bufferText demoBuffer)) demoBuffer) = true.
Proof. apply clearPartialWord_stops. simpl. lia. Defined.

(** * The detector *)

(** ** The distance between two images *)

Lemma l1Step_comm x1 x2 distance i :
  Detector.l1Step x1 x2 distance i = Detector.l1Step x2 x1 distance i.
Proof.
  unfold Detector.l1Step. destruct (Nat.eqb (i mod 4) 3); [reflexivity|].
  destruct (x1 !! i), (x2 !! i); simpl; try reflexivity.
  destruct distance; simpl; [|reflexivity]. f_equal. f_equal. lia.
Qed.

Lemma foldl_l1Step_ext (f g : Detector.Num -> nat -> Detector.Num) l :
  forall acc, (forall a i, i ∈ l -> f a i = g a i) -> foldl f acc l = foldl g acc l.
Proof.
  induction l as [|i r IH]; intros acc H; simpl; [reflexivity|].
  rewrite (H acc i) by apply list_elem_of_here. apply IH.
  intros a j Hj. apply H. apply list_elem_of_further, Hj.
Qed.

(** A distance that is a number is not negative. *)
Lemma foldl_l1Step_nonneg x1 x2 l : forall acc d,
  (forall a, acc = Some a -> (0 <= a)%Z) ->
  foldl (Detector.l1Step x1 x2) acc l = Some d -> (0 <= d)%Z.
Proof.
  induction l as [|i r IH]; intros acc d Hacc; simpl.
  - intros E. apply Hacc, E.
  - apply IH. intros a. unfold Detector.l1Step.
    destruct (Nat.eqb (i mod 4) 3); [apply Hacc|].
    destruct acc as [a0|]; [|discriminate].
    destruct (x1 !! i), (x2 !! i); simpl; try discriminate.
    intros [= <-]. specialize (Hacc a0 eq_refl). lia.
Qed.

(** X23.  [l1Distance] is symmetric, whether it throws, gives [NaN] or gives a
    number; a number it gives is never negative; and the distance of an
    image from itself is 0, provided [data] has its four numbers for
    each pixel. *)
Theorem l1Distance_is_a_distance img1 img2 :
  Detector.l1Distance img1 img2 = Detector.l1Distance img2 img1 /\
  (forall d, Detector.l1Distance img1 img2 = Some (Some d) -> (0 <= d)%Z) /\
  (Detector.width img1 * Detector.height img1 * 4 <= length (Detector.data img1) ->
   Detector.l1Distance img1 img1 = Some (Some 0%Z)).
Proof.
  split; [|split].
  - unfold Detector.l1Distance, Detector.checkDimensions.
    rewrite (Nat.eqb_sym (Detector.width img2)), (Nat.eqb_sym (Detector.height img2)).
    destruct (Nat.eqb_spec (Detector.width img1) (Detector.width img2)) as [Ew|];
      [|reflexivity].
    destruct (Nat.eqb_spec (Detector.height img1) (Detector.height img2)) as [Eh|];
      [|reflexivity].
    simpl. rewrite Ew, Eh. f_equal. apply foldl_l1Step_ext.
    intros a i _. apply l1Step_comm.
  - intros d. unfold Detector.l1Distance.
    destruct (Detector.checkDimensions img1 img2) as [[w h]|]; [|discriminate].
    intros [= E]. eapply foldl_l1Step_nonneg; [|exact E].
    intros a [= <-]. lia.
  - intros Hlen. unfold Detector.l1Distance, Detector.checkDimensions.
    rewrite !Nat.eqb_refl. simpl. f_equal.
    set (n := Detector.width img1 * Detector.height img1 * 4) in *.
    assert (H : forall l, (forall i, i ∈ l -> i < n) ->
              foldl (Detector.l1Step (Detector.data img1) (Detector.data img1))
                    (Some 0%Z) l = Some 0%Z).
    { induction l as [|i r IH]; intros Hl; cbn [foldl]; [reflexivity|].
      assert (Hi : i < n) by (apply Hl, list_elem_of_here).
      destruct (lookup_lt_is_Some_2 (Detector.data img1) i) as [x Hx]; [lia|].
      assert (Es : Detector.l1Step (Detector.data img1) (Detector.data img1)
                     (Some 0%Z) i = Some 0%Z).
      { unfold Detector.l1Step. rewrite Hx.
        destruct (Nat.eqb (i mod 4) 3); [reflexivity|].
        unfold Detector.absDiff, Detector.plus. rewrite Z.sub_diag. reflexivity. }
      rewrite Es. apply IH. intros j Hj. apply Hl, list_elem_of_further, Hj. }
    apply H. intros i Hi. apply list_elem_of_In, in_seq in Hi. lia.
Qed.

Lemma l1Distance_is_a_distance_witness :
  let img := Detector.mkImageData 1 1 [10; 20; 30; 255]%Z in
  Detector.width img * Detector.height img * 4 <= length (Detector.data img) /\
  Detector.l1Distance img img = Some (Some 0%Z).
Proof.
  intros img.
  assert (H : Detector.width img * Detector.height img * 4 <= length (Detector.data img))
    by (simpl; lia).
  split; [exact H|].
  exact (proj2 (proj2 (l1Distance_is_a_distance img img)) H).
Defined.

(** X24.  The alpha values play no part: an image in which the fourth number
    of some pixel is changed is at the same distance from every
    image. *)
Theorem l1Distance_ignores_alpha w h x1 img2 i v :
  i mod 4 = 3 ->
  Detector.l1Distance (Detector.mkImageData w h (<[i := v]> x1)) img2 =
  Detector.l1Distance (Detector.mkImageData w h x1) img2.
Proof.
  intros Hi. unfold Detector.l1Distance, Detector.checkDimensions. simpl.
  destruct (_ && _); [|reflexivity]. f_equal. apply foldl_l1Step_ext.
  intros a j _. unfold Detector.l1Step.
  destruct (Nat.eqb_spec (j mod 4) 3) as [|Hj]; [reflexivity|].
  rewrite list_lookup_insert_ne by congruence. reflexivity.
Qed.

Lemma l1Distance_ignores_alpha_witness :
  Detector.l1Distance (Detector.mkImageData 1 1 (<[3 := 0%Z]> [10; 20; 30; 255]%Z))
                      (Detector.mkImageData 1 1 [1; 2; 3; 4]%Z) =
  Detector.l1Distance (Detector.mkImageData 1 1 [10; 20; 30; 255]%Z)
                      (Detector.mkImageData 1 1 [1; 2; 3; 4]%Z).
Proof. apply l1Distance_ignores_alpha. reflexivity. Defined.

(** ** The events of the gaze detector *)


(** ** Status and modes of the gaze detector *)

Lemma className_inj a b : Detector.className a = Detector.className b -> a = b.
Proof. destruct a, b; simpl; intros E; try reflexivity; discriminate. Qed.

Lemma className_not_null a : Detector.className a <> "null".
Proof. destruct a; discriminate. Qed.

Lemma className_fresh classes st :
  Detector.fresh_classes classes -> Detector.className st ∉ classes.
Proof.
  intros H. apply H. destruct st; simpl.
  - apply list_elem_of_further, list_elem_of_here.
  - do 2 apply list_elem_of_further. apply list_elem_of_here.
  - do 3 apply list_elem_of_further. apply list_elem_of_here.
Qed.

Lemma statusMap_known language st :
  language = "en" \/ language = "fr" ->
  exists text, Detector.statusMap st language = Some text.
Proof. intros [-> | ->]; unfold Detector.statusMap; simpl; eauto. Qed.

(** Toggling the class of the old status off and that of the new status
    on. *)
Lemma toggle_status_classes (classes : gset string) a b :
  a ∉ classes -> a <> "null" -> b ∉ classes -> b <> "null" ->
  Detector.toggleClass b (Detector.toggleClass a (classes ∪ {["null"]} ∪ {[a]})) =
  classes ∪ {["null"]} ∪ {[b]}.
Proof.
  intros Ha Hna Hb Hnb. unfold Detector.toggleClass.
  rewrite (decide_True (P := a ∈ classes ∪ {["null"]} ∪ {[a]}))
    by (apply elem_of_union_r, elem_of_singleton; reflexivity).
  rewrite decide_False.
  - apply set_eq. intros x.
    rewrite !elem_of_union, elem_of_difference, !elem_of_union, !elem_of_singleton.
    destruct (decide (x = a)) as [->|Hx]; intuition congruence.
  - rewrite elem_of_difference, !elem_of_union, !elem_of_singleton.
    intuition congruence.
Qed.

Lemma setStatus_settled language classes st m s :
  language = "en" \/ language = "fr" -> Detector.fresh_classes classes ->
  Detector.settled classes st s ->
  exists s',
    Detector.setStatus language m s = (s', Some tt) /\
    Detector.status s' = Some m /\
    Detector.classList s' = classes ∪ {["null"]} ∪ {[Detector.className m]} /\
    Detector.interval s' = Detector.interval s /\
    Detector.running s' = Detector.running s /\
    Detector.nextInterval s' = Detector.nextInterval s.
Proof.
  intros Hl Hf (Hst & Hcl & _ & _). unfold Detector.setStatus.
  destruct (statusMap_known language m Hl) as [text ->].
  rewrite Hst. eexists. split; [reflexivity|]. simpl.
  repeat split. rewrite Hcl.
  apply toggle_status_classes;
    auto using className_fresh, className_not_null.
Qed.

Lemma settled_running classes st s h :
  Detector.settled classes st s -> is_Some (Detector.running s !! h) ->
  Detector.interval s = Some h.
Proof.
  intros (_ & _ & _ & Hr) [x Hx]. destruct st.
  - rewrite Hr, lookup_empty in Hx. discriminate.
  - destruct Hr as (h0 & Hi & Hr). rewrite Hr in Hx.
    apply lookup_singleton_Some in Hx as [<- _]. exact Hi.
  - destruct Hr as (h0 & Hi & Hr). rewrite Hr in Hx.
    apply lookup_singleton_Some in Hx as [<- _]. exact Hi.
Qed.

Lemma running_after_clear s :
  (forall h, is_Some (Detector.running s !! h) -> Detector.interval s = Some h) ->
  Detector.running (Detector.clearInterval s) = ∅.
Proof.
  intros H. unfold Detector.clearInterval. simpl. apply map_eq. intros h.
  rewrite lookup_empty.
  destruct (Detector.interval s) as [h0|] eqn:E.
  - destruct (decide (h = h0)) as [->|Hne]; [apply lookup_delete_eq|].
    rewrite lookup_delete_ne by congruence.
    destruct (Detector.running s !! h) eqn:El; [|reflexivity].
    assert (Some h0 = Some h) by (apply H; eauto). congruence.
  - destruct (Detector.running s !! h) eqn:El; [|reflexivity].
    assert (@None nat = Some h) by (apply H; eauto). discriminate.
Qed.

Lemma settled_timer classes m period s :
  Detector.status s = Some m ->
  Detector.classList s = classes ∪ {["null"]} ∪ {[Detector.className m]} ->
  Detector.running (Detector.clearInterval s) = ∅ ->
  let s' := Detector.setInterval period (Detector.clearInterval s) in
  Detector.status s' = Some m /\
  Detector.classList s' = classes ∪ {["null"]} ∪ {[Detector.className m]} /\
  (forall h, is_Some (Detector.running s' !! h) -> h < Detector.nextInterval s') /\
  exists h, Detector.interval s' = Some h /\ Detector.running s' = {[h := period]}.
Proof.
  intros Hst Hcl Hclear s'. unfold s', Detector.setInterval.
  cbn [Detector.status Detector.classList Detector.running Detector.interval
       Detector.nextInterval].
  rewrite Hclear, insert_empty.
  split; [exact Hst|]. split; [exact Hcl|]. split.
  - intros h [x Hx]. apply lookup_singleton_Some in Hx as [<- _]. lia.
  - eexists. split; reflexivity.
Qed.

Lemma mode_settled language classes st m s :
  language = "en" \/ language = "fr" -> Detector.fresh_classes classes ->
  Detector.settled classes st s ->
  Detector.settled classes m (fst (Detector.mode language m s)).
Proof.
  intros Hl Hf H.
  destruct (setStatus_settled language classes st m s Hl Hf H)
    as (s' & E & Hst & Hcl & Hi & Hr & Hn).
  assert (Hclear : Detector.running (Detector.clearInterval s') = ∅).
  { apply running_after_clear. intros h. rewrite Hr, Hi.
    apply (settled_running classes st). exact H. }
  destruct m; unfold Detector.mode, Detector.idleMode, Detector.listenMode,
    Detector.scanMode; rewrite E; cbn [fst].
  - unfold Detector.settled. rewrite Hclear.
    split; [exact Hst|]. split; [exact Hcl|]. split; [|reflexivity].
    intros h [x Hx]. rewrite lookup_empty in Hx. discriminate.
  - apply (settled_timer classes Detector.listening 200%Z s' Hst Hcl Hclear).
  - apply (settled_timer classes Detector.scanning 50%Z s' Hst Hcl Hclear).
Qed.

Lemma constructed_settled language classes :
  language = "en" \/ language = "fr" -> Detector.fresh_classes classes ->
  exists s0, Detector.constructed language classes = (s0, Some tt) /\
             Detector.settled classes Detector.idle s0.
Proof.
  intros Hl Hf.
  unfold Detector.constructed, Detector.setStatus.
  destruct (statusMap_known language Detector.idle Hl) as [text ->].
  eexists. split; [reflexivity|]. unfold Detector.settled. simpl.
  split; [reflexivity|]. split; [|split; [|reflexivity]].
  - assert (F1 : "null" ∉ classes) by (apply Hf, list_elem_of_here).
    assert (F2 : "idle" ∉ classes)
      by (apply Hf, list_elem_of_further, list_elem_of_here).
    unfold Detector.toggleClass.
    rewrite (decide_False (P := "null" ∈ classes)) by exact F1.
    rewrite decide_False; [reflexivity|].
    rewrite elem_of_union, elem_of_singleton. intuition discriminate.
  - intros h [x Hx]. rewrite lookup_empty in Hx. discriminate.
Qed.

Lemma last_cons_default {A} (x : A) r : forall d d',
  List.last (x :: r) d = List.last (x :: r) d'.
Proof.
  revert x. induction r as [|y r IH]; intros x d d'; [reflexivity|].
  change (List.last (y :: r) d = List.last (y :: r) d'). apply IH.
Qed.

Lemma modes_settled language classes ms : forall st s,
  language = "en" \/ language = "fr" -> Detector.fresh_classes classes ->
  Detector.settled classes st s ->
  Detector.settled classes (List.last ms st) (Detector.modes language ms s).
Proof.
  unfold Detector.modes.
  induction ms as [|m r IH]; intros st s Hl Hf H; simpl; [exact H|].
  pose proof (mode_settled language classes st m s Hl Hf H) as H'.
  specialize (IH m _ Hl Hf H').
  destruct r as [|m' r']; [exact IH|].
  rewrite (last_cons_default m' r' st m). exact IH.
Qed.

(** X26.  A gaze detector made on a page that gives the status element none
    of the classes "null", "idle", "listening", "scanning", in English
    or in French, and then put through any sequence of modes: its status
    is that of the last mode called (idle if none was), the status
    element has the class of that status and of no other status, and
    beside it the class "null", which the constructor toggled on for the
    initial status [null]. *)
Theorem exactly_one_status_class language classes ms :
  language = "en" \/ language = "fr" ->
  Detector.fresh_classes classes ->
  exists s0,
    Detector.constructed language classes = (s0, Some tt) /\
    let s := Detector.modes language ms s0 in
    let st := List.last ms Detector.idle in
    Detector.status s = Some st /\
    Detector.classList s = classes ∪ {["null"]} ∪ {[Detector.className st]} /\
    (forall other, Detector.className other ∈ Detector.classList s -> other = st).
Proof.
  intros Hl Hf.
  destruct (constructed_settled language classes Hl Hf) as (s0 & E & H0).
  exists s0. split; [exact E|]. intros s st.
  destruct (modes_settled language classes ms _ _ Hl Hf H0) as (Hst & Hcl & _).
  fold s st in Hst, Hcl. split; [exact Hst|]. split; [exact Hcl|].
  intros other Ho. rewrite Hcl in Ho.
  pose proof (className_fresh classes other Hf) as Fo.
  pose proof (className_not_null other) as No.
  apply className_inj.
  revert Ho. rewrite !elem_of_union, !elem_of_singleton. intuition congruence.
Qed.

(** X27.  In the same setting at most one interval timer calls [detect]: none
    after [idleMode], one with a period of 200 ms after [listenMode], one
    with a period of 50 ms after [scanMode]; the timer of the mode before
    was cleared. *)
Theorem at_most_one_detect_interval language classes ms :
  language = "en" \/ language = "fr" ->
  Detector.fresh_classes classes ->
  exists s0,
    Detector.constructed language classes = (s0, Some tt) /\
    let s := Detector.modes language ms s0 in
    match List.last ms Detector.idle with
    | Detector.idle => Detector.running s = ∅
    | Detector.listening =>
        exists h, Detector.interval s = Some h /\ Detector.running s = {[h := 200%Z]}
    | Detector.scanning =>
        exists h, Detector.interval s = Some h /\ Detector.running s = {[h := 50%Z]}
    end.
Proof.
  intros Hl Hf.
  destruct (constructed_settled language classes Hl Hf) as (s0 & E & H0).
  exists s0. split; [exact E|]. intros s.
  destruct (modes_settled language classes ms _ _ Hl Hf H0) as (_ & _ & _ & Hr).
  exact Hr.
Qed.

(** X28.  Where the status map has no text for the language, [setStatus]
    throws when the status is assigned and before a class is toggled:
    the status element keeps the class of the old status. *)
Theorem setStatus_unknown_language_throws language newStatus s :
  language <> "en" -> language <> "fr" ->
  exists s',
    Detector.setStatus language newStatus s = (s', None) /\
    Detector.status s' = Some newStatus /\
    Detector.classList s' = Detector.classList s.
Proof.
  intros Hen Hfr. unfold Detector.setStatus, Detector.statusMap.
  destruct (String.eqb_spec language "en") as [|_]; [contradiction|].
  destruct (String.eqb_spec language "fr") as [|_]; [contradiction|].
  eexists. repeat split.
Qed.

(** ** On a small page *)

Lemma fresh_classes_demo : Detector.fresh_classes {["status"]}.
Proof.
  intros name Hn Hin. apply elem_of_singleton in Hin. subst name.
  repeat (apply elem_of_cons in Hn as [Hn|Hn]; [discriminate|]).
  inversion Hn.
Qed.

Lemma exactly_one_status_class_witness :
  Detector.fresh_classes {["status"]} /\
  exists s0,
    Detector.constructed "en" {["status"]} = (s0, Some tt) /\
    Detector.status
      (Detector.modes "en" [Detector.listening; Detector.scanning] s0) =
    Some Detector.scanning.
Proof.
  split; [exact fresh_classes_demo|].
  destruct (exactly_one_status_class "en" {["status"]}
              [Detector.listening; Detector.scanning]
              (or_introl eq_refl) fresh_classes_demo) as (s0 & E & H & _).
  exists s0. split; [exact E | exact H].
Defined.

Lemma at_most_one_detect_interval_witness :
  Detector.fresh_classes {["status"]} /\
  exists s0 h,
    Detector.constructed "fr" {["status"]} = (s0, Some tt) /\
    Detector.running
      (Detector.modes "fr" [Detector.scanning; Detector.listening] s0) =
    {[h := 200%Z]}.
Proof.
  split; [exact fresh_classes_demo|].
  destruct (at_most_one_detect_interval "fr" {["status"]}
              [Detector.scanning; Detector.listening]
              (or_intror eq_refl) fresh_classes_demo) as (s0 & E & h & _ & H).
  exists s0, h. split; [exact E | exact H].
Defined.

Lemma setStatus_unknown_language_throws_witness :
  exists s',
    Detector.setStatus "de" Detector.scanning
      (Detector.mkState (Some Detector.idle) {["null"; "idle"]} None ∅ 0) = (s', None) /\
    Detector.classList s' = {["null"; "idle"]}.
Proof.
  destruct (setStatus_unknown_language_throws "de" Detector.scanning
              (Detector.mkState (Some Detector.idle) {["null"; "idle"]} None ∅ 0))
    as (s' & E & _ & C); [discriminate | discriminate |].
  exists s'. split; [exact E | exact C].
Defined.
